(** * Cooperative cancellation in the jthread examples

    A model of the [std::jthread] examples (ex3 to ex7) and of the part of
    the C++20 thread support library they call ([std::stop_source],
    [std::stop_token], [std::stop_callback], [std::jthread],
    [std::condition_variable_any::wait] with a stop token).

    Granularity.  Every library operation on a stop state is atomic (the
    standard requires [request_stop], [stop_requested] and callback
    registration to be free of data races), except that the winning
    [request_stop] invokes its callbacks one at a time and the other
    threads may run between two of them; a critical section guarded by the
    queue mutex is one step of the thread that runs it.  Concurrency is
    interleaving of such steps. *)

From Stdlib Require Import ZArith Lia.
From stdpp Require Import base option list relations.

Set Default Proof Using "Type".
Open Scope Z_scope.
Open Scope nat_scope.

(** ** The stop state shared by a stop_source, its tokens and callbacks *)

(** Modelled from the spec: the stop state behind [std::stop_source],
    [std::stop_token] and [std::stop_callback], whose code is in the C++
    library and not in the repository (the examples only call it).
    StopState is (requested: bool, callbacks: ordered collection of
    (id, action)).  [requested] is the one-shot flag; [callbacks] is the
    registry of the callbacks currently registered, most recent first,
    each with the identity of its handle. *)
Record stop_state (A : Type) := StopState {
  requested : bool;
  callbacks : list (nat * A)
}.
Arguments StopState {A} _ _.
Arguments requested {A} _.
Arguments callbacks {A} _.

(** Modelled from the spec: the state a new StopSource (a
    [std::stop_source], or a started [std::jthread]) creates: not
    requested, nothing registered. *)
Definition ss_fresh {A} : stop_state A := StopState false [].

(** Modelled from the spec: the flag transition of
    [StopSource.request_stop()] ([std::stop_source::request_stop]).  The
    call that finds the flag clear performs the transition and returns
    true; if already requested it returns false and changes nothing. *)
Definition ss_try_request {A} (s : stop_state A) : bool * stop_state A :=
  if requested s then (false, s) else (true, StopState true (callbacks s)).

(** Modelled from the spec: the stored actions run on the thread that
    first calls [request_stop()] successfully, inside that call.  The
    winner takes the registered callbacks one at a time, each leaving the
    registry when it is taken to be invoked. *)
Definition ss_take {A} (s : stop_state A) : option ((nat * A) * stop_state A) :=
  match callbacks s with
  | [] => None
  | c :: cs => Some (c, StopState (requested s) cs)
  end.

(** Modelled from the spec: [register_callback(token, action)], the
    constructor of [std::stop_callback].  When a stop has already been
    requested the action is to be invoked at once by the caller ([true])
    and is not stored; otherwise it is stored. *)
Definition ss_register {A} (id : nat) (a : A) (s : stop_state A) : bool * stop_state A :=
  if requested s then (true, s)
  else (false, StopState false ((id, a) :: callbacks s)).

(** Modelled from the spec: destroying a CallbackHandle (the destructor
    of [std::stop_callback]) deregisters it: the callback leaves the
    registry. *)
Definition ss_deregister {A} (id : nat) (s : stop_state A) : stop_state A :=
  StopState (requested s) (filter (λ c, c.1 ≠ id) (callbacks s)).

(** ** Interleavings of calls on one stop state

    Any number of threads call into one stop state.  A schedule is the list
    of the atomic steps in the order in which they take effect. *)

Inductive call (A : Type) :=
| CRequestStop            (* some thread's request_stop() reaches the flag *)
| CInvokeNext             (* the thread inside the winning request_stop()
                             invokes the next callback, or returns when
                             none is left *)
| CRegister (a : A)       (* a stop_callback is constructed *)
| CDestroy (id : nat)     (* the stop_callback with handle id is destroyed *)
| CPoll.                  (* stop_requested() on a token of this state *)
Arguments CRequestStop {A}.
Arguments CInvokeNext {A}.
Arguments CRegister {A} _.
Arguments CDestroy {A} _.
Arguments CPoll {A}.

Inductive obs (A : Type) :=
| OWon                      (* a request_stop() performed the transition *)
| OLost                     (* a request_stop() returned false *)
| OInvoked (id : nat) (a : A) (* the action of callback id ran *)
| OReturnedTrue             (* the winning request_stop() returned true *)
| ORegistered (id : nat)    (* a stop_callback constructor returned *)
| ODestroyed (id : nat)
| OPolled (b : bool).
Arguments OWon {A}.
Arguments OLost {A}.
Arguments OInvoked {A} _ _.
Arguments OReturnedTrue {A}.
Arguments ORegistered {A} _.
Arguments ODestroyed {A} _.
Arguments OPolled {A} _.

(** One stop state with the calls in flight on it.  [draining]: a winning
    [request_stop()] has set the flag and has not yet returned.  [next_id]
    names the next callback handle.  [history] records what the callers
    observed, in order. *)
Record sys (A : Type) := Sys {
  state : stop_state A;
  draining : bool;
  next_id : nat;
  history : list (obs A)
}.
Arguments Sys {A} _ _ _ _.
Arguments state {A} _.
Arguments draining {A} _.
Arguments next_id {A} _.
Arguments history {A} _.

Definition sys_init {A} : sys A := Sys ss_fresh false 0 [].

(** Modelled from the spec: one atomic step on the stop state (its registry
    and flag change only under its own mutex), built from the transitions
    above. *)
Definition sys_step {A} (c : call A) (x : sys A) : sys A :=
  match c with
  | CRequestStop =>
      let '(won, s) := ss_try_request (state x) in
      if won then Sys s true (next_id x) (history x ++ [OWon])
      else Sys s (draining x) (next_id x) (history x ++ [OLost])
  | CInvokeNext =>
      if draining x then
        match ss_take (state x) with
        | Some ((id, a), s) =>
            Sys s true (next_id x) (history x ++ [OInvoked id a])
        | None =>
            Sys (state x) false (next_id x) (history x ++ [OReturnedTrue])
        end
      else x
  | CRegister a =>
      let id := next_id x in
      let '(now, s) := ss_register id a (state x) in
      if now then
        Sys s (draining x) (S id) (history x ++ [OInvoked id a; ORegistered id])
      else Sys s (draining x) (S id) (history x ++ [ORegistered id])
  | CDestroy id =>
      Sys (ss_deregister id (state x)) (draining x) (next_id x)
          (history x ++ [ODestroyed id])
  | CPoll =>
      Sys (state x) (draining x) (next_id x)
          (history x ++ [OPolled (requested (state x))])
  end.

Definition sys_run {A} (cs : list (call A)) (x : sys A) : sys A :=
  fold_left (λ x c, sys_step c x) cs x.

(** Counting in a history. *)
Definition is_won {A} (o : obs A) : bool :=
  match o with OWon => true | _ => false end.
Definition is_lost {A} (o : obs A) : bool :=
  match o with OLost => true | _ => false end.
Definition is_invoked {A} (id : nat) (o : obs A) : bool :=
  match o with OInvoked i _ => Nat.eqb i id | _ => false end.
Definition is_returned {A} (o : obs A) : bool :=
  match o with OReturnedTrue => true | _ => false end.
Definition is_request {A} (c : call A) : bool :=
  match c with CRequestStop => true | _ => false end.

Fixpoint count {X} (p : X → bool) (l : list X) : nat :=
  match l with
  | [] => 0
  | x :: l => (if p x then 1 else 0) + count p l
  end.

Definition registered_ids {A} (s : stop_state A) : list nat :=
  (callbacks s).*1.

(** What every reachable state satisfies. *)
Record sys_inv {A} (x : sys A) : Prop := SysInv {
  inv_won : count is_won (history x) = if requested (state x) then 1 else 0;
  inv_drain : draining x = true → requested (state x) = true;
  inv_ret : count is_returned (history x)
            = if requested (state x) && negb (draining x) then 1 else 0;
  inv_ids : ∀ i a, (i, a) ∈ callbacks (state x) →
            i < next_id x ∧ count (is_invoked i) (history x) = 0;
  inv_fresh : ∀ i, next_id x ≤ i → count (is_invoked i) (history x) = 0;
  inv_once : ∀ i, count (is_invoked i) (history x) ≤ 1;
  inv_quiet : requested (state x) = false →
              ∀ i, count (is_invoked i) (history x) = 0;
  inv_nodup : NoDup (callbacks (state x)).*1;
  inv_empty : requested (state x) = true → draining x = false →
              callbacks (state x) = [];
  inv_kept : ∀ i, i < next_id x →
             count (is_invoked i) (history x) = 1
             ∨ In (ODestroyed i) (history x)
             ∨ i ∈ (callbacks (state x)).*1
}.

(** The action of callback [id] ran inside the winning request_stop():
    after the flag was set and before that call returned. *)
Definition invoked_inside {A} (id : nat) (a : A) (x : sys A) : Prop :=
  ∃ h1 h2 h3,
    history x = h1 ++ OWon :: h2 ++ OInvoked id a :: h3
    ∧ count is_returned (h1 ++ OWon :: h2) = 0.

(** ** The process: stop states, jthread objects, threads of execution *)

(** A [std::jthread] object: its stop source ([None] for a default
    constructed jthread, which has no stop state) and the thread of
    execution it represents ([Some] exactly when [joinable()]). *)
Record jthread := JThread {
  ssource : option nat;
  handle : option nat
}.

Definition default_jthread : jthread := JThread None None.

(** The callables the examples run on a [std::jthread], with the local
    state each keeps between two of its steps.
    - [B3_worker]: [worker] of ex3; [cb] is its local
      [std::stop_callback cb]: [None] before it is constructed, then the
      handle the constructor gave.
    - [B5_interruptable]: [SimpleWorkerThrad::interruptableWorker]; [token]
      is its local [token], read from [mThread] when the body begins.
    - [B5_uninterruptable]: [SimpleWorkerThrad::uninterruptableWorker];
      [i] is the loop counter.
    - [B6_worker]: [WorkerThread<T>::worker] of ex6, with the members it
      reads ([mData], [mCv], the virtual [taskComplete]) and its local
      [std::stop_callback stop].
    - [B7_worker]: [WorkerThread::worker] of ex7. *)
Inductive body (T : Type) :=
| B3_worker (cb : option (option (nat * nat)))
| B5_interruptable (mThread : nat) (token : option (option nat))
| B5_uninterruptable (i : nat)
| B6_worker (mData mCv : nat) (taskComplete : T → bool)
    (stop : option (option (nat * nat)))
| B7_worker (mFinishEarly : bool).
Arguments B3_worker {T} _.
Arguments B5_interruptable {T} _ _.
Arguments B5_uninterruptable {T} _.
Arguments B6_worker {T} _ _ _ _.
Arguments B7_worker {T} _.

(** The lambdas the examples hand to [std::stop_callback]: those that only
    log (ex3), those that notify a condition variable (ex4, ex6), and those
    that start another worker (ex5, ex6, ex7), which amounts to
    [mThread = std::jthread(callable)] on that worker's [mThread]. *)
Inductive simple_action :=
| SLog
| SNotifyAll (cv : nat).

Inductive action (T : Type) :=
| ASimple (a : simple_action)
| AStart (mThread : nat) (b : body T).
Arguments ASimple {T} _.
Arguments AStart {T} _ _.

(** A thread of execution: what it runs, the [std::stop_token] its jthread
    hands to the callable, and whether it has not yet returned. *)
Record thread (T : Type) := Thread {
  tbody : body T;
  ttoken : option nat;
  alive : bool
}.
Arguments Thread {T} _ _ _.
Arguments tbody {T} _.
Arguments ttoken {T} _.
Arguments alive {T} _.

(** What an observer of the process can see. *)
Inductive event :=
| EInvoke (id : nat)           (* the action of stop_callback id was invoked *)
| ENotifyAll (cv : nat)
| ENotifyOne
| EPush (v : Z)                (* taskQueue.push(v) *)
| EPop (t : nat) (v : Z).      (* thread t took v from the front of taskQueue *)

(** The process state.  [sstates], [jthreads] and [cells] are heaps indexed
    by address; [threads] is indexed by thread id; [taskQueue] is the
    [std::queue<int>] of ex7's [main], front first; [cells] holds the
    [mData] members of ex6. *)
Record world (T : Type) := World {
  sstates : list (stop_state (action T));
  next_cb : nat;
  jthreads : list jthread;
  threads : list (thread T);
  cells : list T;
  taskQueue : list Z;
  trace : list event
}.
Arguments World {T} _ _ _ _ _ _ _.
Arguments sstates {T} _.
Arguments next_cb {T} _.
Arguments jthreads {T} _.
Arguments threads {T} _.
Arguments cells {T} _.
Arguments taskQueue {T} _.
Arguments trace {T} _.

Definition world0 {T} : world T := World [] 0 [] [] [] [] [].

Inductive exn :=
| SystemError      (* std::system_error: join() on a jthread that is not joinable *)
| DivideByZero.    (* integer division by zero *)

Inductive result (R : Type) :=
| Ok (r : R)
| Exn (e : exn).
Arguments Ok {R} _.
Arguments Exn {R} _.

(** What the calling thread waits for when it blocks. *)
Inductive cond :=
| CYield            (* a point where the scheduler may run other threads *)
| CJoin (t : nat).  (* join(): thread t has returned *)

(** The outcome of a piece of code run by the main thread: it returns, it
    throws, it blocks until a condition holds and then continues, or it
    invokes a callback action and then continues. *)
Inductive res (T R : Type) :=
| Done (r : R) (w : world T)
| Throw (e : exn) (w : world T)
| Wait (c : cond) (w : world T) (k : world T → res T R)
| Call (a : action T) (w : world T) (k : world T → res T R).
Arguments Done {T R} _ _.
Arguments Throw {T R} _ _.
Arguments Wait {T R} _ _ _.
Arguments Call {T R} _ _ _.

Definition M (T R : Type) : Type := world T → res T R.

Fixpoint bind_res {T R S} (x : res T R) (f : R → M T S) : res T S :=
  match x with
  | Done r w => f r w
  | Throw e w => Throw e w
  | Wait c w k => Wait c w (λ w', bind_res (k w') f)
  | Call a w k => Call a w (λ w', bind_res (k w') f)
  end.

Definition ret {T R} (r : R) : M T R := λ w, Done r w.
Definition bind {T R S} (m : M T R) (f : R → M T S) : M T S :=
  λ w, bind_res (m w) f.
Definition throw {T R} (e : exn) : M T R := λ w, Throw e w.
Definition gets {T R} (f : world T → R) : M T R := λ w, Done (f w) w.
Definition modify {T} (f : world T → world T) : M T unit := λ w, Done tt (f w).
Definition yield {T} : M T unit := λ w, Wait CYield w (λ w', Done tt w').

Declare Scope prog_scope.
Delimit Scope prog_scope with prog.
Bind Scope prog_scope with M.
Notation "x <- m ;; k" := (bind m (λ x, k))
  (at level 100, m at next level, right associativity) : prog_scope.
Notation "m ;;; k" := (bind m (λ _, k))
  (at level 100, right associativity) : prog_scope.

Fixpoint for_each {T X} (l : list X) (f : X → M T unit) : M T unit :=
  match l with
  | [] => ret tt
  | x :: l => (f x ;;; for_each l f)%prog
  end.

Fixpoint map_each {T X Y} (l : list X) (f : X → M T Y) : M T (list Y) :=
  match l with
  | [] => ret []
  | x :: l => (y <- f x ;; ys <- map_each l f ;; ret (y :: ys))%prog
  end.

(** ** The library operations on the process state

    The examples call the C++20 thread support library, whose code is not
    in the repository.  Its operations on the stop state are the
    transitions above, lifted to the heap of stop states; [std::jthread]
    and the token-aware wait are modelled after the C++20 standard
    ([thread.jthread.class], [thread.condvarany.intwait]) and the spec's
    description of start, stop and join. *)

Section Library.
Context {T : Type}.
Implicit Types (w : world T) (tok : option nat).

Definition set_sstates (f : list (stop_state (action T)) → list (stop_state (action T)))
    w : world T :=
  World (f (sstates w)) (next_cb w) (jthreads w) (threads w) (cells w)
        (taskQueue w) (trace w).
Definition set_next_cb (n : nat) w : world T :=
  World (sstates w) n (jthreads w) (threads w) (cells w) (taskQueue w) (trace w).
Definition set_jthreads (f : list jthread → list jthread) w : world T :=
  World (sstates w) (next_cb w) (f (jthreads w)) (threads w) (cells w)
        (taskQueue w) (trace w).
Definition set_threads (f : list (thread T) → list (thread T)) w : world T :=
  World (sstates w) (next_cb w) (jthreads w) (f (threads w)) (cells w)
        (taskQueue w) (trace w).
Definition set_cells (f : list T → list T) w : world T :=
  World (sstates w) (next_cb w) (jthreads w) (threads w) (f (cells w))
        (taskQueue w) (trace w).
Definition set_taskQueue (q : list Z) w : world T :=
  World (sstates w) (next_cb w) (jthreads w) (threads w) (cells w) q (trace w).
Definition emit (e : event) w : world T :=
  World (sstates w) (next_cb w) (jthreads w) (threads w) (cells w)
        (taskQueue w) (trace w ++ [e]).

(** [stop_token::stop_requested()]; a token without stop state answers
    false. *)
Definition stop_requested tok w : bool :=
  match tok with
  | Some s =>
      match sstates w !! s with
      | Some st => requested st
      | None => false
      end
  | None => false
  end.

(** [stop_token::stop_possible()] for a token taken from a jthread or a
    stop_source that is still there: whether it has a stop state. *)
Definition stop_possible tok : bool :=
  match tok with Some _ => true | None => false end.

(** [jthread::get_stop_token()] and [jthread::get_stop_source()]. *)
Definition get_stop_token (jt : nat) w : option nat :=
  jthreads w !! jt ≫= ssource.
Definition get_stop_source (jt : nat) w : option nat :=
  jthreads w !! jt ≫= ssource.

Definition joinable (jt : nat) w : bool :=
  match jthreads w !! jt ≫= handle with
  | Some _ => true
  | None => false
  end.

(** The winner of [request_stop()] invokes the registered callbacks, one
    after the other, on its own thread, and then returns true.  It takes
    them from the registry one at a time, and the registry is not locked
    while a callback runs: before the winner takes the next one, another
    thread may run and destroy a callback that was not yet taken, which is
    then never invoked.  After the last callback the call returns at once.
    The registry can only shrink once the flag is set, so [n], its length
    when the flag was set, bounds the loop. *)
Fixpoint drain (n : nat) (s : nat) w : res T bool :=
  match n with
  | 0 => Done true w
  | S n =>
      match sstates w !! s ≫= ss_take with
      | Some ((id, a), st) =>
          Call a (emit (EInvoke id) (set_sstates <[s := st]> w))
               (λ w', match callbacks st with
                      | [] => Done true w'
                      | _ :: _ => Wait CYield w' (λ w'', drain n s w'')
                      end)
      | None => Done true w
      end
  end.

(** [stop_source::request_stop()]. *)
Definition request_stop (src : option nat) : M T bool := λ w,
  match src with
  | Some s =>
      match sstates w !! s with
      | Some st =>
          let '(won, st') := ss_try_request st in
          if won then drain (length (callbacks st)) s (set_sstates <[s := st']> w)
          else Done false w
      | None => Done false w
      end
  | None => Done false w
  end.

(** [jthread::join()]: it throws [std::system_error] when the jthread is
    not joinable; otherwise it blocks until the thread has returned, and
    the jthread is no longer joinable. *)
Definition jthread_join (jt : nat) : M T unit := λ w,
  match jthreads w !! jt with
  | Some (JThread src (Some t)) =>
      Wait (CJoin t) w (λ w', Done tt (set_jthreads <[jt := JThread src None]> w'))
  | _ => Throw SystemError w
  end.

(** The constructor [std::jthread(callable, args...)]: a new stop state
    and a new thread of execution that runs the callable. *)
Definition jthread_ctor (b : body T) : M T jthread := λ w,
  let s := length (sstates w) in
  let t := length (threads w) in
  Done (JThread (Some s) (Some t))
       (set_threads (λ l, l ++ [Thread b (Some s) true])
          (set_sstates (λ l, l ++ [ss_fresh]) w)).

(** Move assignment [jt = std::jthread(...)]: if [jt] is joinable it is
    asked to stop and joined; then it takes the state of the new one. *)
Definition jthread_move_assign (jt : nat) (new : jthread) : M T unit :=
  (j <- gets (joinable jt) ;;
   (if j then
      (src <- gets (get_stop_source jt) ;;
       request_stop src ;;;
       jthread_join jt)
    else ret tt) ;;;
   modify (set_jthreads <[jt := new]>))%prog.

(** Destructor of [std::jthread]: if joinable, [request_stop()] and then
    [join()]. *)
Definition jthread_dtor (jt : nat) : M T unit :=
  (j <- gets (joinable jt) ;;
   if j then
     (src <- gets (get_stop_source jt) ;;
      request_stop src ;;;
      jthread_join jt)
   else ret tt)%prog.

(** A new object with a default constructed [std::jthread] member or
    local; the result is its address. *)
Definition jthread_new : M T nat := λ w,
  Done (length (jthreads w)) (set_jthreads (λ l, l ++ [default_jthread]) w).

(** What the examples' start lambdas do. *)
Definition jthread_start (jt : nat) (b : body T) : M T unit :=
  (new <- jthread_ctor b ;; jthread_move_assign jt new)%prog.

(** Constructor of [std::stop_callback] on the main thread.  The result
    is the handle (stop state and identity) when the token has a stop
    state; with no stop state nothing is registered and nothing runs. *)
Definition stop_callback_ctor tok (a : action T) : M T (option (nat * nat)) := λ w,
  match tok with
  | Some s =>
      match sstates w !! s with
      | Some st =>
          let id := next_cb w in
          let '(now, st') := ss_register id a st in
          if now then
            Call a (emit (EInvoke id) (set_next_cb (S id) w))
                 (λ w', Done (Some (s, id)) w')
          else
            Done (Some (s, id)) (set_next_cb (S id) (set_sstates <[s := st']> w))
      | None => Done None w
      end
  | None => Done None w
  end.

(** Destructor of [std::stop_callback]. *)
Definition stop_callback_dtor (h : option (nat * nat)) w : world T :=
  match h with
  | Some (s, id) =>
      match sstates w !! s with
      | Some st => set_sstates <[s := ss_deregister id st]> w
      | None => w
      end
  | None => w
  end.

Definition run_simple (a : simple_action) w : world T :=
  match a with
  | SLog => w
  | SNotifyAll cv => emit (ENotifyAll cv) w
  end.

(** Constructor of [std::stop_callback] inside a thread body; the bodies
    only register lambdas that log or notify. *)
Definition thread_stop_callback_ctor tok (a : simple_action) w
    : option (nat * nat) * world T :=
  match tok with
  | Some s =>
      match sstates w !! s with
      | Some st =>
          let id := next_cb w in
          let '(now, st') := ss_register id (ASimple a) st in
          if now then
            (Some (s, id), run_simple a (emit (EInvoke id) (set_next_cb (S id) w)))
          else
            (Some (s, id), set_next_cb (S id) (set_sstates <[s := st']> w))
      | None => (None, w)
      end
  | None => (None, w)
  end.

(** Modelled from the spec: the token-aware wait, [cv.wait(lock, token,
    pred)] of [std::condition_variable_any].  It blocks ([None]) until the
    predicate holds or a stop is requested, and returns ([Some r]) what the
    predicate answers then: true when it is satisfied, false when the stop
    was observed with the predicate not satisfied. *)
Definition cv_wait tok (pred : world T → bool) w : option bool :=
  if stop_requested tok w then Some (pred w)
  else if pred w then Some true
  else None.

(** A thread body returns. *)
Definition exit_thread (t : nat) w : world T :=
  set_threads (alter (λ th, Thread (tbody th) (ttoken th) false) t) w.

(** A thread body updates its local state. *)
Definition set_body (t : nat) (b : body T) w : world T :=
  set_threads (alter (λ th, Thread b (ttoken th) (alive th)) t) w.

Definition is_alive (t : nat) w : bool :=
  match threads w !! t with
  | Some th => alive th
  | None => false
  end.

(** Thread [t] has returned. *)
Definition finished (t : nat) w : bool :=
  match threads w !! t with
  | Some th => negb (alive th)
  | None => false
  end.

Definition pushed w : list Z :=
  omap (λ e, match e with EPush v => Some v | _ => None end) (trace w).
Definition dequeued w : list Z :=
  omap (λ e, match e with EPop _ v => Some v | _ => None end) (trace w).
Definition dequeued_by (t : nat) w : list Z :=
  omap (λ e, match e with
             | EPop t' v => if Nat.eqb t' t then Some v else None
             | _ => None
             end) (trace w).
Definition notified (cv : nat) w : nat :=
  count (λ e, match e with ENotifyAll c => Nat.eqb c cv | _ => false end)
        (trace w).

(** A local [std::jthread] constructed with a callable, as the [main]s of
    ex1 to ex4 do: a new jthread object that represents the new thread;
    the result is its address. *)
Definition jthread_local (b : body T) : M T nat :=
  (new <- jthread_ctor b ;;
   λ w, Done (length (jthreads w)) (set_jthreads (λ l, l ++ [new]) w))%prog.

(** How often the action of stop callback [id] was invoked. *)
Definition invocations (id : nat) w : nat :=
  count (λ e, match e with EInvoke i => Nat.eqb i id | _ => false end) (trace w).
End Library.

Arguments request_stop {T} _ _ : simpl never.
Arguments jthread_join {T} _ _ : simpl never.

(** ** jthread-ex3-more-stopping.cpp *)

Module Ex3.
Section Ex3.
Context {T : Type}.

(** One step of [worker]: it constructs [cb]; then, at each poll, it
    leaves the loop when a stop was requested ([cb] is destroyed on
    return) or prints a dot and sleeps. *)
Definition worker (cb : option (option (nat * nat))) (token : option nat)
    (t : nat) (w : world T) : option (world T) :=
  match cb with
  | None =>
      let '(h, w1) := thread_stop_callback_ctor token SLog w in
      Some (set_body t (B3_worker (Some h)) w1)
  | Some h =>
      if stop_requested token w
      then Some (exit_thread t (stop_callback_dtor h w))
      else Some w
  end.

(** [std::stop_callback quickCallback(iThreadQuick.get_stop_token(), ...)]
    in [main]. *)
Definition quickCallback (iThreadQuick : nat) : M T (option (nat * nat)) :=
  (tok <- gets (get_stop_token iThreadQuick) ;;
   stop_callback_ctor tok (ASimple SLog))%prog.

(** [main].  The other threads may run between any two statements, not
    only where [main] sleeps.  [return 0] destroys the locals in the
    reverse order of their declaration. *)
Definition main : M T unit :=
  (iThreadQuick <- jthread_local (B3_worker None) ;;
   yield ;;;
   quickCallback <- quickCallback iThreadQuick ;;
   yield ;;;
   iThreadSlow <- jthread_local (B3_worker None) ;;
   yield ;;;
   tok <- gets (get_stop_token iThreadQuick) ;;
   (if stop_possible tok
    then (src <- gets (get_stop_source iThreadQuick) ;; request_stop src ;;; ret tt)
    else ret tt) ;;;
   yield ;;;
   tok <- gets (get_stop_token iThreadSlow) ;;
   (if stop_possible tok
    then (src <- gets (get_stop_source iThreadSlow) ;; request_stop src ;;; ret tt)
    else ret tt) ;;;
   yield ;;;
   jthread_dtor iThreadSlow ;;;
   yield ;;;
   modify (stop_callback_dtor quickCallback) ;;;
   yield ;;;
   jthread_dtor iThreadQuick)%prog.
End Ex3.
End Ex3.

(** ** jthread-ex4-adv-stopping.cpp *)

Module Ex4.
Section Ex4.
Context {T : Type}.

Definition stopThread (jt : nat) : M T unit :=
  (tok <- gets (get_stop_token jt) ;;
   if stop_possible tok then
     (src <- gets (get_stop_source jt) ;;
      request_stop src ;;;
      ret tt)
   else ret tt)%prog.
End Ex4.
End Ex4.

(** ** jthread-ex5-class-basic.cpp *)

Module Ex5.
(** [mName] and [mColour] only feed the log. [mThread] is the address of
    the [std::jthread] member. *)
Record SimpleWorkerThrad := {
  mInterruptable : bool;
  mThread : nat
}.

Section Ex5.
Context {T : Type}.

Definition SimpleWorkerThrad_ctor (interruptable : bool) : M T SimpleWorkerThrad :=
  (jt <- jthread_new ;;
   ret {| mInterruptable := interruptable; mThread := jt |})%prog.

(** One step of [interruptableWorker]: first it binds [token] to
    [mThread.get_stop_token()]; then each poll either leaves the loop
    (and returns after the deliberate pause) or prints a dot. *)
Definition interruptableWorker (mThread : nat) (token : option (option nat))
    (t : nat) (w : world T) : option (world T) :=
  match token with
  | None => Some (set_body t (B5_interruptable mThread (Some (get_stop_token mThread w))) w)
  | Some token =>
      if stop_requested token w then Some (exit_thread t w) else Some w
  end.

(** One step of [uninterruptableWorker]: twenty rounds, then it returns. *)
Definition uninterruptableWorker (i : nat) (t : nat) (w : world T)
    : option (world T) :=
  if i <? 20 then Some (set_body t (B5_uninterruptable (S i)) w)
  else Some (exit_thread t w).

Definition start (this : SimpleWorkerThrad) : M T unit :=
  if mInterruptable this then
    (new <- jthread_ctor (B5_interruptable (mThread this) None) ;;
     jthread_move_assign (mThread this) new)%prog
  else
    (new <- jthread_ctor (B5_uninterruptable 0) ;;
     jthread_move_assign (mThread this) new)%prog.

Definition stop (this : SimpleWorkerThrad) (block : bool) : M T unit :=
  (tok <- gets (get_stop_token (mThread this)) ;;
   if stop_possible tok then
     (src <- gets (get_stop_source (mThread this)) ;;
      request_stop src ;;;
      if block then jthread_join (mThread this) else ret tt)
   else ret tt)%prog.

Definition join (this : SimpleWorkerThrad) : M T unit :=
  (j <- gets (joinable (mThread this)) ;;
   if j then jthread_join (mThread this) else ret tt)%prog.

Definition addCallback (this : SimpleWorkerThrad) (cb : action T)
    : M T (option (nat * nat)) :=
  (tok <- gets (get_stop_token (mThread this)) ;;
   stop_callback_ctor tok cb)%prog.

(** [~SimpleWorkerThrad()]: the body, then the destructor of the member
    [mThread]. *)
Definition SimpleWorkerThrad_dtor (this : SimpleWorkerThrad) : M T unit :=
  (stop this false ;;;
   jthread_dtor (mThread this))%prog.

(** The lambda of [main] that starts [interruptableThread_2]. *)
Definition lambda (interruptableThread_2 : SimpleWorkerThrad) : action T :=
  AStart (mThread interruptableThread_2)
    (if mInterruptable interruptableThread_2
     then B5_interruptable (mThread interruptableThread_2) None
     else B5_uninterruptable 0).

(** [main], with the other threads free to run between any two
    statements.  [return 0] destroys [cb] and then the three workers, in
    the reverse order of their declaration. *)
Definition main : M T unit :=
  (uninterruptableThread <- SimpleWorkerThrad_ctor false ;;
   interruptableThread_1 <- SimpleWorkerThrad_ctor true ;;
   interruptableThread_2 <- SimpleWorkerThrad_ctor true ;;
   yield ;;;
   start uninterruptableThread ;;;
   yield ;;;
   join uninterruptableThread ;;;
   yield ;;;
   start interruptableThread_1 ;;;
   yield ;;;
   cb <- addCallback interruptableThread_1 (lambda interruptableThread_2) ;;
   yield ;;;
   stop interruptableThread_1 true ;;;
   yield ;;;
   stop interruptableThread_2 false ;;;
   yield ;;;
   modify (stop_callback_dtor cb) ;;;
   yield ;;;
   SimpleWorkerThrad_dtor interruptableThread_2 ;;;
   yield ;;;
   SimpleWorkerThrad_dtor interruptableThread_1 ;;;
   yield ;;;
   SimpleWorkerThrad_dtor uninterruptableThread)%prog.
End Ex5.
End Ex5.

(** ** jthread-ex6-class-adv.cpp *)

Module Ex6.
(** [WorkerThread<T>]: [mThread] and [mData] are the addresses of the
    members, [mCv] names the condition variable, [taskComplete] is the
    override the derived class supplies (it reads [mData]). *)
Record WorkerThread (T : Type) := {
  mThread : nat;
  mData : nat;
  mCv : nat;
  taskComplete : T → bool
}.
Arguments mThread {T} _.
Arguments mData {T} _.
Arguments mCv {T} _.
Arguments taskComplete {T} _ _.

(** [BoolWorkerThread::taskComplete] and [IntWorkerThread::taskComplete]. *)
Definition BoolWorkerThread_taskComplete (mData : bool) : bool := mData.
Definition IntWorkerThread_taskComplete (mTarget : Z) (mData : Z) : bool :=
  Z.eqb mTarget mData.

Section Ex6.
Context {T : Type}.

Definition WorkerThread_ctor (defaultValue : T) (tc : T → bool)
    : M T (WorkerThread T) :=
  (jt <- jthread_new ;;
   d <- gets (λ w, length (cells w)) ;;
   modify (set_cells (λ l, l ++ [defaultValue])) ;;;
   ret {| mThread := jt; mData := d; mCv := d; taskComplete := tc |})%prog.

(** One step of [worker]: it constructs the callback [stop] that
    notifies [mCv]; then it waits on [mCv] until the task is complete or
    a stop was requested, and returns ([stop] is destroyed on return). *)
Definition worker (mData mCv : nat) (tc : T → bool)
    (stop : option (option (nat * nat))) (token : option nat)
    (t : nat) (w : world T) : option (world T) :=
  match stop with
  | None =>
      let '(h, w1) := thread_stop_callback_ctor token (SNotifyAll mCv) w in
      Some (set_body t (B6_worker mData mCv tc (Some h)) w1)
  | Some h =>
      let done := match cells w !! mData with Some d => tc d | None => false end in
      if stop_requested token w || done
      then Some (exit_thread t (stop_callback_dtor h w))
      else None
  end.

Definition start (this : WorkerThread T) : M T unit :=
  (new <- jthread_ctor (B6_worker (mData this) (mCv this) (taskComplete this) None) ;;
   jthread_move_assign (mThread this) new)%prog.

Definition stop (this : WorkerThread T) (block : bool) : M T unit :=
  (tok <- gets (get_stop_token (mThread this)) ;;
   if stop_possible tok then
     (src <- gets (get_stop_source (mThread this)) ;;
      request_stop src ;;;
      if block then jthread_join (mThread this) else ret tt)
   else ret tt)%prog.

Definition addCallback (this : WorkerThread T) (cb : action T)
    : M T (option (nat * nat)) :=
  (tok <- gets (get_stop_token (mThread this)) ;;
   stop_callback_ctor tok cb)%prog.

Definition join (this : WorkerThread T) : M T unit :=
  (j <- gets (joinable (mThread this)) ;;
   if j then jthread_join (mThread this) else ret tt)%prog.

(** [~WorkerThread()] is left out.  It runs when the derived part of the
    object is already destroyed, so that a worker woken by its [stop()]
    evaluates the pure virtual [taskComplete()], and the members [mData],
    [mCv] and [mMutex] are destroyed before [mThread] joins: what the
    worker does then is outside this model. *)

Definition setData (this : WorkerThread T) (data : T) : M T unit := λ w,
  if joinable (mThread this) w
     && negb (stop_requested (get_stop_token (mThread this) w) w)
  then
    Done tt (emit (ENotifyAll (mCv this))
               (set_cells <[mData this := data]> w))
  else Done tt w.

(** What [taskComplete()] answers in a given state. *)
Definition taskComplete_now (this : WorkerThread T) (w : world T) : option bool :=
  taskComplete this <$> cells w !! mData this.

(** The lambda of [main] that starts [intThread2]. *)
Definition lambda (intThread2 : WorkerThread T) : action T :=
  AStart (mThread intThread2)
    (B6_worker (mData intThread2) (mCv intThread2) (taskComplete intThread2) None).
End Ex6.
End Ex6.

(** ** jthread-ex7-class-more.cpp *)

Module Ex7.
Record WorkerThread := {
  mFinishEarly : bool;
  mThread : nat
}.

Section Ex7.
Context {T : Type}.

Definition WorkerThread_ctor (finishEarly : bool) : M T WorkerThread :=
  (jt <- jthread_new ;;
   ret {| mFinishEarly := finishEarly; mThread := jt |})%prog.

(** One round of the loop of [worker], from taking the lock to releasing
    it: [None] while [cv.wait] blocks; otherwise the thread either breaks
    out of the loop and returns, or takes the front item (and then
    sleeps, outside the lock). *)
Definition worker (mFinishEarly : bool) (token : option nat)
    (t : nat) (w : world T) : option (world T) :=
  match cv_wait token (λ w, 0 <? length (taskQueue w)) w with
  | None => None
  | Some r =>
      if negb r || (mFinishEarly && stop_requested token w)
      then Some (exit_thread t w)
      else
        match taskQueue w with
        | value :: queue => Some (emit (EPop t value) (set_taskQueue queue w))
        | [] => None
        end
  end.

(** The three reference arguments of [start] always denote the mutex,
    condition variable and queue of [main]. *)
Definition start (this : WorkerThread) : M T unit :=
  (new <- jthread_ctor (B7_worker (mFinishEarly this)) ;;
   jthread_move_assign (mThread this) new)%prog.

Definition stop (this : WorkerThread) (block : bool) : M T unit :=
  (tok <- gets (get_stop_token (mThread this)) ;;
   if stop_possible tok then
     (src <- gets (get_stop_source (mThread this)) ;;
      request_stop src ;;;
      if block then jthread_join (mThread this) else ret tt)
   else ret tt)%prog.

Definition addCallback (this : WorkerThread) (cb : action T)
    : M T (option (nat * nat)) :=
  (tok <- gets (get_stop_token (mThread this)) ;;
   stop_callback_ctor tok cb)%prog.

Definition join (this : WorkerThread) : M T unit :=
  (j <- gets (joinable (mThread this)) ;;
   if j then jthread_join (mThread this) else ret tt)%prog.

(** [~WorkerThread()]: the body, then the destructor of [mThread]. *)
Definition WorkerThread_dtor (this : WorkerThread) : M T unit :=
  (stop this false ;;;
   jthread_dtor (mThread this))%prog.

(** The lambda of [main] that starts [extraThread]. *)
Definition lambda (extraThread : WorkerThread) : action T :=
  AStart (mThread extraThread) (B7_worker (mFinishEarly extraThread)).

(** [taskQueue.push(i); cv.notify_one();] under the lock. *)
Definition push (i : Z) : M T unit :=
  modify (λ w, emit ENotifyOne (emit (EPush i) (set_taskQueue (taskQueue w ++ [i]) w))).

(** [main] up to the point where the pool is killed: the extra thread,
    the pool (the worker of index [threadCount / 2] gets the callback
    that starts the extra thread), and the tasks [threadCount * 10]
    down to [1].  Every [sleep_for] and every acquisition of the mutex
    is a point where the other threads may run.  [int] values are taken
    in Z: [threadCount * 10] is the product the code computes for every
    [threadCount] from -214748364 to 214748364, the counts for which it
    does not overflow [int]. *)
Definition pool_setup (threadCount : Z) : M T (WorkerThread * list WorkerThread) :=
  let SPECIAL_THREAD := Z.quot threadCount 2 in
  (extraThread <- WorkerThread_ctor false ;;
   threads <- map_each (seqZ 0 threadCount) (λ i,
     th <- WorkerThread_ctor true ;;
     start th ;;;
     yield ;;;
     (if Z.eqb i SPECIAL_THREAD
      then (addCallback th (lambda extraThread) ;;; ret tt)
      else ret tt) ;;;
     ret th) ;;
   yield ;;;
   for_each (reverse (seqZ 1 (threadCount * 10))) (λ i,
     yield ;;;
     push i) ;;;
   (if Z.eqb threadCount 0 then throw DivideByZero else ret tt) ;;;
   yield ;;;
   ret (extraThread, threads))%prog.

(** The end of [main]: every pool thread is told to stop, then the extra
    thread is stopped with [block = true].  The scheduler may run other
    threads between two calls. *)
Definition pool_shutdown (threads : list WorkerThread) (extraThread : WorkerThread)
    : M T unit :=
  (for_each threads (λ thread, yield ;;; stop thread false) ;;;
   yield ;;;
   stop extraThread true)%prog.

(** [return 0]: the locals are destroyed in reverse order of
    declaration. *)
Definition main_exit (threads : list WorkerThread) (extraThread : WorkerThread)
    : M T unit :=
  (for_each threads WorkerThread_dtor ;;;
   WorkerThread_dtor extraThread)%prog.

Definition main (threadCount : Z) : M T unit :=
  (p <- pool_setup threadCount ;;
   pool_shutdown p.2 p.1 ;;;
   main_exit p.2 p.1)%prog.
End Ex7.
End Ex7.

(** ** Running the process *)

Section Semantics.
Context {T : Type}.

(** Invoking a callback action on the thread that fires it. *)
Definition invoke (a : action T) : M T unit :=
  match a with
  | ASimple s => modify (run_simple s)
  | AStart jt b => jthread_start jt b
  end.

(** One step of thread [t], if it is alive and not blocked. *)
Definition thread_step (t : nat) (w : world T) : option (world T) :=
  match threads w !! t with
  | Some th =>
      if alive th then
        match tbody th with
        | B3_worker cb => Ex3.worker cb (ttoken th) t w
        | B5_interruptable jt token => Ex5.interruptableWorker jt token t w
        | B5_uninterruptable i => Ex5.uninterruptableWorker i t w
        | B6_worker d cv tc stop => Ex6.worker d cv tc stop (ttoken th) t w
        | B7_worker fe => Ex7.worker fe (ttoken th) t w
        end
      else None
  | None => None
  end.

(** The other threads take a step. *)
Definition env_step (w w' : world T) : Prop :=
  ∃ t, thread_step t w = Some w'.

Definition env_star : world T → world T → Prop := rtc env_step.

Definition ready (c : cond) (w : world T) : Prop :=
  match c with
  | CYield => True
  | CJoin t => finished t w = true
  end.

(** [runs x o w]: the code with outcome tree [x], run by the main thread
    while the other threads run as they may, ends with [o] in state [w]. *)
Inductive runs {R : Type} : res T R → result R → world T → Prop :=
| runs_done (r : R) w :
    runs (Done r w) (Ok r) w
| runs_throw e w :
    runs (Throw e w) (Exn e) w
| runs_wait c w (k : world T → res T R) w1 o w2 :
    env_star w w1 → ready c w1 → runs (k w1) o w2 →
    runs (Wait c w k) o w2
| runs_call a w (k : world T → res T R) w1 o w2 :
    @runs unit (invoke a w) (Ok tt) w1 → runs (k w1) o w2 →
    runs (Call a w k) o w2
| runs_call_exn a w (k : world T → res T R) e w1 :
    @runs unit (invoke a w) (Exn e) w1 →
    runs (Call a w k) (Exn e) w1.

(** Every way the code can end satisfies [Q]. *)
Definition wp {R} (x : res T R) (Q : result R → world T → Prop) : Prop :=
  ∀ o w, runs x o w → Q o w.

(** Thread [t] takes [n] steps in a row. *)
Fixpoint steps (n : nat) (t : nat) (w : world T) : option (world T) :=
  match n with
  | 0 => Some w
  | S n => thread_step t w ≫= steps n t
  end.
End Semantics.

(** An executable scheduler.  At each blocking point of the main thread
    the next entry of [sch] lists the threads that take a step, in order,
    before the main thread goes on; the main thread then needs its
    condition to hold.  [n] bounds the number of nodes visited. *)
Fixpoint run_threads {T} (ts : list nat) (w : world T) : option (world T) :=
  match ts with
  | [] => Some w
  | t :: ts => thread_step t w ≫= run_threads ts
  end.

Definition ready_b {T} (c : cond) (w : world T) : bool :=
  match c with
  | CYield => true
  | CJoin t => finished t w
  end.

Fixpoint exec {T} (n : nat) (R : Type) (sch : list (list nat)) (x : res T R)
    : option (result R * world T * list (list nat)) :=
  match n with
  | 0 => None
  | S n =>
      match x with
      | Done r w => Some (Ok r, w, sch)
      | Throw e w => Some (Exn e, w, sch)
      | Wait c w k =>
          match run_threads (hd [] sch) w with
          | Some w1 => if ready_b c w1 then exec n R (tl sch) (k w1) else None
          | None => None
          end
      | Call a w k =>
          match exec n unit sch (invoke a w) with
          | Some (Ok _, w1, sch1) => exec n R sch1 (k w1)
          | Some (Exn e, w1, sch1) => Some (Exn e, w1, sch1)
          | None => None
          end
      end
  end.
Arguments exec {T} n {R} sch x.

(** [safe I J Q x]: a proof outline for the outcome tree [x].  A callback
    action [a] is only invoked in a state [w] with [I a w], and it returns
    in a state [w'] with [J a w w']; every outcome satisfies [Q].  At a
    blocking point the other threads may have run. *)
Inductive safe {T R} (I : action T → world T → Prop)
    (J : action T → world T → world T → Prop)
    (Q : result R → world T → Prop) : res T R → Prop :=
| safe_done r w :
    Q (Ok r) w → safe I J Q (Done r w)
| safe_throw e w :
    Q (Exn e) w → safe I J Q (Throw e w)
| safe_wait c w k :
    (∀ w', env_star w w' → ready c w' → safe I J Q (k w')) →
    safe I J Q (Wait c w k)
| safe_call a w k :
    I a w → (∀ w', J a w w' → safe I J Q (k w')) → (∀ e w', Q (Exn e) w') →
    safe I J Q (Call a w k).

(** The specification [I], [J] of the callback actions is met by what
    invoking them does. *)
Definition callback_specs {T} (I : action T → world T → Prop)
    (J : action T → world T → world T → Prop) : Prop :=
  ∀ a w, I a w → safe I J (λ o w', ∀ r, o = Ok r → J a w w') (invoke a w).

(** The three classes define [stop] with the same text; this is that
    text for the jthread member at address [jt]. *)
Definition stop_text {T} (jt : nat) (block : bool) : M T unit :=
  (tok <- gets (get_stop_token jt) ;;
   if stop_possible tok then
     (src <- gets (get_stop_source jt) ;;
      request_stop src ;;;
      if block then jthread_join jt else ret tt)
   else ret tt)%prog.

(** The text of the destructors of ex5 and ex7: the body, then the
    destructor of the member [mThread]. *)
Definition dtor_text {T} (jt : nat) : M T unit :=
  (stop_text jt false ;;;
   jthread_dtor jt)%prog.

(** A [SimpleWorkerThrad] of ex5, constructed in the empty process and
    started once: the state [start] leaves. *)
Definition ex5_worker : Ex5.SimpleWorkerThrad :=
  {| Ex5.mInterruptable := true; Ex5.mThread := 0 |}.

Definition ex5_started : world unit :=
  World [ss_fresh] 0 [JThread (Some 0) (Some 0)]
        [Thread (B5_interruptable 0 None) (Some 0) true] [] [] [].

(** A [BoolWorkerThread] of ex6, constructed in the empty process and
    started once. *)
Definition ex6_worker : Ex6.WorkerThread bool :=
  {| Ex6.mThread := 0; Ex6.mData := 0; Ex6.mCv := 0;
     Ex6.taskComplete := Ex6.BoolWorkerThread_taskComplete |}.

Definition ex6_started : world bool :=
  World [ss_fresh] 0 [JThread (Some 0) (Some 0)]
        [Thread (B6_worker 0 0 Ex6.BoolWorkerThread_taskComplete None) (Some 0) true]
        [false] [] [].

(** A [WorkerThread] of ex7 that may finish early, constructed in the
    empty process and started once. *)
Definition ex7_worker : Ex7.WorkerThread :=
  {| Ex7.mFinishEarly := true; Ex7.mThread := 0 |}.

Definition ex7_started : world unit :=
  World [ss_fresh] 0 [JThread (Some 0) (Some 0)]
        [Thread (B7_worker true) (Some 0) true] [] [] [].

(** A worker object before it is started. *)
Definition ex_unstarted : world unit :=
  World [] 0 [default_jthread] [] [] [] [].

(** A [BoolWorkerThread] before it is started. *)
Definition ex_unstarted_bool : world bool :=
  World [] 0 [default_jthread] [] [false] [] [].

(** [ex5_started] and [ex7_started] after [stop()]. *)
Definition ex5_stopping : world unit :=
  World [StopState true []] 0 [JThread (Some 0) (Some 0)]
        [Thread (B5_interruptable 0 None) (Some 0) true] [] [] [].

Definition ex7_stopping : world unit :=
  World [StopState true []] 0 [JThread (Some 0) (Some 0)]
        [Thread (B7_worker true) (Some 0) true] [] [] [].

(** [ex6_started] after [stop()]. *)
Definition ex6_stopping : world bool :=
  World [StopState true []] 0 [JThread (Some 0) (Some 0)]
        [Thread (B6_worker 0 0 Ex6.BoolWorkerThread_taskComplete None) (Some 0) true]
        [false] [] [].

(** The scenario of one draining worker: it is constructed and started,
    the items 5, 4, 3, 2, 1 are pushed, and [stop()] is called at once. *)
Definition ex7_drainer : Ex7.WorkerThread :=
  {| Ex7.mFinishEarly := false; Ex7.mThread := 0 |}.

Definition ex7_scenario : M unit unit :=
  (this <- Ex7.WorkerThread_ctor false ;;
   Ex7.start this ;;;
   for_each [5; 4; 3; 2; 1]%Z Ex7.push ;;;
   Ex7.stop this false)%prog.

Definition ex7_scenario_state : world unit :=
  World [StopState true []] 0 [JThread (Some 0) (Some 0)]
        [Thread (B7_worker false) (Some 0) true] [] [5; 4; 3; 2; 1]%Z
        [EPush 5; ENotifyOne; EPush 4; ENotifyOne; EPush 3; ENotifyOne;
         EPush 2; ENotifyOne; EPush 1; ENotifyOne].

(** The same queue with a started worker that may finish early and no
    stop requested yet. *)
Definition ex7_early_state : world unit :=
  World [StopState false []] 0 [JThread (Some 0) (Some 0)]
        [Thread (B7_worker true) (Some 0) true] [] [5; 4; 3; 2; 1]%Z
        [EPush 5; ENotifyOne; EPush 4; ENotifyOne; EPush 3; ENotifyOne;
         EPush 2; ENotifyOne; EPush 1; ENotifyOne].

(** The calls that build [ex7_pool_state] below. *)
Definition ex7_pool_scenario : M unit unit :=
  (extraThread <- Ex7.WorkerThread_ctor false ;;
   th1 <- Ex7.WorkerThread_ctor true ;;
   Ex7.start th1 ;;;
   th2 <- Ex7.WorkerThread_ctor true ;;
   Ex7.start th2 ;;;
   Ex7.addCallback th2 (Ex7.lambda extraThread) ;;;
   for_each [3; 2; 1]%Z Ex7.push)%prog.

(** A pool of two workers with three items in the queue, as [main] builds
    it: the extra thread at address 0, the members at 1 and 2, the member
    of index 1 being the designated one. *)
Definition ex7_extra : Ex7.WorkerThread :=
  {| Ex7.mFinishEarly := false; Ex7.mThread := 0 |}.


Definition ex7_pool_state : world unit :=
  World [StopState false []; StopState false [(0, Ex7.lambda ex7_extra)]] 1
        [default_jthread; JThread (Some 0) (Some 0); JThread (Some 1) (Some 1)]
        [Thread (B7_worker true) (Some 0) true; Thread (B7_worker true) (Some 1) true]
        [] [3; 2; 1]%Z
        [EPush 3; ENotifyOne; EPush 2; ENotifyOne; EPush 1; ENotifyOne].

(** The state of ex7's pool when [main] starts to kill it.
    [pool_base]: every thread of the process runs [WorkerThread::worker];
    no worker that must drain the queue has returned while items remain;
    the items pushed so far are those taken so far followed by the queue.
    [member_ok]: a started pool member without stop callback.
    [designated_ok]: the started member whose stop state holds the one
    callback that starts the extra thread, its stop not yet requested. *)
Definition pool_base {T} (w : world T) : Prop :=
  (∀ t th, threads w !! t = Some th → ∃ fe, tbody th = B7_worker fe)
  ∧ (∀ t th, threads w !! t = Some th → tbody th = B7_worker false →
       alive th = false → taskQueue w = [])
  ∧ pushed w = dequeued w ++ taskQueue w.

Definition member_ok {T} (extraThread thread : Ex7.WorkerThread) (w : world T) : Prop :=
  Ex7.mThread thread ≠ Ex7.mThread extraThread
  ∧ ∃ s h st,
      jthreads w !! Ex7.mThread thread = Some (JThread (Some s) h)
      ∧ sstates w !! s = Some st
      ∧ callbacks st = [].

Definition designated_ok {T} (extraThread thread : Ex7.WorkerThread) (w : world T) : Prop :=
  Ex7.mThread thread ≠ Ex7.mThread extraThread
  ∧ ∃ s h id,
      jthreads w !! Ex7.mThread thread = Some (JThread (Some s) h)
      ∧ sstates w !! s = Some (StopState false [(id, Ex7.lambda extraThread)]).

Definition extra_running {T} (extraThread : Ex7.WorkerThread) (w : world T) : Prop :=
  ∃ se te al,
    jthreads w !! Ex7.mThread extraThread = Some (JThread (Some se) (Some te))
    ∧ threads w !! te = Some (Thread (B7_worker false) (Some se) al)
    ∧ ∃ st, sstates w !! se = Some st ∧ callbacks st = [].

Definition pool_ready {T} (threads : list Ex7.WorkerThread)
    (extraThread : Ex7.WorkerThread) (w : world T) : Prop :=
  Ex7.mFinishEarly extraThread = false
  ∧ pool_base w
  ∧ jthreads w !! Ex7.mThread extraThread = Some default_jthread
  ∧ ∃ before designated after,
      threads = before ++ designated :: after
      ∧ Forall (λ th, member_ok extraThread th w) before
      ∧ designated_ok extraThread designated w
      ∧ Forall (λ th, member_ok extraThread th w) after.

(** The text of the two loops of [Ex7.pool_setup]. *)
Definition pool_member_text {T} (extraThread : Ex7.WorkerThread)
    (SPECIAL_THREAD i : Z) : M T Ex7.WorkerThread :=
  (th <- Ex7.WorkerThread_ctor true ;;
   Ex7.start th ;;;
   yield ;;;
   (if Z.eqb i SPECIAL_THREAD
    then (Ex7.addCallback th (Ex7.lambda extraThread) ;;; ret tt)
    else ret tt) ;;;
   ret th)%prog.

Definition pool_push_text {T} (i : Z) : M T unit :=
  (yield ;;; Ex7.push i)%prog.

(** The member of index [j] is the one whose death starts the extra
    thread. *)
Definition special (threadCount : Z) (j : nat) : bool :=
  bool_decide (Z.of_nat j = Z.quot threadCount 2).

(** The process while [main] builds the pool, after [i] members: the
    extra thread's object at address 0, not started; member [j] at address
    [j + 1] with stop state [j] and thread [j]; the stop states without
    request, with the callback exactly where [has_cb] says. *)
Definition pool_built {T} (has_cb : nat → bool) (i : nat) (w : world T) : Prop :=
  length (jthreads w) = S i
  ∧ length (sstates w) = i
  ∧ length (threads w) = i
  ∧ jthreads w !! 0 = Some default_jthread
  ∧ (∀ j, j < i → jthreads w !! S j = Some (JThread (Some j) (Some j)))
  ∧ (∀ j, j < i →
       ∃ cbs, sstates w !! j = Some (StopState false cbs)
              ∧ if has_cb j then ∃ id, cbs = [(id, Ex7.lambda ex7_extra)]
                else cbs = [])
  ∧ (∀ t th, threads w !! t = Some th → tbody th = B7_worker true)
  ∧ pushed w = dequeued w ++ taskQueue w.

(** While the pool is being killed, with [rest] still to be stopped: the
    extra thread is not started and the designated member is in [rest], or
    the extra thread runs. *)
Definition pool_killing {T} (extraThread : Ex7.WorkerThread)
    (rest : list Ex7.WorkerThread) (w : world T) : Prop :=
  pool_base w
  ∧ ((jthreads w !! Ex7.mThread extraThread = Some default_jthread
      ∧ ∃ before designated after,
          rest = before ++ designated :: after
          ∧ Forall (λ th, member_ok extraThread th w) before
          ∧ designated_ok extraThread designated w
          ∧ Forall (λ th, member_ok extraThread th w) after)
     ∨ (extra_running extraThread w
        ∧ Forall (λ th, member_ok extraThread th w) rest)).

(** What stopping a member without callback changes: nothing but the
    flag of stop states that hold no callback. *)
Definition flags_only {T} (w w' : world T) : Prop :=
  jthreads w' = jthreads w
  ∧ threads w' = threads w
  ∧ taskQueue w' = taskQueue w
  ∧ trace w' = trace w
  ∧ (∀ s st, sstates w !! s = Some st →
       ∃ st', sstates w' !! s = Some st'
              ∧ (st' = st ∨ (callbacks st = [] ∧ callbacks st' = []))).

(** What the steps of the pool workers leave unchanged. *)
Definition same_shape {T} (w w' : world T) : Prop :=
  sstates w' = sstates w
  ∧ jthreads w' = jthreads w
  ∧ pushed w' = pushed w
  ∧ length (threads w') = length (threads w)
  ∧ (∀ t th, threads w !! t = Some th →
       ∃ al, threads w' !! t = Some (Thread (tbody th) (ttoken th) al)).

(** The invariant behind the destructor and restart properties: the
    jthread object at [k] exists, and thread [t] has returned or is still
    the thread that jthread represents. *)
Definition owned {T} (k t : nat) (w : world T) : Prop :=
  k < length (jthreads w)
  ∧ (finished t w = true ∨ jthreads w !! k ≫= handle = Some t).

(** ** Definitions for the further properties *)

(** The three classes define [join] with the same text; this is that text
    for the jthread member at address [jt]. *)
Definition join_text {T} (jt : nat) : M T unit :=
  (j <- gets (joinable jt) ;;
   if j then jthread_join jt else ret tt)%prog.

(** What a caller finds once a blocking [stop] has returned: thread [t]
    has returned, a second blocking [stop] throws (its [join()] is not
    guarded), and [stop()] and [join()] do nothing. *)
Definition joined_by {T} (stop : bool → M T unit) (join : M T unit) (t : nat)
    (o : result unit) (w : world T) : Prop :=
  o = Ok tt
  ∧ finished t w = true
  ∧ stop true w = Throw SystemError w
  ∧ stop false w = Done tt w
  ∧ join w = Done tt w.

(** An invariant of the process that nothing a callback or another thread
    does can break: the library's updates of the stop states, the record
    of a callback invocation or notification, the spawning of a thread, the
    assignment of a joinable jthread to a jthread object, and the steps of
    the threads.  [join_stable]: nor does a [join()], which leaves the
    jthread without thread. *)
Record stable {T} (Inv : world T → Prop) : Prop := Stable {
  stable_sstates : ∀ w g, Inv w → Inv (set_sstates g w);
  stable_invoke : ∀ w id, Inv w → Inv (emit (EInvoke id) w);
  stable_notify : ∀ w cv, Inv w → Inv (emit (ENotifyAll cv) w);
  stable_spawn : ∀ w th, Inv w → Inv (set_threads (λ l, l ++ [th]) w);
  stable_assign : ∀ w jt src t,
    Inv w → Inv (set_jthreads <[jt := JThread src (Some t)]> w);
  stable_env : ∀ w w', env_star w w' → Inv w → Inv w'
}.

Definition join_stable {T} (Inv : world T → Prop) : Prop :=
  ∀ w jt src, Inv w → Inv (set_jthreads <[jt := JThread src None]> w).

(** Thread [t] runs [uninterruptableWorker]: it has done [i] of its twenty
    rounds, and it has returned only if it has done them all. *)
Definition rounds_done {T} (t : nat) (w : world T) : Prop :=
  ∃ i tok al,
    threads w !! t = Some (Thread (B5_uninterruptable i) tok al)
    ∧ i ≤ 20
    ∧ (al = false → i = 20).

(** Every task pushed so far has been taken or is still in the queue, in
    the order of the pushes. *)
Definition conserved {T} (w : world T) : Prop :=
  pushed w = dequeued w ++ taskQueue w.

(** ** Exploring every interleaving of a closed program

    Boolean comparisons of process states.  They are sound (they answer
    [true] only on equal states); two workers of ex6 are never found equal,
    since their [taskComplete] cannot be compared. *)

Fixpoint list_eqb {X} (eqb : X → X → bool) (l1 l2 : list X) : bool :=
  match l1, l2 with
  | [], [] => true
  | x :: l1, y :: l2 => eqb x y && list_eqb eqb l1 l2
  | _, _ => false
  end.

Definition option_eqb {X} (eqb : X → X → bool) (a b : option X) : bool :=
  match a, b with
  | Some x, Some y => eqb x y
  | None, None => true
  | _, _ => false
  end.

Definition pair_eqb (a b : nat * nat) : bool :=
  Nat.eqb a.1 b.1 && Nat.eqb a.2 b.2.

Definition body_eqb {T} (b1 b2 : body T) : bool :=
  match b1, b2 with
  | B3_worker c1, B3_worker c2 => option_eqb (option_eqb pair_eqb) c1 c2
  | B5_interruptable j1 t1, B5_interruptable j2 t2 =>
      Nat.eqb j1 j2 && option_eqb (option_eqb Nat.eqb) t1 t2
  | B5_uninterruptable i1, B5_uninterruptable i2 => Nat.eqb i1 i2
  | B7_worker f1, B7_worker f2 => Bool.eqb f1 f2
  | _, _ => false
  end.

Definition action_eqb {T} (a1 a2 : action T) : bool :=
  match a1, a2 with
  | ASimple SLog, ASimple SLog => true
  | ASimple (SNotifyAll c1), ASimple (SNotifyAll c2) => Nat.eqb c1 c2
  | AStart j1 b1, AStart j2 b2 => Nat.eqb j1 j2 && body_eqb b1 b2
  | _, _ => false
  end.

Definition stop_state_eqb {T} (s1 s2 : stop_state (action T)) : bool :=
  Bool.eqb (requested s1) (requested s2)
  && list_eqb (λ c1 c2, Nat.eqb c1.1 c2.1 && action_eqb c1.2 c2.2)
       (callbacks s1) (callbacks s2).

Definition jthread_eqb (j1 j2 : jthread) : bool :=
  option_eqb Nat.eqb (ssource j1) (ssource j2)
  && option_eqb Nat.eqb (handle j1) (handle j2).

Definition thread_eqb {T} (t1 t2 : thread T) : bool :=
  body_eqb (tbody t1) (tbody t2)
  && option_eqb Nat.eqb (ttoken t1) (ttoken t2)
  && Bool.eqb (alive t1) (alive t2).

Definition event_eqb (e1 e2 : event) : bool :=
  match e1, e2 with
  | EInvoke i1, EInvoke i2 => Nat.eqb i1 i2
  | ENotifyAll c1, ENotifyAll c2 => Nat.eqb c1 c2
  | ENotifyOne, ENotifyOne => true
  | EPush v1, EPush v2 => Z.eqb v1 v2
  | EPop t1 v1, EPop t2 v2 => Nat.eqb t1 t2 && Z.eqb v1 v2
  | _, _ => false
  end.

Definition world_eqb {T} (T_eqb : T → T → bool) (w1 w2 : world T) : bool :=
  list_eqb stop_state_eqb (sstates w1) (sstates w2)
  && Nat.eqb (next_cb w1) (next_cb w2)
  && list_eqb jthread_eqb (jthreads w1) (jthreads w2)
  && list_eqb thread_eqb (threads w1) (threads w2)
  && list_eqb T_eqb (cells w1) (cells w2)
  && list_eqb Z.eqb (taskQueue w1) (taskQueue w2)
  && list_eqb event_eqb (trace w1) (trace w2).

(** The states one step of some thread away. *)
Definition successors {T} (w : world T) : list (world T) :=
  omap (λ t, thread_step t w) (seq 0 (length (threads w))).

Definition mem {T} (T_eqb : T → T → bool) (w : world T) (ws : list (world T)) : bool :=
  existsb (world_eqb T_eqb w) ws.

(** [closure n seen frontier]: [seen] extended with the states the
    threads can reach from [frontier]; [n] bounds the number of states
    expanded. *)
Fixpoint closure {T} (T_eqb : T → T → bool) (n : nat)
    (seen frontier : list (world T)) : option (list (world T)) :=
  match n with
  | 0 => None
  | S n =>
      match frontier with
      | [] => Some seen
      | w :: frontier =>
          let new := fold_left (λ acc w', if mem T_eqb w' (seen ++ acc) then acc
                                          else acc ++ [w'])
                       (successors w) [] in
          closure T_eqb n (seen ++ new) (frontier ++ new)
      end
  end.

(** [ws] holds every state the threads can reach from its states. *)
Definition closed_b {T} (T_eqb : T → T → bool) (ws : list (world T)) : bool :=
  forallb (λ w, forallb (λ w', mem T_eqb w' ws) (successors w)) ws.

(** The states the threads can reach from [w], checked to be closed. *)
Definition reach {T} (T_eqb : T → T → bool) (n : nat) (w : world T)
    : option (list (world T)) :=
  match closure T_eqb n [w] [w] with
  | Some ws => if mem T_eqb w ws && closed_b T_eqb ws then Some ws else None
  | None => None
  end.

Fixpoint collect {X Y} (f : X → option (list Y)) (l : list X) : option (list Y) :=
  match l with
  | [] => Some []
  | x :: l =>
      match f x, collect f l with
      | Some a, Some b => Some (a ++ b)
      | _, _ => None
      end
  end.

(** [explore m n x]: every way the code [x] can end, under every
    interleaving with the other threads; [None] when the bounds [m] (on
    the states of a closure) or [n] (on the depth) are too small. *)
Fixpoint explore {T} (T_eqb : T → T → bool) (m n : nat) (R : Type) (x : res T R)
    : option (list (result R * world T)) :=
  match n with
  | 0 => None
  | S n =>
      match x with
      | Done r w => Some [(Ok r, w)]
      | Throw e w => Some [(Exn e, w)]
      | Wait c w k =>
          match reach T_eqb m w with
          | Some ws =>
              collect (λ w1, if ready_b c w1 then explore T_eqb m n R (k w1)
                             else Some []) ws
          | None => None
          end
      | Call a w k =>
          match explore T_eqb m n unit (invoke a w) with
          | Some outs =>
              collect (λ ow, match ow.1 with
                             | Ok _ => explore T_eqb m n R (k ow.2)
                             | Exn e => Some [(Exn e, ow.2)]
                             end) outs
          | None => None
          end
      end
  end.
Arguments explore {T} T_eqb m n {R} x.

(** Every way [x] can end satisfies the test [P]. *)
Definition check {T R} (T_eqb : T → T → bool) (m n : nat) (x : res T R)
    (P : result R → world T → bool) : bool :=
  match explore T_eqb m n x with
  | Some outs => forallb (λ ow, P ow.1 ow.2) outs
  | None => false
  end.

Definition unit_eqb (a b : unit) : bool := true.

(** The one state in which [main] of ex5 leaves the process: the three
    workers have returned and were joined, the uninterruptable one after
    its twenty rounds, and the one callback was invoked. *)
Definition ex5_main_final : world unit :=
  World [StopState true []; StopState true []; StopState true []] 1
        [JThread (Some 0) None; JThread (Some 1) None; JThread (Some 2) None]
        [Thread (B5_uninterruptable 20) (Some 0) false;
         Thread (B5_interruptable 1 (Some (Some 1))) (Some 1) false;
         Thread (B5_interruptable 2 (Some (Some 2))) (Some 2) false]
        [] [] [EInvoke 0].

(** The test of a final state of [main] of ex3. *)
Definition ex3_main_test (o : result unit) (w : world unit) : bool :=
  match o with
  | Ok _ =>
      Nat.eqb (length (threads w)) 2
      && forallb (λ th, negb (alive th)) (threads w)
      && forallb (λ st, requested st
                        && match callbacks st with [] => true | _ => false end)
           (sstates w)
      && Nat.eqb (next_cb w) 3
      && Nat.leb (invocations 0 w) 1
      && Nat.eqb (invocations 1 w) 1
      && Nat.eqb (invocations 2 w) 1
      && Nat.eqb (length (trace w)) (invocations 0 w + 2)
  | Exn _ => false
  end.

(** Every thread that has not returned is represented by a jthread
    object. *)
Definition covered {T} (w : world T) : Prop :=
  ∀ t th, threads w !! t = Some th → alive th = true →
    ∃ k, jthreads w !! k ≫= handle = Some t.

(** No stop callback is registered. *)
Definition no_callbacks {T} (w : world T) : Prop :=
  ∀ s st, sstates w !! s = Some st → callbacks st = [].

(** The pool of [n] members while [main] of ex7 kills it, with [rest]
    still to be stopped: beside [pool_killing], every thread that runs is
    represented by a jthread, the only callbacks still registered are on
    members still to be stopped, and the extra thread is the only thread
    beside the [n] members. *)
Definition kill_inv {T} (extraThread : Ex7.WorkerThread)
    (rest : list Ex7.WorkerThread) (n : nat) (w : world T) : Prop :=
  pool_killing extraThread rest w
  ∧ covered w
  ∧ (∀ s st, sstates w !! s = Some st → callbacks st ≠ [] →
       ∃ d h, d ∈ rest ∧ jthreads w !! Ex7.mThread d = Some (JThread (Some s) h))
  ∧ length (jthreads w) = S n
  ∧ length (threads w)
    = match jthreads w !! Ex7.mThread extraThread ≫= ssource with
      | None => n
      | Some _ => S n
      end.

(** The pool once the shutdown has returned: the queue is empty, no
    callback is registered, the [n] members and the extra thread are the
    threads of the process. *)
Definition settled {T} (n : nat) (w : world T) : Prop :=
  pool_base w
  ∧ no_callbacks w
  ∧ covered w
  ∧ taskQueue w = []
  ∧ length (jthreads w) = S n
  ∧ length (threads w) = S n.

(** The members [main] of ex7 creates, in order. *)
Definition pool_of (n : nat) : list Ex7.WorkerThread :=
  (λ j, {| Ex7.mFinishEarly := true; Ex7.mThread := S j |}) <$> seq 0 n.

(** [sure J Q x]: a proof outline as [safe], for callbacks that do not
    throw: a callback invoked in a state [w] returns, in a state [w'] with
    [J w w']. *)
Inductive sure {T R} (J : world T → world T → Prop)
    (Q : result R → world T → Prop) : res T R → Prop :=
| sure_done r w :
    Q (Ok r) w → sure J Q (Done r w)
| sure_throw e w :
    Q (Exn e) w → sure J Q (Throw e w)
| sure_wait c w k :
    (∀ w', env_star w w' → ready c w' → sure J Q (k w')) →
    sure J Q (Wait c w k)
| sure_call a w k :
    (∀ w', J w w' → sure J Q (k w')) →
    sure J Q (Call a w k).

Definition callbacks_return {T} (J : world T → world T → Prop) : Prop :=
  ∀ a w, sure J (λ o w', o = Ok tt ∧ J w w') (invoke a w).

(** Every jthread that was joinable still is. *)
Definition joinable_kept {T} (w w' : world T) : Prop :=
  ∀ jt, joinable jt w = true → joinable jt w' = true.

(** The code [x] cannot end by throwing. *)
Definition returns {T R} (x : res T R) : Prop :=
  wp x (λ o _, ∃ r, o = Ok r).

(** [can x Q]: there is a schedule of the other threads under which the
    code [x] returns, in a state and with a result that satisfy [Q]. *)
Definition can {T R} (x : res T R) (Q : R → world T → Prop) : Prop :=
  ∃ r w', runs x (Ok r) w' ∧ Q r w'.

(** Every thread of the process is a pool worker of ex7, and a joinable
    jthread represents a thread that waits on the jthread's own stop
    state. *)
Definition linked {T} (w : world T) : Prop :=
  (∀ jt src t, jthreads w !! jt = Some (JThread src (Some t)) →
     ∃ s fe al, src = Some s ∧ s < length (sstates w)
                ∧ threads w !! t = Some (Thread (B7_worker fe) (Some s) al))
  ∧ (∀ t th, threads w !! t = Some th → ∃ fe, tbody th = B7_worker fe).

(** * Interleavings on one stop state *)

Section StopStateTheory.
Context {A : Type}.
Implicit Types (x : sys A) (c : call A) (cs : list (call A)) (s : stop_state A).

Lemma count_app {X} (p : X → bool) (l1 l2 : list X) :
  count p (l1 ++ l2) = count p l1 + count p l2.
Proof. induction l1 as [|y l1 IH]; simpl; [done|]. rewrite IH. lia. Qed.

Lemma count_zero_not_In {X} (p : X → bool) (l : list X) y :
  count p l = 0 → p y = true → ¬ In y l.
Proof.
  induction l as [|z l IH]; simpl; [tauto|].
  intros Hc Hp [->|Hin].
  - rewrite Hp in Hc. lia.
  - apply IH; [|done|done]. destruct (p z); lia.
Qed.

Lemma sys_run_app cs1 cs2 x :
  sys_run (cs1 ++ cs2) x = sys_run cs2 (sys_run cs1 x).
Proof. apply fold_left_app. Qed.

Lemma sys_run_cons c cs x : sys_run (c :: cs) x = sys_run cs (sys_step c x).
Proof. done. Qed.

Lemma sys_run_snoc c cs x : sys_run (cs ++ [c]) x = sys_step c (sys_run cs x).
Proof. by rewrite sys_run_app. Qed.


Lemma sys_inv_init : sys_inv (@sys_init A).
Proof.
  split; simpl; try done; try lia.
  - intros i a Hin. by apply elem_of_nil in Hin.
  - constructor.
Qed.

Lemma is_invoked_same (i : nat) (a : A) : is_invoked i (OInvoked i a) = true.
Proof. simpl. apply Nat.eqb_refl. Qed.

Lemma is_invoked_other (i j : nat) (a : A) :
  i ≠ j → is_invoked i (OInvoked j a) = false.
Proof. simpl. intros. by apply Nat.eqb_neq. Qed.

Lemma elem_of_fst_callbacks (l : list (nat * A)) i :
  i ∈ l.*1 → ∃ a, (i, a) ∈ l.
Proof.
  intros ([j a] & -> & Hin)%list_elem_of_fmap. by exists a.
Qed.

Lemma sys_inv_step c x : sys_inv x → sys_inv (sys_step c x).
Proof.
  intros [Hwon Hdr Hret Hids Hfresh Honce Hquiet Hnd Hempty Hkept].
  destruct x as [[rq cbs] dr n h]; simpl in *.
  destruct c as [| |a|id|]; simpl.
  - (* request_stop *)
    unfold ss_try_request; simpl. destruct rq; simpl in *.
    + split; simpl.
      * rewrite count_app; simpl. lia.
      * done.
      * rewrite count_app; simpl. lia.
      * intros i a Hin. destruct (Hids i a Hin).
        rewrite count_app; simpl. lia.
      * intros i Hi. rewrite count_app; simpl. rewrite (Hfresh i Hi). lia.
      * intros i. rewrite count_app; simpl. specialize (Honce i). lia.
      * done.
      * done.
      * done.
      * intros i Hi. rewrite count_app; simpl.
        destruct (Hkept i Hi) as [?|[?|?]]; [left; lia| |by auto].
        right; left. apply in_or_app. by left.
    + split; simpl.
      * rewrite count_app; simpl. lia.
      * done.
      * rewrite count_app; simpl. lia.
      * intros i a Hin. destruct (Hids i a Hin).
        rewrite count_app; simpl. lia.
      * intros i Hi. rewrite count_app; simpl. rewrite (Hfresh i Hi). lia.
      * intros i. rewrite count_app; simpl. specialize (Honce i). lia.
      * done.
      * done.
      * done.
      * intros i Hi. rewrite count_app; simpl.
        destruct (Hkept i Hi) as [?|[?|?]]; [left; lia| |by auto].
        right; left. apply in_or_app. by left.
  - (* the winner invokes the next callback, or returns *)
    destruct dr; simpl in *.
    2:{ by split. }
    specialize (Hdr eq_refl). subst rq. simpl in *.
    unfold ss_take; simpl. destruct cbs as [|[j b] cbs]; simpl.
    + split; simpl.
      * rewrite count_app; simpl. lia.
      * done.
      * rewrite count_app; simpl. lia.
      * intros i a Hin. by apply elem_of_nil in Hin.
      * intros i Hi. rewrite count_app; simpl. rewrite (Hfresh i Hi). lia.
      * intros i. rewrite count_app; simpl. specialize (Honce i). lia.
      * done.
      * constructor.
      * done.
      * intros i Hi. rewrite count_app; simpl.
        destruct (Hkept i Hi) as [?|[?|?]]; [left; lia| |by auto].
        right; left. apply in_or_app. by left.
    + simpl in Hnd. apply NoDup_cons in Hnd as [Hj Hnd].
      destruct (Hids j b) as [Hjn Hj0]; [by left|].
      split; simpl.
      * rewrite count_app; simpl. lia.
      * done.
      * rewrite count_app; simpl. lia.
      * intros i a Hin.
        destruct (Hids i a) as [Hin' Hi0]; [by right|].
        split; [done|]. rewrite count_app; simpl.
        rewrite Hi0. destruct (Nat.eqb_spec j i) as [->|]; [|lia].
        exfalso. apply Hj. apply list_elem_of_fmap. by exists (i, a).
      * intros i Hi. rewrite count_app; simpl. rewrite (Hfresh i Hi).
        destruct (Nat.eqb_spec j i); [lia|done].
      * intros i. rewrite count_app; simpl.
        destruct (Nat.eqb_spec j i) as [->|]; [lia|].
        specialize (Honce i). lia.
      * done.
      * done.
      * done.
      * intros i Hi. rewrite count_app; simpl.
        destruct (Nat.eqb_spec j i) as [->|Hne]; [left; lia|].
        destruct (Hkept i Hi) as [?|[?|Hin]]; [left; lia| |].
        -- right; left. apply in_or_app. by left.
        -- right; right. apply elem_of_cons in Hin as [->|]; [done|done].
  - (* a stop_callback is constructed *)
    unfold ss_register; simpl. destruct rq; simpl in *.
    + split; simpl.
      * rewrite count_app; simpl. lia.
      * done.
      * rewrite count_app; simpl. lia.
      * intros i b Hin. destruct (Hids i b Hin) as [Hi Hi0].
        split; [lia|]. rewrite count_app; simpl. rewrite Hi0.
        destruct (Nat.eqb_spec n i); lia.
      * intros i Hi. rewrite count_app; simpl. rewrite Hfresh by lia.
        destruct (Nat.eqb_spec n i); lia.
      * intros i. rewrite count_app; simpl.
        destruct (Nat.eqb_spec n i) as [->|].
        -- rewrite Hfresh by lia. lia.
        -- specialize (Honce i). lia.
      * done.
      * done.
      * done.
      * intros i Hi. rewrite count_app; simpl.
        destruct (Nat.eqb_spec n i) as [->|Hne].
        -- left. rewrite Hfresh by lia. lia.
        -- destruct (Hkept i) as [?|[?|?]]; [lia|left; lia| |by auto].
           right; left. apply in_or_app. by left.
    + split; simpl.
      * rewrite count_app; simpl. lia.
      * done.
      * rewrite count_app; simpl. lia.
      * intros i b [[= -> ->]|Hin]%elem_of_cons.
        -- split; [lia|]. rewrite count_app; simpl. rewrite Hfresh by lia. lia.
        -- destruct (Hids i b Hin). split; [lia|].
           rewrite count_app; simpl. lia.
      * intros i Hi. rewrite count_app; simpl. rewrite Hfresh by lia. lia.
      * intros i. rewrite count_app; simpl. specialize (Honce i). lia.
      * intros _ i. rewrite count_app; simpl. rewrite Hquiet by done. lia.
      * apply NoDup_cons. split; [|done].
        intros [b Hin]%elem_of_fst_callbacks. destruct (Hids n b Hin). lia.
      * done.
      * intros i Hi. destruct (decide (i = n)) as [->|Hne].
        -- right; right. by left.
        -- rewrite count_app; simpl.
           destruct (Hkept i) as [?|[?|?]]; [lia|left; lia| |].
           ++ right; left. apply in_or_app. by left.
           ++ right; right. by right.
  - (* a stop_callback is destroyed *)
    split; simpl.
    + rewrite count_app; simpl. lia.
    + done.
    + rewrite count_app; simpl. lia.
    + intros i a [_ Hin]%list_elem_of_filter. destruct (Hids i a Hin).
      rewrite count_app; simpl. lia.
    + intros i Hi. rewrite count_app; simpl. rewrite Hfresh by lia. lia.
    + intros i. rewrite count_app; simpl. specialize (Honce i). lia.
    + intros Hrq i. rewrite count_app; simpl. rewrite Hquiet by done. lia.
    + eapply sublist_NoDup; [exact Hnd|].
      apply fmap_sublist, sublist_filter.
    + intros Hr Hd. by rewrite Hempty.
    + intros i Hi. rewrite count_app; simpl.
      destruct (decide (i = id)) as [->|Hne].
      * right; left. apply in_or_app. right. by left.
      * destruct (Hkept i Hi) as [?|[?|Hin]]; [left; lia| |].
        -- right; left. apply in_or_app. by left.
        -- right; right.
           apply elem_of_fst_callbacks in Hin as [a Hin].
           apply list_elem_of_fmap. exists (i, a). split; [done|].
           apply list_elem_of_filter. by split.
  - (* stop_requested() *)
    split; simpl.
    + rewrite count_app; simpl. lia.
    + done.
    + rewrite count_app; simpl. lia.
    + intros i a Hin. destruct (Hids i a Hin).
      rewrite count_app; simpl. lia.
    + intros i Hi. rewrite count_app; simpl. rewrite Hfresh by lia. lia.
    + intros i. rewrite count_app; simpl. specialize (Honce i). lia.
    + intros Hrq i. rewrite count_app; simpl. rewrite Hquiet by done. lia.
    + done.
    + done.
    + intros i Hi. rewrite count_app; simpl.
      destruct (Hkept i Hi) as [?|[?|?]]; [left; lia| |by auto].
      right; left. apply in_or_app. by left.
Qed.

Lemma sys_inv_run cs x : sys_inv x → sys_inv (sys_run cs x).
Proof.
  revert x. induction cs as [|c cs IH]; intros x Hx; [done|].
  rewrite sys_run_cons. by apply IH, sys_inv_step.
Qed.

Lemma sys_inv_reachable cs : sys_inv (sys_run cs (@sys_init A)).
Proof. apply sys_inv_run, sys_inv_init. Qed.

Lemma requested_step c x :
  requested (state (sys_step c x)) = requested (state x) || is_request c.
Proof.
  destruct x as [[rq cbs] dr n h], c; simpl;
    unfold ss_try_request, ss_take, ss_register; simpl;
    try (by destruct rq); try (by rewrite orb_false_r).
  - destruct dr; simpl; [|by rewrite orb_false_r].
    destruct cbs as [|[??] ?]; simpl; by rewrite orb_false_r.
Qed.

Lemma requested_run cs x :
  requested (state (sys_run cs x)) = requested (state x) || existsb is_request cs.
Proof.
  revert x. induction cs as [|c cs IH]; intros x.
  - simpl. by rewrite orb_false_r.
  - rewrite sys_run_cons, IH, requested_step. simpl. by rewrite orb_assoc.
Qed.

Lemma answers_step c x :
  count is_won (history (sys_step c x)) + count is_lost (history (sys_step c x))
  = count is_won (history x) + count is_lost (history x)
    + (if is_request c then 1 else 0).
Proof.
  destruct x as [[rq cbs] dr n h], c; simpl;
    unfold ss_try_request, ss_take, ss_register; simpl.
  - destruct rq; simpl; rewrite !count_app; simpl; lia.
  - destruct dr; simpl; [|lia].
    destruct cbs as [|[??] ?]; simpl; rewrite !count_app; simpl; lia.
  - destruct rq; simpl; rewrite !count_app; simpl; lia.
  - rewrite !count_app; simpl; lia.
  - rewrite !count_app; simpl; lia.
Qed.

Lemma answers_run cs x :
  count is_won (history (sys_run cs x)) + count is_lost (history (sys_run cs x))
  = count is_won (history x) + count is_lost (history x) + count is_request cs.
Proof.
  revert x. induction cs as [|c cs IH]; intros x; [simpl; lia|].
  rewrite sys_run_cons, IH, answers_step. simpl. lia.
Qed.

(** On one stop source, whatever the schedule of the calls made by any
    number of threads: exactly one request_stop() performs the transition
    when there is any, and every other one returns false; a poll scheduled
    after a request answers true; no callback is invoked twice; and once
    the winning call has returned, every callback ever registered has been
    invoked exactly once unless it was destroyed. *)
Lemma single_winner (cs : list (call A)) :
  let x := sys_run cs sys_init in
  count is_won (history x) = (if existsb is_request cs then 1 else 0)
  ∧ count is_won (history x) + count is_lost (history x) = count is_request cs
  ∧ count is_returned (history x) ≤ count is_won (history x)
  ∧ requested (state x) = existsb is_request cs
  ∧ history (sys_step CPoll x) = history x ++ [OPolled (existsb is_request cs)]
  ∧ (∀ i, count (is_invoked i) (history x) ≤ 1)
  ∧ (count is_returned (history x) = 1 →
     ∀ i, i < next_id x →
       count (is_invoked i) (history x) = 1 ∨ In (ODestroyed i) (history x)).
Proof.
  intros x.
  pose proof (sys_inv_reachable cs) as Hinv. fold x in Hinv.
  pose proof (requested_run cs (@sys_init A)) as Hrq. fold x in Hrq.
  simpl in Hrq.
  destruct Hinv as [Hwon Hdr Hret Hids Hfresh Honce Hquiet Hnd Hempty Hkept].
  repeat split.
  - by rewrite Hwon, Hrq.
  - unfold x. rewrite answers_run. simpl. lia.
  - rewrite Hwon, Hret. destruct (requested (state x)), (draining x); simpl; lia.
  - done.
  - simpl. by rewrite Hrq.
  - done.
  - intros Hr i Hi. rewrite Hret in Hr.
    destruct (requested (state x)) eqn:E1; [|done].
    destruct (draining x) eqn:E2; [done|].
    specialize (Hempty eq_refl eq_refl).
    destruct (Hkept i Hi) as [?|[?|Hin]]; [by left|by right|].
    rewrite Hempty in Hin. by apply elem_of_nil in Hin.
Qed.

(** A callback that has left the registry is never invoked afterwards. *)
Lemma gone_step (id : nat) c x :
  sys_inv x → id < next_id x → id ∉ (callbacks (state x)).*1 →
  id < next_id (sys_step c x)
  ∧ (id ∉ (callbacks (state (sys_step c x))).*1)
  ∧ count (is_invoked id) (history (sys_step c x))
    = count (is_invoked id) (history x).
Proof.
  intros Hinv Hid Hout.
  destruct x as [[rq cbs] dr n h]; simpl in *.
  destruct c as [| |a|id'|]; simpl;
    unfold ss_try_request, ss_take, ss_register; simpl.
  - destruct rq; simpl; rewrite count_app; simpl; repeat split; try done; lia.
  - destruct dr; simpl; [|done].
    destruct cbs as [|[j b] cbs]; simpl in *.
    + rewrite count_app; simpl; repeat split; try done; lia.
    + apply not_elem_of_cons in Hout as [Hne Hout].
      rewrite count_app; simpl.
      destruct (Nat.eqb_spec j id); [congruence|].
      repeat split; try done; lia.
  - destruct rq; simpl; rewrite count_app; simpl.
    + destruct (Nat.eqb_spec n id); [lia|]. repeat split; try done; lia.
    + repeat split; try lia.
      apply not_elem_of_cons. split; [lia|done].
  - rewrite count_app; simpl. repeat split; try done; try lia.
    intros Hin. apply Hout.
    apply list_elem_of_fmap in Hin as ([i a] & -> & [_ Hin]%list_elem_of_filter).
    apply list_elem_of_fmap. by exists (i, a).
  - rewrite count_app; simpl; repeat split; try done; lia.
Qed.

Lemma gone_run (id : nat) cs x :
  sys_inv x → id < next_id x → id ∉ (callbacks (state x)).*1 →
  count (is_invoked id) (history (sys_run cs x))
  = count (is_invoked id) (history x).
Proof.
  revert x. induction cs as [|c cs IH]; intros x Hinv Hid Hout; [done|].
  rewrite sys_run_cons.
  destruct (gone_step id c x Hinv Hid Hout) as (H1 & H2 & H3).
  rewrite IH; [done|by apply sys_inv_step|done|done].
Qed.

Lemma destroy_gone (id : nat) x :
  id ∉ (callbacks (state (sys_step (CDestroy id) x))).*1.
Proof.
  simpl. intros Hin.
  apply list_elem_of_fmap in Hin as ([i a] & -> & [Hne _]%list_elem_of_filter).
  by apply Hne.
Qed.

(** Once the handle of a callback is destroyed its action is never invoked
    again, whatever is scheduled afterwards; destroyed before any stop was
    requested, it never runs at all; and under every schedule, also when
    the destruction races with request_stop(), the action runs at most
    once. *)
Lemma destroyed_never_runs (cs cs' : list (call A)) (id : nat) :
  let x := sys_run cs sys_init in
  let y := sys_run cs' (sys_step (CDestroy id) x) in
  id < next_id x →
  count (is_invoked id) (history y) = count (is_invoked id) (history x)
  ∧ (requested (state x) = false → count (is_invoked id) (history y) = 0)
  ∧ count (is_invoked id) (history y) ≤ 1.
Proof.
  intros x y Hid.
  pose proof (sys_inv_reachable cs) as Hinv. fold x in Hinv.
  assert (Heq : count (is_invoked id) (history y)
                = count (is_invoked id) (history x)).
  { unfold y. rewrite gone_run.
    - simpl. rewrite count_app. simpl. lia.
    - by apply sys_inv_step.
    - done.
    - apply destroy_gone. }
  repeat split.
  - done.
  - intros Hrq. rewrite Heq. by apply (inv_quiet x Hinv).
  - rewrite Heq. apply (inv_once x Hinv).
Qed.

Lemma count_pos_split {X} (p : X → bool) (l : list X) :
  0 < count p l → ∃ l1 y l2, l = l1 ++ y :: l2 ∧ p y = true.
Proof.
  induction l as [|z l IH]; simpl; [lia|].
  destruct (p z) eqn:E.
  - intros _. by exists [], z, l.
  - intros Hc. destruct IH as (l1 & y & l2 & -> & Hy); [lia|].
    by exists (z :: l1), y, l2.
Qed.

Lemma history_step c x : ∃ evs, history (sys_step c x) = history x ++ evs.
Proof.
  destruct x as [[rq cbs] dr n h], c; simpl;
    unfold ss_try_request, ss_take, ss_register; simpl.
  - destruct rq; simpl; eauto.
  - destruct dr; simpl; [|exists []; by rewrite app_nil_r].
    destruct cbs as [|[??] ?]; simpl; eauto.
  - destruct rq; simpl; eauto.
  - eauto.
  - eauto.
Qed.


Lemma phase_step (id : nat) (a : A) c x :
  sys_inv x → c ≠ CDestroy id →
  (id, a) ∈ callbacks (state x) ∨ invoked_inside id a x →
  (id, a) ∈ callbacks (state (sys_step c x)) ∨ invoked_inside id a (sys_step c x).
Proof.
  intros Hinv Hc [Hin|(h1 & h2 & h3 & Hh & Hr)].
  2:{ right. destruct (history_step c x) as [evs Hevs].
      exists h1, h2, (h3 ++ evs). split; [|done].
      rewrite Hevs, Hh. by repeat (rewrite <-app_assoc; simpl). }
  destruct x as [[rq cbs] dr n h]; simpl in *.
  destruct c as [| |b|id'|]; simpl;
    unfold ss_try_request, ss_take, ss_register; simpl.
  - destruct rq; simpl; by left.
  - destruct dr eqn:Edr; simpl; [|by left].
    destruct cbs as [|[j b] cbs]; simpl; [by left|].
    apply elem_of_cons in Hin as [[= <- <-]|Hin]; [|by left].
    right.
    pose proof (inv_drain _ Hinv eq_refl) as Hrq. simpl in Hrq. subst rq.
    pose proof (inv_won _ Hinv) as Hwon. simpl in Hwon.
    pose proof (inv_ret _ Hinv) as Hret. simpl in Hret.
    destruct (count_pos_split is_won h) as (h1 & o & h2 & -> & Ho); [lia|].
    destruct o; try done.
    exists h1, h2, []. split; [by repeat (rewrite <-app_assoc; simpl)|done].
  - destruct rq; simpl; left; [done|by right].
  - left. apply list_elem_of_filter. split; [|done].
    simpl. intros ->. by apply Hc.
  - by left.
Qed.

Lemma phase_run (id : nat) (a : A) cs x :
  sys_inv x → ¬ In (CDestroy id) cs →
  (id, a) ∈ callbacks (state x) ∨ invoked_inside id a x →
  (id, a) ∈ callbacks (state (sys_run cs x)) ∨ invoked_inside id a (sys_run cs x).
Proof.
  revert x. induction cs as [|c cs IH]; intros x Hinv Hcs Hp; [done|].
  rewrite sys_run_cons. apply IH.
  - by apply sys_inv_step.
  - intros ?. apply Hcs. by right.
  - apply phase_step; [done| |done]. intros ->. apply Hcs. by left.
Qed.

(** A callback registered when a stop was already requested is invoked by
    the constructor, before it returns, and never again.  Registered
    before any stop, it is stored, not invoked; as long as its handle is
    not destroyed, it is invoked inside the first successful
    request_stop(), after the flag is set and before that call returns.
    Under every schedule it runs at most once. *)
Lemma callback_invoked_once (cs cs' : list (call A)) (a : A) :
  let x := sys_run cs sys_init in
  let id := next_id x in
  let x1 := sys_step (CRegister a) x in
  let y := sys_run cs' x1 in
  (requested (state x) = true →
     history x1 = history x ++ [OInvoked id a; ORegistered id]
     ∧ count (is_invoked id) (history y) = 1)
  ∧ (requested (state x) = false →
     (id, a) ∈ callbacks (state x1)
     ∧ history x1 = history x ++ [ORegistered id]
     ∧ (¬ In (CDestroy id) cs' → count is_returned (history y) = 1 →
        ∃ h1 h2 h3 h4,
          history y = h1 ++ OWon :: h2 ++ OInvoked id a :: h3 ++ OReturnedTrue :: h4
          ∧ count (is_invoked id) (history y) = 1))
  ∧ count (is_invoked id) (history y) ≤ 1.
Proof.
  intros x id x1 y.
  pose proof (sys_inv_reachable cs) as Hinv. fold x in Hinv.
  assert (Hinv1 : sys_inv x1) by by apply sys_inv_step.
  assert (Hinvy : sys_inv y) by by apply sys_inv_run.
  split; [|split].
  - intros Hrq.
    assert (Hh : history x1 = history x ++ [OInvoked id a; ORegistered id]).
    { unfold x1. simpl. unfold ss_register. by rewrite Hrq. }
    split; [done|].
    unfold y. rewrite gone_run; [|done| |].
    + rewrite Hh, count_app. simpl. rewrite Nat.eqb_refl.
      rewrite (inv_fresh x Hinv id); [done|]. unfold id. lia.
    + unfold x1. simpl. unfold ss_register. rewrite Hrq. simpl. unfold id. lia.
    + unfold x1. simpl. unfold ss_register. rewrite Hrq. simpl.
      intros [b Hin]%elem_of_fst_callbacks.
      destruct (inv_ids x Hinv id b Hin). unfold id in *. lia.
  - intros Hrq.
    assert (Hin : (id, a) ∈ callbacks (state x1)).
    { unfold x1. simpl. unfold ss_register. rewrite Hrq. simpl. by left. }
    split; [done|]. split.
    { unfold x1. simpl. unfold ss_register. by rewrite Hrq. }
    intros Hcs Hret.
    destruct (phase_run id a cs' x1 Hinv1 Hcs (or_introl Hin))
      as [Hin'|(h1 & h2 & h3 & Hh & Hr)]; fold y in Hin' || fold y in Hh.
    + exfalso. pose proof (inv_ret y Hinvy) as Hret'. rewrite Hret in Hret'.
      destruct (requested (state y)) eqn:E1; [|done].
      destruct (draining y) eqn:E2; [done|].
      rewrite (inv_empty y Hinvy E1 E2) in Hin'. by apply elem_of_nil in Hin'.
    + assert (Hr3 : count is_returned h3 = 1).
      { rewrite Hh in Hret.
        replace (h1 ++ OWon :: h2 ++ OInvoked id a :: h3)
          with ((h1 ++ OWon :: h2) ++ OInvoked id a :: h3) in Hret
          by by rewrite <-app_assoc.
        rewrite count_app, Hr in Hret. simpl in Hret. lia. }
      destruct (count_pos_split is_returned h3) as (h3a & o & h4 & -> & Ho); [lia|].
      destruct o; try done.
      exists h1, h2, h3a, h4. split; [done|].
      pose proof (inv_once y Hinvy id) as Hle.
      rewrite Hh in Hle |- *.
      rewrite !count_app in *. simpl in *. rewrite !count_app in *. simpl in *.
      rewrite Nat.eqb_refl in *. lia.
  - apply (inv_once y Hinvy).
Qed.
End StopStateTheory.

(** * The process: frame properties of the steps *)

Section WorldTheory.
Context {T : Type}.
Implicit Types (w : world T) (tok : option nat).

Lemma finished_alter_body (t t0 : nat) (b : body T) w :
  finished t0 (set_body t b w) = finished t0 w.
Proof.
  unfold finished, set_body; simpl.
  destruct (decide (t = t0)) as [->|Hne].
  - rewrite list_lookup_alter_eq. by destruct (threads w !! t0).
  - by rewrite list_lookup_alter_ne.
Qed.

Lemma finished_exit_thread (t t0 : nat) w :
  finished t0 w = true → finished t0 (exit_thread t w) = true.
Proof.
  unfold finished, exit_thread; simpl.
  destruct (decide (t = t0)) as [->|Hne].
  - rewrite list_lookup_alter_eq. by destruct (threads w !! t0).
  - by rewrite list_lookup_alter_ne.
Qed.

Lemma finished_exit_thread_same (t : nat) w :
  t < length (threads w) → finished t (exit_thread t w) = true.
Proof.
  intros Ht. unfold finished, exit_thread; simpl.
  rewrite list_lookup_alter_eq.
  destruct (lookup_lt_is_Some_2 (threads w) t Ht) as [th ->]. done.
Qed.

Lemma stop_callback_dtor_frame h w :
  jthreads (stop_callback_dtor h w) = jthreads w
  ∧ threads (stop_callback_dtor h w) = threads w
  ∧ taskQueue (stop_callback_dtor h w) = taskQueue w
  ∧ trace (stop_callback_dtor h w) = trace w
  ∧ cells (stop_callback_dtor h w) = cells w.
Proof.
  destruct h as [[s id]|]; simpl; [|done].
  by destruct (sstates w !! s).
Qed.

Lemma thread_stop_callback_ctor_frame tok a w :
  jthreads (thread_stop_callback_ctor tok a w).2 = jthreads w
  ∧ threads (thread_stop_callback_ctor tok a w).2 = threads w
  ∧ taskQueue (thread_stop_callback_ctor tok a w).2 = taskQueue w
  ∧ cells (thread_stop_callback_ctor tok a w).2 = cells w.
Proof.
  destruct tok as [s|]; simpl; [|done].
  destruct (sstates w !! s) as [st|]; simpl; [|done].
  unfold ss_register. destruct (requested st); simpl; [|done].
  by destruct a.
Qed.

(** A step of a thread leaves the jthread objects alone, and a thread that
    has returned stays so. *)
Lemma thread_step_frame (t : nat) w w' :
  thread_step t w = Some w' →
  jthreads w' = jthreads w
  ∧ length (threads w') = length (threads w)
  ∧ (∀ t0, finished t0 w = true → finished t0 w' = true).
Proof.
  unfold thread_step. destruct (threads w !! t) as [[b tok al]|] eqn:Et; [|done].
  simpl. destruct al; [|done].
  destruct b as [cb|jt token|i|d cv tc st|fe]; simpl.
  - unfold Ex3.worker. destruct cb as [h|].
    + destruct (stop_requested tok w); intros [= <-]; [|done].
      destruct (stop_callback_dtor_frame h w) as (Hj & Ht & _).
      repeat split.
      * simpl. done.
      * simpl. rewrite length_alter. by rewrite Ht.
      * intros t0 Hf. apply finished_exit_thread.
        unfold finished in *. by rewrite Ht.
    + destruct (thread_stop_callback_ctor tok SLog w) as [h w1] eqn:E.
      intros [= <-].
      pose proof (thread_stop_callback_ctor_frame tok SLog w) as (Hj & Ht & _).
      rewrite E in Hj, Ht. simpl in Hj, Ht.
      repeat split.
      * simpl. done.
      * simpl. rewrite length_alter. by rewrite Ht.
      * intros t0 Hf. rewrite finished_alter_body.
        unfold finished in *. by rewrite Ht.
  - unfold Ex5.interruptableWorker. destruct token as [token|].
    + destruct (stop_requested token w); intros [= <-]; [|done].
      repeat split; simpl; [by rewrite length_alter|].
      intros t0. apply finished_exit_thread.
    + intros [= <-]. repeat split; simpl; [by rewrite length_alter|].
      intros t0. by rewrite finished_alter_body.
  - unfold Ex5.uninterruptableWorker. destruct (i <? 20); intros [= <-].
    + repeat split; simpl; [by rewrite length_alter|].
      intros t0. by rewrite finished_alter_body.
    + repeat split; simpl; [by rewrite length_alter|].
      intros t0. apply finished_exit_thread.
  - unfold Ex6.worker. destruct st as [h|].
    + destruct (stop_requested tok w || _); intros [= <-].
      destruct (stop_callback_dtor_frame h w) as (Hj & Ht & _).
      repeat split.
      * simpl. done.
      * simpl. rewrite length_alter. by rewrite Ht.
      * intros t0 Hf. apply finished_exit_thread.
        unfold finished in *. by rewrite Ht.
    + destruct (thread_stop_callback_ctor tok (SNotifyAll cv) w) as [h w1] eqn:E.
      intros [= <-].
      pose proof (thread_stop_callback_ctor_frame tok (SNotifyAll cv) w) as (Hj & Ht & _).
      rewrite E in Hj, Ht. simpl in Hj, Ht.
      repeat split.
      * simpl. done.
      * simpl. rewrite length_alter. by rewrite Ht.
      * intros t0 Hf. rewrite finished_alter_body.
        unfold finished in *. by rewrite Ht.
  - unfold Ex7.worker. destruct (cv_wait tok _ w) as [r|]; [|done].
    destruct (negb r || _).
    + intros [= <-]. repeat split; simpl; [by rewrite length_alter|].
      intros t0. apply finished_exit_thread.
    + destruct (taskQueue w) as [|v q]; [done|]. intros [= <-]. done.
Qed.

Lemma env_star_frame w w' :
  env_star w w' →
  jthreads w' = jthreads w
  ∧ length (threads w') = length (threads w)
  ∧ (∀ t0, finished t0 w = true → finished t0 w' = true).
Proof.
  induction 1 as [w|w w1 w2 [t Hstep] _ IH]; [done|].
  destruct (thread_step_frame t w w1 Hstep) as (H1 & H2 & H3).
  destruct IH as (H4 & H5 & H6).
  repeat split; [congruence|congruence|auto].
Qed.
End WorldTheory.

(** * Proof outlines are sound *)

Section SafeTheory.
Context {T : Type}.
Implicit Types (w : world T).

Lemma safe_sound (I : action T → world T → Prop) J :
  callback_specs I J →
  ∀ R (x : res T R) o w', runs x o w' → ∀ Q, safe I J Q x → Q o w'.
Proof.
  intros HI R x o w' Hr.
  induction Hr as [R r w|R e w|R c w k w1 o w2 He Hc _ IH
                  |R a w k w1 o w2 _ IH1 _ IH2|R a w k e w1 _ IH];
    intros Q Hs; inversion Hs; subst.
  - done.
  - done.
  - apply IH. auto.
  - apply IH2. match goal with H : ∀ w', J a w w' → _ |- _ => apply H end.
    apply (IH1 _ (HI a w ltac:(done)) tt eq_refl).
  - auto.
Qed.

Lemma safe_wp (I : action T → world T → Prop) J R (x : res T R) Q :
  callback_specs I J → safe I J Q x → wp x Q.
Proof. intros HI Hs o w Hr. by eapply safe_sound. Qed.

Lemma safe_mono (I : action T → world T → Prop) J R (x : res T R) (Q Q' : result R → world T → Prop) :
  (∀ o w, Q o w → Q' o w) → safe I J Q x → safe I J Q' x.
Proof.
  intros HQ. induction 1; [by constructor; auto..| |].
  - constructor. auto.
  - constructor; auto.
Qed.

(** The winner's callbacks run under an invariant that the removal of a
    callback from the registry and the steps of the other threads
    preserve. *)
Lemma safe_drain_gen (Inv : world T → Prop) (Q : result bool → world T → Prop) n s w :
  (∀ w id a st, Inv w → sstates w !! s ≫= ss_take = Some ((id, a), st) →
     Inv (emit (EInvoke id) (set_sstates <[s := st]> w))) →
  (∀ w w', Inv w → env_star w w' → Inv w') →
  Inv w →
  (∀ w', Inv w' → Q (Ok true) w') →
  (∀ e w', Q (Exn e) w') →
  safe (λ _, Inv) (λ _ _, Inv) Q (drain n s w).
Proof.
  intros Hframe Henv Hw Hf He. revert w Hw.
  induction n as [|n IH]; simpl; intros w Hw; [by constructor; apply Hf|].
  destruct (sstates w !! s ≫= ss_take) as [[[id a] st]|] eqn:E; simpl;
    [|by constructor; apply Hf].
  apply safe_call; [by apply (Hframe w id a st)| |done].
  intros w' Hw'. destruct (callbacks st); [by constructor; apply Hf|].
  constructor. intros w'' Hstar _. apply IH. by eapply Henv.
Qed.

Lemma safe_request_stop_gen (Inv : world T → Prop)
    (Q : result bool → world T → Prop) src w :
  (∀ s w id a st, src = Some s → Inv w →
     sstates w !! s ≫= ss_take = Some ((id, a), st) →
     Inv (emit (EInvoke id) (set_sstates <[s := st]> w))) →
  (∀ s w st, src = Some s → Inv w → sstates w !! s = Some st →
     Inv (set_sstates <[s := StopState true (callbacks st)]> w)) →
  (∀ w w', Inv w → env_star w w' → Inv w') →
  Inv w →
  (∀ r w', Inv w' → Q (Ok r) w') →
  (∀ e w', Q (Exn e) w') →
  safe (λ _, Inv) (λ _ _, Inv) Q (request_stop src w).
Proof.
  intros Hframe Hframe' Henv Hw Hf He. unfold request_stop.
  destruct src as [s|]; simpl; [|by constructor; apply Hf].
  destruct (sstates w !! s) as [st|] eqn:Es; simpl; [|by constructor; apply Hf].
  unfold ss_try_request. destruct (requested st); simpl; [by constructor; apply Hf|].
  apply safe_drain_gen; eauto.
Qed.

(** The same when the invariant does not depend on the stop states or on
    the trace, and the other threads keep it. *)
Lemma safe_request_stop (Inv : world T → Prop) (Q : result bool → world T → Prop) src w :
  (∀ w g e, Inv w → Inv (emit e (set_sstates g w))) →
  (∀ w g, Inv w → Inv (set_sstates g w)) →
  (∀ w w', Inv w → env_star w w' → Inv w') →
  Inv w →
  (∀ r w', Inv w' → Q (Ok r) w') →
  (∀ e w', Q (Exn e) w') →
  safe (λ _, Inv) (λ _ _, Inv) Q (request_stop src w).
Proof.
  intros Hframe Hframe' Henv Hw Hf He. apply safe_request_stop_gen; auto.
Qed.

Lemma safe_bind {R S} (I : action T → world T → Prop) J
    (Q : result S → world T → Prop) (x : res T R) (f : R → M T S) :
  safe I J (λ o w, match o with
                   | Ok r => safe I J Q (f r w)
                   | Exn e => Q (Exn e) w
                   end) x →
  (∀ e w, Q (Exn e) w) →
  safe I J Q (bind_res x f).
Proof.
  intros Hs He. induction Hs as [r w Hr|e w Hr|c w k _ IH|a w k Ha _ IH _]; simpl.
  - done.
  - by constructor.
  - constructor. auto.
  - constructor; auto.
Qed.

Lemma owned_frame_sstates (k t : nat) w g e :
  owned k t w → owned k t (emit e (set_sstates g w)).
Proof. done. Qed.

Lemma owned_frame_sstates' (k t : nat) w g :
  owned k t w → owned k t (set_sstates g w).
Proof. done. Qed.

Lemma owned_env (k t : nat) w w' :
  env_star w w' → owned k t w → owned k t w'.
Proof.
  intros (Hj & Hl & Hf)%env_star_frame [Hk Ho]. split.
  - by rewrite Hj.
  - destruct Ho as [Ho|Ho]; [left; auto|right; by rewrite Hj].
Qed.

Lemma finished_spawn (t : nat) w (th : thread T) g :
  finished t w = true →
  finished t (set_threads (λ l, l ++ [th]) (set_sstates g w)) = true.
Proof.
  unfold finished; simpl. intros Hf.
  destruct (threads w !! t) as [th'|] eqn:E; [|done].
  by rewrite (lookup_app_l_Some _ _ _ _ E).
Qed.

(** Starting a jthread object: the outline, under the invariant that
    thread [t] has returned or is still represented by the jthread at
    [k].  When the object started is the one at [k], the call returns only
    after [t] has returned, and the object then represents the new
    thread. *)
Lemma safe_jthread_start (k t jt : nat) (b : body T) w :
  owned k t w →
  safe (λ _, owned k t) (λ _ _, owned k t)
    (λ o w', ∀ r, o = Ok r →
       owned k t w'
       ∧ (jt = k → finished t w' = true
                   ∧ jthreads w' !! k
                     = Some (JThread (Some (length (sstates w)))
                                     (Some (length (threads w))))))
    (jthread_start jt b w).
Proof.
  intros [Hk Ho].
  unfold jthread_start, bind, jthread_ctor; simpl.
  set (w1 := set_threads _ _).
  set (new := JThread _ _).
  assert (Hw1 : owned k t w1).
  { split; [done|]. destruct Ho as [Ho|Ho]; [left; by apply finished_spawn|by right]. }
  unfold jthread_move_assign, bind, gets; simpl.
  assert (Hfin : ∀ w2, owned k t w2 →
            (jt = k → finished t w2 = true) →
            owned k t (set_jthreads <[jt := new]> w2)
            ∧ (jt = k → finished t (set_jthreads <[jt := new]> w2) = true
                        ∧ jthreads (set_jthreads <[jt := new]> w2) !! k = Some new)).
  { intros w2 [Hk2 Ho2] Hjt. split; [split|].
    - simpl. by rewrite length_insert.
    - destruct (decide (jt = k)) as [->|Hne].
      + left. by apply Hjt.
      + destruct Ho2 as [Ho2|Ho2]; [by left|right].
        simpl. by rewrite list_lookup_insert_ne.
    - intros ->. split; [by apply Hjt|].
      simpl. by rewrite list_lookup_insert_eq. }
  destruct (joinable jt w1) eqn:Ej; simpl.
  - apply safe_bind; [|done].
    apply safe_bind; [|done].
    apply safe_request_stop;
      [done|done|by intros; eapply owned_env|done| |done].
    intros _ w2 Hw2. unfold jthread_join.
    destruct (jthreads w2 !! jt) as [[src [t'|]]|] eqn:Ejt; [|by constructor..].
    constructor. intros w3 Henv Hready. simpl in Hready.
    constructor. unfold modify. constructor. intros r _.
    pose proof (owned_env k t w2 w3 Henv Hw2) as [Hk3 Ho3].
    destruct (env_star_frame _ _ Henv) as (Hj3 & _ & _).
    assert (Hw3 : owned k t (set_jthreads <[jt := JThread src None]> w3)
                  ∧ (jt = k → finished t w3 = true)).
    { split; [split|].
      - simpl. by rewrite length_insert.
      - destruct (decide (jt = k)) as [->|Hne].
        + left. destruct Ho3 as [?|Ho3]; [done|].
          rewrite Hj3, Ejt in Ho3. simpl in Ho3. by injection Ho3 as <-.
        + destruct Ho3 as [?|Ho3]; [by left|right].
          simpl. by rewrite list_lookup_insert_ne.
      - intros ->. destruct Ho3 as [?|Ho3]; [done|].
        rewrite Hj3, Ejt in Ho3. simpl in Ho3. by injection Ho3 as <-. }
    destruct Hw3 as [Hw3 Hjt].
    apply (Hfin _ Hw3). done.
  - unfold ret, modify. constructor. intros r _. apply Hfin; [done|].
    intros ->. destruct Ho as [Ho|Ho]; [by apply finished_spawn|].
    unfold joinable in Ej. unfold w1 in Ej. simpl in Ej.
    by rewrite Ho in Ej.
Qed.

Lemma owned_callbacks (k t : nat) :
  callback_specs (T:=T) (λ _, owned k t) (λ _ _, owned k t).
Proof.
  intros [a|jt b] w Hw; simpl.
  - unfold modify. constructor. intros _ _. by destruct a.
  - eapply safe_mono; [|by apply safe_jthread_start].
    simpl. intros o w' H r ->. by destruct (H r eq_refl).
Qed.
End SafeTheory.

(** * The worker classes *)

Section WorkerTheory.
Context {T : Type}.
Implicit Types (w : world T).

Lemma Ex5_stop_text (this : Ex5.SimpleWorkerThrad) block :
  Ex5.stop (T:=T) this block = stop_text (Ex5.mThread this) block.
Proof. done. Qed.

Lemma Ex6_stop_text (this : Ex6.WorkerThread T) block :
  Ex6.stop this block = stop_text (Ex6.mThread this) block.
Proof. done. Qed.

Lemma Ex7_stop_text (this : Ex7.WorkerThread) block :
  Ex7.stop (T:=T) this block = stop_text (Ex7.mThread this) block.
Proof. done. Qed.

Lemma Ex5_dtor_text (this : Ex5.SimpleWorkerThrad) :
  Ex5.SimpleWorkerThrad_dtor (T:=T) this = dtor_text (Ex5.mThread this).
Proof. done. Qed.

Lemma Ex7_dtor_text (this : Ex7.WorkerThread) :
  Ex7.WorkerThread_dtor (T:=T) this = dtor_text (Ex7.mThread this).
Proof. done. Qed.

Lemma Ex5_start_jthread_start (this : Ex5.SimpleWorkerThrad) :
  Ex5.start (T:=T) this
  = jthread_start (Ex5.mThread this)
      (if Ex5.mInterruptable this
       then B5_interruptable (Ex5.mThread this) None
       else B5_uninterruptable 0).
Proof. unfold Ex5.start. by destruct (Ex5.mInterruptable this). Qed.

Lemma Ex6_start_jthread_start (this : Ex6.WorkerThread T) :
  Ex6.start this
  = jthread_start (Ex6.mThread this)
      (B6_worker (Ex6.mData this) (Ex6.mCv this) (Ex6.taskComplete this) None).
Proof. done. Qed.

Lemma Ex7_start_jthread_start (this : Ex7.WorkerThread) :
  Ex7.start (T:=T) this
  = jthread_start (Ex7.mThread this) (B7_worker (Ex7.mFinishEarly this)).
Proof. done. Qed.

(** The lambdas that start another worker do what its [start] does. *)
Lemma invoke_Ex5_lambda (that : Ex5.SimpleWorkerThrad) :
  invoke (T:=T) (Ex5.lambda that) = Ex5.start that.
Proof. by rewrite Ex5_start_jthread_start. Qed.

Lemma invoke_Ex6_lambda (that : Ex6.WorkerThread T) :
  invoke (Ex6.lambda that) = Ex6.start that.
Proof. done. Qed.

Lemma invoke_Ex7_lambda (that : Ex7.WorkerThread) :
  invoke (T:=T) (Ex7.lambda that) = Ex7.start that.
Proof. done. Qed.

(** [stop] on a jthread without stop state does nothing. *)
Lemma stop_text_unstarted (jt : nat) block w :
  get_stop_token jt w = None → stop_text jt block w = Done tt w.
Proof. unfold stop_text, bind, gets; simpl. by intros ->. Qed.

(** [request_stop] after a stop was requested changes nothing. *)
Lemma request_stop_again src w :
  stop_requested src w = true → request_stop src w = Done false w.
Proof.
  unfold stop_requested, request_stop. destruct src as [s|]; [|done].
  destruct (sstates w !! s) as [st|]; [|done].
  unfold ss_try_request. by intros ->.
Qed.

Lemma stop_text_again (jt : nat) w :
  stop_requested (get_stop_token jt w) w = true →
  stop_text jt false w = Done tt w.
Proof.
  intros Hrq. unfold stop_text, bind, gets; simpl.
  destruct (get_stop_token jt w) as [s|] eqn:E; simpl; [|done].
  unfold get_stop_source. unfold get_stop_token in E. rewrite E.
  by rewrite request_stop_again.
Qed.

(** A second blocking [stop] finds the jthread no longer joinable:
    [join()] throws. *)
Lemma stop_text_block_after_join (jt : nat) src w :
  jthreads w !! jt = Some (JThread src None) →
  stop_requested src w = true →
  stop_text jt true w = Throw SystemError w.
Proof.
  intros Hj Hrq. unfold stop_text, bind, gets, get_stop_token, get_stop_source.
  simpl. rewrite Hj. simpl.
  destruct src as [s|]; [|done]. simpl. rewrite Hj. simpl.
  rewrite request_stop_again by done. simpl.
  unfold jthread_join. by rewrite Hj.
Qed.

(** [stop] of the three worker classes on a jthread that was never
    started, and after a stop was requested. *)
Lemma stop_text_default (jt : nat) block w :
  jthreads w !! jt = Some default_jthread →
  stop_possible (get_stop_token jt w) = false ∧ stop_text jt block w = Done tt w.
Proof.
  intros Hj.
  assert (Htok : get_stop_token jt w = None).
  { unfold get_stop_token. by rewrite Hj. }
  split; [by rewrite Htok|by apply stop_text_unstarted].
Qed.

Lemma stop_text_requested (jt : nat) w :
  stop_requested (get_stop_token jt w) w = true →
  request_stop (get_stop_source jt w) w = Done false w
  ∧ stop_text jt false w = Done tt w.
Proof.
  intros Hrq. split; [by apply request_stop_again|by apply stop_text_again].
Qed.

(** [stop] on a worker that was never started, blocking or not, returns
    at once with the process unchanged: [stop_possible()] is false, no stop
    is requested, no join is attempted, nothing is thrown.  And once a stop
    has been requested on the worker's stop state, another [request_stop]
    returns false and changes nothing, so that [stop()] without [block]
    again changes nothing. *)
Lemma stop_unstarted_and_again (w : world T)
    (s5 : Ex5.SimpleWorkerThrad) (s6 : Ex6.WorkerThread T) (s7 : Ex7.WorkerThread)
    (block : bool) :
  (jthreads w !! Ex5.mThread s5 = Some default_jthread →
     stop_possible (get_stop_token (Ex5.mThread s5) w) = false
     ∧ Ex5.stop s5 block w = Done tt w)
  ∧ (jthreads w !! Ex7.mThread s7 = Some default_jthread →
     stop_possible (get_stop_token (Ex7.mThread s7) w) = false
     ∧ Ex7.stop s7 block w = Done tt w)
  ∧ (stop_requested (get_stop_token (Ex5.mThread s5) w) w = true →
     request_stop (get_stop_source (Ex5.mThread s5) w) w = Done false w
     ∧ Ex5.stop s5 false w = Done tt w)
  ∧ (stop_requested (get_stop_token (Ex7.mThread s7) w) w = true →
     request_stop (get_stop_source (Ex7.mThread s7) w) w = Done false w
     ∧ Ex7.stop s7 false w = Done tt w)
  ∧ (jthreads w !! Ex6.mThread s6 = Some default_jthread →
     stop_possible (get_stop_token (Ex6.mThread s6) w) = false
     ∧ Ex6.stop s6 block w = Done tt w)
  ∧ (stop_requested (get_stop_token (Ex6.mThread s6) w) w = true →
     request_stop (get_stop_source (Ex6.mThread s6) w) w = Done false w
     ∧ Ex6.stop s6 false w = Done tt w).
Proof.
  rewrite !Ex5_stop_text, !Ex6_stop_text, !Ex7_stop_text.
  split; [by apply stop_text_default|].
  split; [by apply stop_text_default|].
  split; [by apply stop_text_requested|].
  split; [by apply stop_text_requested|].
  split; [by apply stop_text_default|by apply stop_text_requested].
Qed.

(** C10. [setData] on a worker whose thread is not joinable, or whose stop
    was already requested, returns with the process unchanged: [mData]
    keeps its value and [mCv] is not notified, so [taskComplete()] answers
    as before.  Only when the thread is joinable and no stop was requested
    does it store the data and notify [mCv]. *)
Theorem C10_setData_frame (this : Ex6.WorkerThread T) (data : T) (w : world T) :
  let started := joinable (Ex6.mThread this) w in
  let stopping := stop_requested (get_stop_token (Ex6.mThread this) w) w in
  (started = false ∨ stopping = true →
     Ex6.setData this data w = Done tt w)
  ∧ (started = true → stopping = false →
     Ex6.setData this data w
     = Done tt (emit (ENotifyAll (Ex6.mCv this))
                  (set_cells <[Ex6.mData this := data]> w)))
  ∧ (∀ w', Ex6.setData this data w = Done tt w' → w' ≠ w →
     started = true ∧ stopping = false)
  ∧ (stopping = true → ∀ w', Ex6.setData this data w = Done tt w' →
     cells w' = cells w
     ∧ notified (Ex6.mCv this) w' = notified (Ex6.mCv this) w
     ∧ Ex6.taskComplete_now this w' = Ex6.taskComplete_now this w).
Proof.
  intros started stopping. unfold Ex6.setData. fold started stopping.
  split; [|split; [|split]].
  - intros [->| ->]; [done|]. by rewrite andb_false_r.
  - by intros -> ->.
  - intros w' Hset Hne.
    destruct started; [|by injection Hset as <-].
    destruct stopping; [by injection Hset as <-|done].
  - intros Hstop w' Hset.
    rewrite Hstop, andb_false_r in Hset. by injection Hset as <-.
Qed.

Lemma safe_jthread_dtor (k t : nat) w :
  owned k t w →
  safe (λ _, owned k t) (λ _ _, owned k t)
    (λ o w', o = Ok tt → finished t w' = true)
    (jthread_dtor k w).
Proof.
  intros Hw. unfold jthread_dtor, bind, gets; simpl.
  destruct (joinable k w) eqn:Ej; simpl.
  - apply safe_bind; [|done].
    apply safe_request_stop;
      [done|done|by intros; eapply owned_env|done| |done].
    intros _ w2 Hw2. unfold jthread_join.
    destruct (jthreads w2 !! k) as [[src [t'|]]|] eqn:Ek; [|by constructor..].
    constructor. intros w3 Henv Hready. simpl in Hready.
    constructor. intros _.
    destruct (owned_env k t w2 w3 Henv Hw2) as [_ [Ho|Ho]]; [done|].
    destruct (env_star_frame _ _ Henv) as (Hj3 & _ & _).
    rewrite Hj3, Ek in Ho. simpl in Ho. by injection Ho as <-.
  - constructor. intros _. destruct Hw as [_ [Ho|Ho]]; [done|].
    unfold joinable in Ej. by rewrite Ho in Ej.
Qed.

Lemma safe_stop_text (k t jt : nat) w :
  owned k t w →
  safe (λ _, owned k t) (λ _ _, owned k t)
    (λ o w', ∀ r, o = Ok r → owned k t w')
    (stop_text jt false w).
Proof.
  intros Hw. unfold stop_text, bind, gets; simpl.
  destruct (stop_possible (get_stop_token jt w)); simpl; [|by constructor].
  apply safe_bind; [|done].
  apply safe_request_stop;
    [done|done|by intros; eapply owned_env|done| |done].
  intros _ w2 Hw2. by constructor.
Qed.

Lemma safe_dtor_text (k t : nat) w :
  owned k t w →
  safe (λ _, owned k t) (λ _ _, owned k t)
    (λ o w', o = Ok tt → finished t w' = true)
    (dtor_text k w).
Proof.
  intros Hw. unfold dtor_text, bind.
  apply safe_bind; [|done].
  eapply safe_mono; [|by apply safe_stop_text].
  simpl. intros [r|e] w' H; [|done].
  apply safe_jthread_dtor. by apply (H r).
Qed.

Lemma owned_started (k t : nat) src w :
  jthreads w !! k = Some (JThread src (Some t)) → owned k t w.
Proof.
  intros Hk. split.
  - by apply lookup_lt_Some in Hk.
  - right. by rewrite Hk.
Qed.

Lemma dtor_text_joins (k t : nat) src w :
  jthreads w !! k = Some (JThread src (Some t)) →
  wp (dtor_text k w) (λ o w', o = Ok tt → finished t w' = true).
Proof.
  intros Hk. eapply safe_wp; [apply (owned_callbacks k t)|].
  apply safe_dtor_text. by eapply owned_started.
Qed.

Lemma jthread_start_spawns (jt : nat) (b : body T) w :
  ∃ w1,
    jthread_start jt b w
    = jthread_move_assign jt
        (JThread (Some (length (sstates w))) (Some (length (threads w)))) w1
    ∧ threads w1 = threads w ++ [Thread b (Some (length (sstates w))) true]
    ∧ jthreads w1 = jthreads w.
Proof. by eexists. Qed.

Lemma is_alive_spawned w1 w (th : thread T) :
  threads w1 = threads w ++ [th] → alive th = true →
  is_alive (length (threads w)) w1 = true
  ∧ (∀ t, is_alive t w = true → is_alive t w1 = true).
Proof.
  intros Ht Ha. unfold is_alive. rewrite Ht. split.
  - by rewrite list_lookup_middle.
  - intros t. destruct (threads w !! t) as [th'|] eqn:E; [|done].
    by rewrite (lookup_app_l_Some _ _ _ _ E).
Qed.

Lemma jthread_start_joins (k t : nat) src (b : body T) w :
  jthreads w !! k = Some (JThread src (Some t)) →
  wp (jthread_start k b w)
     (λ o w', o = Ok tt →
        finished t w' = true
        ∧ jthreads w' !! k
          = Some (JThread (Some (length (sstates w))) (Some (length (threads w))))).
Proof.
  intros Hk. eapply safe_wp; [apply (owned_callbacks k t)|].
  eapply safe_mono; [|apply (safe_jthread_start k t k b w); by eapply owned_started].
  simpl. intros o w' H ->. destruct (H tt eq_refl) as [_ H']. by apply H'.
Qed.

(** What [start] of the three worker classes does on a started jthread. *)
Lemma jthread_start_again (k t : nat) src (b : body T) w :
  jthreads w !! k = Some (JThread src (Some t)) →
  (∃ w1, jthread_start k b w
         = jthread_move_assign k
             (JThread (Some (length (sstates w))) (Some (length (threads w)))) w1
         ∧ jthreads w1 = jthreads w
         ∧ is_alive (length (threads w)) w1 = true
         ∧ (is_alive t w = true → is_alive t w1 = true))
  ∧ wp (jthread_start k b w)
       (λ o w', o = Ok tt →
          finished t w' = true
          ∧ jthreads w' !! k
            = Some (JThread (Some (length (sstates w))) (Some (length (threads w))))).
Proof.
  intros Hk. split; [|by eapply jthread_start_joins].
  destruct (jthread_start_spawns k b w) as (w1 & -> & Ht & Hj).
  exists w1. split; [done|]. split; [done|].
  destruct (is_alive_spawned _ _ _ Ht eq_refl). auto.
Qed.

(** C7, as the code has it.  [start] on a worker that is already started
    is not rejected: it constructs a new thread of execution that runs the
    body, alive next to the previous one; it then requests a stop of the
    previous thread and waits for it; when [start] returns the previous
    thread has returned and the worker's jthread represents the new one.
    This holds for the worker classes of ex5, ex6 and ex7. *)
Theorem C7_restart_spawns_then_joins (w : world T)
    (s5 : Ex5.SimpleWorkerThrad) (s6 : Ex6.WorkerThread T) (s7 : Ex7.WorkerThread) :
  (∀ src t, jthreads w !! Ex5.mThread s5 = Some (JThread src (Some t)) →
     (∃ w1, Ex5.start s5 w
            = jthread_move_assign (Ex5.mThread s5)
                (JThread (Some (length (sstates w))) (Some (length (threads w)))) w1
            ∧ jthreads w1 = jthreads w
            ∧ is_alive (length (threads w)) w1 = true
            ∧ (is_alive t w = true → is_alive t w1 = true))
     ∧ wp (Ex5.start s5 w)
          (λ o w', o = Ok tt →
             finished t w' = true
             ∧ jthreads w' !! Ex5.mThread s5
               = Some (JThread (Some (length (sstates w)))
                               (Some (length (threads w))))))
  ∧ (∀ src t, jthreads w !! Ex6.mThread s6 = Some (JThread src (Some t)) →
     (∃ w1, Ex6.start s6 w
            = jthread_move_assign (Ex6.mThread s6)
                (JThread (Some (length (sstates w))) (Some (length (threads w)))) w1
            ∧ jthreads w1 = jthreads w
            ∧ is_alive (length (threads w)) w1 = true
            ∧ (is_alive t w = true → is_alive t w1 = true))
     ∧ wp (Ex6.start s6 w)
          (λ o w', o = Ok tt →
             finished t w' = true
             ∧ jthreads w' !! Ex6.mThread s6
               = Some (JThread (Some (length (sstates w)))
                               (Some (length (threads w))))))
  ∧ (∀ src t, jthreads w !! Ex7.mThread s7 = Some (JThread src (Some t)) →
     (∃ w1, Ex7.start s7 w
            = jthread_move_assign (Ex7.mThread s7)
                (JThread (Some (length (sstates w))) (Some (length (threads w)))) w1
            ∧ jthreads w1 = jthreads w
            ∧ is_alive (length (threads w)) w1 = true
            ∧ (is_alive t w = true → is_alive t w1 = true))
     ∧ wp (Ex7.start s7 w)
          (λ o w', o = Ok tt →
             finished t w' = true
             ∧ jthreads w' !! Ex7.mThread s7
               = Some (JThread (Some (length (sstates w)))
                               (Some (length (threads w)))))).
Proof.
  rewrite Ex5_start_jthread_start, Ex6_start_jthread_start, Ex7_start_jthread_start.
  split; [|split]; intros src t Hk; by eapply jthread_start_again.
Qed.
End WorkerTheory.

(** * Rules for [wp] *)

Section WpTheory.
Context {T : Type}.
Implicit Types (w : world T).

Lemma wp_done {R} (r : R) w (Q : result R → world T → Prop) :
  Q (Ok r) w → wp (Done r w) Q.
Proof. intros HQ o w' Hr. by inversion Hr; subst. Qed.

Lemma wp_throw {R} e w (Q : result R → world T → Prop) :
  Q (Exn e) w → wp (Throw e w) Q.
Proof. intros HQ o w' Hr. by inversion Hr; subst. Qed.

Lemma wp_wait {R} c w (k : world T → res T R) Q :
  (∀ w1, env_star w w1 → ready c w1 → wp (k w1) Q) →
  wp (Wait c w k) Q.
Proof. intros Hk o w' Hr. inversion Hr; subst. by eapply Hk. Qed.

Lemma wp_call {R} a w (k : world T → res T R) Q :
  wp (invoke a w) (λ o w1, match o with
                           | Ok _ => wp (k w1) Q
                           | Exn e => Q (Exn e) w1
                           end) →
  wp (Call a w k) Q.
Proof.
  intros Ha o w' Hr. inversion Hr as [| | |? ? ? w1 ? ? H1 H2|? ? ? ? ? H1]; subst.
  - apply Ha in H1. by apply H1.
  - by apply Ha in H1.
Qed.

Lemma runs_bind_inv {R S} (x : res T R) (f : R → M T S) o w' :
  runs (bind_res x f) o w' →
  (∃ r w1, runs x (Ok r) w1 ∧ runs (f r w1) o w')
  ∨ (∃ e, o = Exn e ∧ runs x (Exn e) w').
Proof.
  revert o w'. induction x as [r w|e w|c w k IH|a w k IH]; simpl; intros o w' Hr.
  - left. exists r, w. split; [constructor|done].
  - inversion Hr; subst. right. eexists. split; [done|constructor].
  - inversion Hr as [| |? ? ? w1 ? ? Henv Hrd Hk| |]; subst.
    apply IH in Hk as [(r & w3 & Hx & Hf)|(e & -> & Hx)].
    + left. exists r, w3. split; [by econstructor|done].
    + right. eexists. split; [done|by econstructor].
  - inversion Hr as [| | |? ? ? w1 ? ? Ha Hk|? ? ? ? ? Ha]; subst.
    + apply IH in Hk as [(r & w3 & Hx & Hf)|(e & -> & Hx)].
      * left. exists r, w3. split; [by econstructor|done].
      * right. eexists. split; [done|by econstructor].
    + right. eexists. split; [done|]. by apply runs_call_exn.
Qed.

Lemma wp_bind {R S} (x : res T R) (f : R → M T S) Q :
  wp x (λ o w, match o with
               | Ok r => wp (f r w) Q
               | Exn e => Q (Exn e) w
               end) →
  wp (bind_res x f) Q.
Proof.
  intros Hx o w' [(r & w1 & H1 & H2)|(e & -> & H1)]%runs_bind_inv.
  - apply Hx in H1. by apply H1.
  - by apply Hx in H1.
Qed.

Lemma wp_mono {R} (x : res T R) (Q Q' : result R → world T → Prop) :
  (∀ o w, Q o w → Q' o w) → wp x Q → wp x Q'.
Proof. intros HQ Hx o w Hr. by apply HQ, Hx. Qed.
End WpTheory.

(** * A stop request is never taken back *)

Section StopFlagTheory.
Context {T : Type}.
Implicit Types (w : world T) (tok : option nat).

Lemma stop_requested_insert tok (s : nat) st st' w :
  sstates w !! s = Some st →
  (requested st = true → requested st' = true) →
  stop_requested tok w = true →
  stop_requested tok (set_sstates <[s := st']> w) = true.
Proof.
  intros Hs Hmono. unfold stop_requested. destruct tok as [s0|]; [|done]. simpl.
  destruct (decide (s = s0)) as [<-|Hne].
  - rewrite list_lookup_insert_eq by by eapply lookup_lt_Some. by rewrite Hs.
  - by rewrite list_lookup_insert_ne.
Qed.

Lemma stop_requested_alloc tok (st : stop_state (action T)) w :
  stop_requested tok w = true →
  stop_requested tok (set_sstates (λ l, l ++ [st]) w) = true.
Proof.
  unfold stop_requested. destruct tok as [s0|]; [|done]. simpl.
  destruct (sstates w !! s0) as [st0|] eqn:E; [|done].
  by rewrite (lookup_app_l_Some _ _ _ _ E).
Qed.

Lemma stop_requested_dtor tok h w :
  stop_requested tok w = true → stop_requested tok (stop_callback_dtor h w) = true.
Proof.
  destruct h as [[s id]|]; simpl; [|done].
  destruct (sstates w !! s) as [st|] eqn:E; [|done].
  by apply (stop_requested_insert tok s st).
Qed.

Lemma stop_requested_thread_ctor tok tok' a w :
  stop_requested tok w = true →
  stop_requested tok (thread_stop_callback_ctor tok' a w).2 = true.
Proof.
  destruct tok' as [s|]; simpl; [|done].
  destruct (sstates w !! s) as [st|] eqn:E; simpl; [|done].
  unfold ss_register. destruct (requested st) eqn:Erq; simpl.
  - by destruct a.
  - intros Hrq. apply (stop_requested_insert tok s st); [done| |done].
    by rewrite Erq.
Qed.

Lemma thread_step_requested (t : nat) tok w w' :
  thread_step t w = Some w' →
  stop_requested tok w = true → stop_requested tok w' = true.
Proof.
  unfold thread_step. destruct (threads w !! t) as [[b tk al]|]; [|done].
  simpl. destruct al; [|done].
  destruct b as [cb|jt token|i|d cv tc st|fe]; simpl.
  - unfold Ex3.worker. destruct cb as [h|].
    + destruct (stop_requested tk w); intros [= <-]; [|done].
      apply stop_requested_dtor.
    + pose proof (stop_requested_thread_ctor tok tk SLog w) as Hc.
      destruct (thread_stop_callback_ctor tk SLog w) as [h w1].
      by intros [= <-].
  - unfold Ex5.interruptableWorker. destruct token as [token|].
    + by destruct (stop_requested token w); intros [= <-].
    + by intros [= <-].
  - unfold Ex5.uninterruptableWorker. by destruct (i <? 20); intros [= <-].
  - unfold Ex6.worker. destruct st as [h|].
    + destruct (stop_requested tk w || _); intros [= <-].
      apply stop_requested_dtor.
    + pose proof (stop_requested_thread_ctor tok tk (SNotifyAll cv) w) as Hc.
      destruct (thread_stop_callback_ctor tk (SNotifyAll cv) w) as [h w1].
      by intros [= <-].
  - unfold Ex7.worker. destruct (cv_wait tk _ w) as [r|]; [|done].
    destruct (negb r || _); [by intros [= <-]|].
    destruct (taskQueue w); [done|]. by intros [= <-].
Qed.

Lemma env_star_requested tok w w' :
  env_star w w' → stop_requested tok w = true → stop_requested tok w' = true.
Proof.
  induction 1 as [w|w w1 w2 [t Hstep] _ IH]; [done|].
  intros Hrq. apply IH. by eapply thread_step_requested.
Qed.

Lemma requested_pop tok (s : nat) w id a st :
  stop_requested tok w = true →
  sstates w !! s ≫= ss_take = Some ((id, a), st) →
  stop_requested tok (emit (EInvoke id) (set_sstates <[s := st]> w)) = true.
Proof.
  intros Hrq Htake.
  destruct (sstates w !! s) as [st0|] eqn:E; [|done]. simpl in Htake.
  unfold ss_take in Htake. destruct (callbacks st0) as [|c cs]; [done|].
  injection Htake as _ <-.
  change (stop_requested tok (set_sstates <[s := StopState (requested st0) cs]> w) = true).
  by apply (stop_requested_insert tok s st0).
Qed.

Lemma requested_flag tok (s : nat) w st :
  stop_requested tok w = true → sstates w !! s = Some st →
  stop_requested tok (set_sstates <[s := StopState true (callbacks st)]> w) = true.
Proof. intros Hrq Hs. by apply (stop_requested_insert tok s st). Qed.

Lemma safe_request_stop_requested tok (Q : result bool → world T → Prop) src w :
  stop_requested tok w = true →
  (∀ r w', stop_requested tok w' = true → Q (Ok r) w') →
  (∀ e w', Q (Exn e) w') →
  safe (λ _ w, stop_requested tok w = true) (λ _ _ w, stop_requested tok w = true)
       Q (request_stop src w).
Proof.
  intros Hw Hf He.
  apply (safe_request_stop_gen (λ w, stop_requested tok w = true)); try done.
  - intros s w0 id a st _ Hrq Htake. by eapply requested_pop.
  - intros s w0 st _ Hrq Hs. by apply requested_flag.
  - intros w0 w1 Hrq Henv. by eapply env_star_requested.
Qed.

Lemma safe_jthread_start_requested tok (jt : nat) (b : body T) w :
  stop_requested tok w = true →
  safe (λ _ w, stop_requested tok w = true) (λ _ _ w, stop_requested tok w = true)
       (λ o w', ∀ r, o = Ok r → stop_requested tok w' = true)
       (jthread_start jt b w).
Proof.
  intros Hw. unfold jthread_start, bind, jthread_ctor; simpl.
  set (w1 := set_threads _ _).
  assert (Hw1 : stop_requested tok w1 = true) by by apply stop_requested_alloc.
  clearbody w1. unfold jthread_move_assign, bind, gets; simpl.
  destruct (joinable jt w1); simpl.
  - apply safe_bind; [|done]. apply safe_bind; [|done].
    apply safe_request_stop_requested; [done| |done].
    intros _ w2 Hw2. unfold jthread_join.
    destruct (jthreads w2 !! jt) as [[src [t'|]]|]; [|by constructor..].
    constructor. intros w3 Henv _. constructor. constructor. intros _ _.
    by apply (env_star_requested tok w2 w3).
  - constructor. by intros _ _.
Qed.

Lemma requested_callbacks tok :
  callback_specs (T:=T) (λ _ w, stop_requested tok w = true)
                 (λ _ _ w, stop_requested tok w = true).
Proof.
  intros [a|jt b] w Hw; simpl.
  - unfold modify. constructor. intros _ _. by destruct a.
  - by apply safe_jthread_start_requested.
Qed.

(** [request_stop()] on a stop state answers whether the flag was clear,
    and when it returns the flag is set, whatever the callbacks and the
    other threads did meanwhile. *)
Lemma request_stop_sets_flag (s : nat) st w :
  sstates w !! s = Some st →
  wp (request_stop (Some s) w)
     (λ o w', ∀ r, o = Ok r →
        r = negb (requested st) ∧ stop_requested (Some s) w' = true).
Proof.
  intros Hs. unfold request_stop. rewrite Hs. unfold ss_try_request.
  destruct (requested st) eqn:Erq; simpl.
  - apply wp_done. intros r [= <-]. split; [done|].
    unfold stop_requested. by rewrite Hs.
  - eapply safe_wp; [apply (requested_callbacks (Some s))|].
    apply safe_drain_gen.
    + intros w0 id a st0 Hrq Htake. by eapply requested_pop.
    + intros w0 w1 Hrq Henv. by eapply env_star_requested.
    + unfold stop_requested. simpl.
      by rewrite list_lookup_insert_eq by by eapply lookup_lt_Some.
    + intros w' Hw' r [= <-]. by split.
    + done.
Qed.

(** [stop()] and [stopThread] on a started jthread: when the call returns
    the stop is requested. *)
Lemma stop_text_sets_flag (jt s : nat) h st block w :
  jthreads w !! jt = Some (JThread (Some s) h) →
  sstates w !! s = Some st →
  wp (stop_text jt block w)
     (λ o w', o = Ok tt → stop_requested (Some s) w' = true).
Proof.
  intros Hj Hs. unfold stop_text, bind, gets, get_stop_token, get_stop_source.
  simpl. rewrite Hj. simpl. rewrite Hj. simpl.
  apply wp_bind. eapply wp_mono; [|by apply request_stop_sets_flag].
  simpl. intros [r|e] w' H; [|done].
  destruct (H r eq_refl) as [_ Hrq].
  destruct block; [|by apply wp_done].
  unfold jthread_join.
  destruct (jthreads w' !! jt) as [[src [t'|]]|]; [|by apply wp_throw..].
  apply wp_wait. intros w2 Henv _. apply wp_done. intros _.
  by apply (env_star_requested (Some s) w' w2).
Qed.

Lemma stopThread_sets_flag (jt s : nat) h st w :
  jthreads w !! jt = Some (JThread (Some s) h) →
  sstates w !! s = Some st →
  wp (Ex4.stopThread jt w)
     (λ o w', o = Ok tt → stop_requested (Some s) w' = true).
Proof.
  intros Hj Hs. unfold Ex4.stopThread, bind, gets, get_stop_token, get_stop_source.
  simpl. rewrite Hj. simpl. rewrite Hj. simpl.
  apply wp_bind. eapply wp_mono; [|by apply request_stop_sets_flag].
  simpl. intros [r|e] w' H; [|done].
  apply wp_done. intros _. by destruct (H r eq_refl).
Qed.
End StopFlagTheory.

(** * The stop state and the code that uses it *)

Section StopStateUse.
Context {T A : Type}.

(** C1. On one stop source, whatever the schedule of the calls made by any
    number of threads: exactly one request_stop() performs the transition
    when there is any, and every other one returns false; a poll scheduled
    after a request answers true; no callback is invoked twice; and once
    the winning call has returned, every callback ever registered has been
    invoked exactly once unless it was destroyed.  In the process, on a
    started jthread: request_stop() answers whether it found the flag
    clear, and when it, [stopThread] of ex4 or [stop] of ex6 returns, the
    stop is requested on the token, whatever the callbacks and the other
    threads did meanwhile. *)
Theorem C1_request_stop_single_winner :
  (∀ cs : list (call A),
     let x := sys_run cs sys_init in
     count is_won (history x) = (if existsb is_request cs then 1 else 0)
     ∧ count is_won (history x) + count is_lost (history x) = count is_request cs
     ∧ count is_returned (history x) ≤ count is_won (history x)
     ∧ requested (state x) = existsb is_request cs
     ∧ history (sys_step CPoll x) = history x ++ [OPolled (existsb is_request cs)]
     ∧ (∀ i, count (is_invoked i) (history x) ≤ 1)
     ∧ (count is_returned (history x) = 1 →
        ∀ i, i < next_id x →
          count (is_invoked i) (history x) = 1 ∨ In (ODestroyed i) (history x)))
  ∧ (∀ (w : world T) (this : Ex6.WorkerThread T) (block : bool) (s : nat) h st,
       jthreads w !! Ex6.mThread this = Some (JThread (Some s) h) →
       sstates w !! s = Some st →
       wp (request_stop (Some s) w)
          (λ o w', ∀ r, o = Ok r →
             r = negb (requested st) ∧ stop_requested (Some s) w' = true)
       ∧ wp (Ex4.stopThread (Ex6.mThread this) w)
            (λ o w', o = Ok tt → stop_requested (Some s) w' = true)
       ∧ wp (Ex6.stop this block w)
            (λ o w', o = Ok tt → stop_requested (Some s) w' = true)).
Proof.
  split.
  - apply single_winner.
  - intros w this block s h st Hj Hs. split; [|split].
    + by apply request_stop_sets_flag.
    + by eapply stopThread_sets_flag.
    + rewrite Ex6_stop_text. by eapply stop_text_sets_flag.
Qed.

(** C2. A callback registered when a stop was already requested is invoked
    by the constructor, before it returns, and never again.  Registered
    before any stop, it is stored, not invoked; as long as its handle is
    not destroyed, it is invoked inside the first successful
    request_stop(), after the flag is set and before that call returns.
    Under every schedule it runs at most once.  In the process,
    [addCallback] is that constructor on the token of [mThread]: on a
    requested state it invokes the action and then returns; otherwise it
    stores it; on a token without stop state it does nothing. *)
Theorem C2_callback_invoked_once :
  (∀ (cs cs' : list (call A)) (a : A),
     let x := sys_run cs sys_init in
     let id := next_id x in
     let x1 := sys_step (CRegister a) x in
     let y := sys_run cs' x1 in
     (requested (state x) = true →
        history x1 = history x ++ [OInvoked id a; ORegistered id]
        ∧ count (is_invoked id) (history y) = 1)
     ∧ (requested (state x) = false →
        (id, a) ∈ callbacks (state x1)
        ∧ history x1 = history x ++ [ORegistered id]
        ∧ (¬ In (CDestroy id) cs' → count is_returned (history y) = 1 →
           ∃ h1 h2 h3 h4,
             history y = h1 ++ OWon :: h2 ++ OInvoked id a :: h3 ++ OReturnedTrue :: h4
             ∧ count (is_invoked id) (history y) = 1))
     ∧ count (is_invoked id) (history y) ≤ 1)
  ∧ (∀ (w : world T) (this : Ex5.SimpleWorkerThrad) (cb : action T),
       Ex5.addCallback this cb w
       = stop_callback_ctor (get_stop_token (Ex5.mThread this) w) cb w
       ∧ stop_callback_ctor None cb w = Done None w
       ∧ ∀ s st, sstates w !! s = Some st →
           stop_callback_ctor (Some s) cb w
           = if requested st
             then Call cb (emit (EInvoke (next_cb w)) (set_next_cb (S (next_cb w)) w))
                       (λ w', Done (Some (s, next_cb w)) w')
             else Done (Some (s, next_cb w))
                    (set_next_cb (S (next_cb w))
                       (set_sstates
                          <[s := StopState false ((next_cb w, cb) :: callbacks st)]> w))).
Proof.
  split.
  - apply callback_invoked_once.
  - intros w this cb. split; [done|]. split; [done|].
    intros s st Hs. unfold stop_callback_ctor. rewrite Hs.
    unfold ss_register. by destruct (requested st).
Qed.

(** C8. Once the handle of a callback is destroyed its action is never
    invoked again, whatever is scheduled afterwards; destroyed before any
    stop was requested, it never runs at all; and under every schedule,
    also when the destruction races with request_stop(), the action runs
    at most once.  In the process, the destructor takes the callback out
    of the registry from which request_stop() takes the actions to
    invoke. *)
Theorem C8_destroyed_callback_never_runs :
  (∀ (cs cs' : list (call A)) (id : nat),
     let x := sys_run cs sys_init in
     let y := sys_run cs' (sys_step (CDestroy id) x) in
     id < next_id x →
     count (is_invoked id) (history y) = count (is_invoked id) (history x)
     ∧ (requested (state x) = false → count (is_invoked id) (history y) = 0)
     ∧ count (is_invoked id) (history y) ≤ 1)
  ∧ (∀ (w : world T) (s id : nat) st,
       sstates w !! s = Some st →
       sstates (stop_callback_dtor (Some (s, id)) w) !! s = Some (ss_deregister id st)
       ∧ ∀ a, (id, a) ∉ callbacks (ss_deregister id st)).
Proof.
  split.
  - apply destroyed_never_runs.
  - intros w s id st Hs. split.
    + simpl. rewrite Hs. simpl.
      apply list_lookup_insert_eq. by eapply lookup_lt_Some.
    + intros a [Hne _]%list_elem_of_filter. by apply Hne.
Qed.
End StopStateUse.

(** * The pool worker of ex7 *)

Section PoolWorkerTheory.
Context {T : Type}.
Implicit Types (w : world T) (tok : option nat).

Lemma thread_step_B7 (t : nat) fe tok w :
  threads w !! t = Some (Thread (B7_worker fe) tok true) →
  thread_step t w = Ex7.worker fe tok t w.
Proof. unfold thread_step. by intros ->. Qed.

(** The worker takes the front item: the queue is not empty, and either it
    must drain the queue or no stop was requested. *)
Lemma worker_takes fe tok (t : nat) v q w :
  taskQueue w = v :: q →
  fe && stop_requested tok w = false →
  Ex7.worker fe tok t w = Some (emit (EPop t v) (set_taskQueue q w)).
Proof.
  intros Hq Hfe. unfold Ex7.worker, cv_wait. rewrite Hq. simpl.
  destruct (stop_requested tok w); simpl; rewrite Hfe; done.
Qed.

(** The draining worker leaves once a stop was requested and the queue is
    empty. *)
Lemma worker_leaves_drained tok (t : nat) w :
  taskQueue w = [] → stop_requested tok w = true →
  Ex7.worker false tok t w = Some (exit_thread t w).
Proof.
  intros Hq Hrq. unfold Ex7.worker, cv_wait. by rewrite Hq, Hrq.
Qed.

(** The worker that may finish early leaves as soon as it sees the stop,
    whatever the queue holds. *)
Lemma worker_leaves_early tok (t : nat) w :
  stop_requested tok w = true →
  Ex7.worker true tok t w = Some (exit_thread t w).
Proof.
  intros Hrq. unfold Ex7.worker, cv_wait. rewrite Hrq. simpl.
  by rewrite orb_true_r.
Qed.

(** With nothing to do and no stop requested the worker blocks. *)
Lemma worker_blocks fe tok (t : nat) w :
  taskQueue w = [] → stop_requested tok w = false →
  Ex7.worker fe tok t w = None.
Proof.
  intros Hq Hrq. unfold Ex7.worker, cv_wait. by rewrite Hq, Hrq.
Qed.

(** A worker only leaves in one of the two ways above. *)
Lemma worker_inv fe tok (t : nat) w w' :
  Ex7.worker fe tok t w = Some w' →
  (w' = exit_thread t w
   ∧ stop_requested tok w = true
   ∧ (fe = false → taskQueue w = []))
  ∨ (∃ v q, taskQueue w = v :: q ∧ w' = emit (EPop t v) (set_taskQueue q w)).
Proof.
  unfold Ex7.worker, cv_wait.
  destruct (stop_requested tok w) eqn:Erq; simpl.
  - destruct (taskQueue w) as [|v q] eqn:Eq; simpl.
    + intros [= <-]. left. by repeat split.
    + destruct fe; simpl.
      * intros [= <-]. left. by repeat split.
      * intros [= <-]. right. by exists v, q.
  - destruct (taskQueue w) as [|v q] eqn:Eq; simpl; [done|].
    rewrite andb_false_r. simpl. intros [= <-]. right. by exists v, q.
Qed.

Lemma dequeued_by_emit_pop (t : nat) v q w :
  dequeued_by t (emit (EPop t v) (set_taskQueue q w)) = dequeued_by t w ++ [v].
Proof.
  unfold dequeued_by; simpl. rewrite omap_app. simpl. by rewrite Nat.eqb_refl.
Qed.

Lemma stop_requested_emit_pop tok (t : nat) v q w :
  stop_requested tok (emit (EPop t v) (set_taskQueue q w)) = stop_requested tok w.
Proof. done. Qed.

Lemma is_alive_exit (t : nat) w :
  is_alive t (exit_thread t w) = false.
Proof.
  unfold is_alive, exit_thread; simpl. rewrite list_lookup_alter_eq.
  by destruct (threads w !! t).
Qed.

(** C3. A worker that must drain the queue (finish_early = false), with a
    stop requested and [items] in the queue, nobody else touching the
    queue: its next rounds take exactly [items], front first, and the
    round after the last item is the one in which it leaves; before that
    it is alive, having taken a prefix of [items]. *)
Theorem C3_drains_queue_in_order (w : world T) (t s : nat) (items : list Z) :
  threads w !! t = Some (Thread (B7_worker false) (Some s) true) →
  stop_requested (Some s) w = true →
  taskQueue w = items →
  (∃ w', steps (S (length items)) t w = Some w'
         ∧ finished t w' = true
         ∧ taskQueue w' = []
         ∧ dequeued_by t w' = dequeued_by t w ++ items)
  ∧ (∀ n, n ≤ length items →
       ∃ wn, steps n t w = Some wn
             ∧ is_alive t wn = true
             ∧ dequeued_by t wn = dequeued_by t w ++ take n items
             ∧ taskQueue wn = drop n items).
Proof.
  revert w. induction items as [|v q IH]; intros w Ht Hrq Hq.
  - split.
    + exists (exit_thread t w). simpl.
      rewrite (thread_step_B7 t false (Some s) w Ht).
      rewrite worker_leaves_drained by done. simpl.
      repeat split.
      * apply finished_exit_thread_same. by apply lookup_lt_Some in Ht.
      * done.
      * by rewrite app_nil_r.
    + intros n Hn. simpl in Hn. assert (n = 0) as -> by lia.
      exists w. simpl. repeat split; [|by rewrite app_nil_r|done].
      unfold is_alive. by rewrite Ht.
  - set (w1 := emit (EPop t v) (set_taskQueue q w)).
    assert (Hstep : thread_step t w = Some w1).
    { rewrite (thread_step_B7 t false (Some s) w Ht). by apply worker_takes. }
    destruct (IH w1) as [(w' & Hs & Hf & Hq' & Hd) Hpre]; [done|done|done|].
    split.
    + exists w'. change (steps (S (length (v :: q))) t w)
        with (thread_step t w ≫= steps (S (length q)) t).
      rewrite Hstep. simpl. split; [done|]. split; [done|]. split; [done|].
      rewrite Hd. unfold w1. rewrite dequeued_by_emit_pop.
      by rewrite <-app_assoc.
    + intros [|n] Hn.
      * exists w. simpl. repeat split; [|by rewrite app_nil_r|done].
        unfold is_alive. by rewrite Ht.
      * simpl in Hn. destruct (Hpre n) as (wn & Hsn & Ha & Hdn & Hqn); [lia|].
        exists wn. simpl. rewrite Hstep. simpl. split; [done|]. split; [done|].
        split; [|done].
        rewrite Hdn. unfold w1. rewrite dequeued_by_emit_pop.
        by rewrite <-app_assoc.
Qed.

Lemma early_rounds (w : world T) (t s : nat) (items : list Z) (j : nat) :
  threads w !! t = Some (Thread (B7_worker true) (Some s) true) →
  stop_requested (Some s) w = false →
  taskQueue w = items →
  j ≤ length items →
  ∃ wj, steps j t w = Some wj
        ∧ threads wj = threads w
        ∧ sstates wj = sstates w
        ∧ taskQueue wj = drop j items
        ∧ dequeued_by t wj = dequeued_by t w ++ take j items.
Proof.
  revert w items. induction j as [|j IH]; intros w items Ht Hrq Hq Hj.
  - exists w. simpl. rewrite drop_0, app_nil_r. by repeat split.
  - destruct items as [|v q]; [simpl in Hj; lia|].
    set (w1 := emit (EPop t v) (set_taskQueue q w)).
    assert (Hstep : thread_step t w = Some w1).
    { rewrite (thread_step_B7 t true (Some s) w Ht). apply worker_takes; [done|].
      by rewrite Hrq. }
    destruct (IH w1 q) as (wj & Hs & Hth & Hss & Hqj & Hd);
      [done|done|done|simpl in Hj; lia|].
    exists wj. simpl. rewrite Hstep. simpl. repeat split; try done.
    rewrite Hd. unfold w1. rewrite dequeued_by_emit_pop.
    by rewrite <-app_assoc.
Qed.

(** C4. A worker that may finish early (finish_early = true), with
    [items] in the queue and nobody else touching it, takes the first [j]
    items while no stop is requested.  Once the stop is requested, its
    next round is not blocked: it leaves at once, whether items remain
    ([j] below the length) or the queue is empty, and takes no further
    item; so it took at most as many items as there were. *)
Theorem C4_finishes_early (w : world T) (t s : nat) (items : list Z) (j : nat) :
  threads w !! t = Some (Thread (B7_worker true) (Some s) true) →
  stop_requested (Some s) w = false →
  taskQueue w = items →
  j ≤ length items →
  ∃ wj, steps j t w = Some wj
        ∧ taskQueue wj = drop j items
        ∧ dequeued_by t wj = dequeued_by t w ++ take j items
        ∧ ∀ w1, threads w1 = threads wj → taskQueue w1 = taskQueue wj →
                trace w1 = trace wj → stop_requested (Some s) w1 = true →
                thread_step t w1 = Some (exit_thread t w1)
                ∧ finished t (exit_thread t w1) = true
                ∧ taskQueue (exit_thread t w1) = drop j items
                ∧ dequeued_by t (exit_thread t w1)
                  = dequeued_by t w ++ take j items
                ∧ length (take j items) ≤ length items.
Proof.
  intros Ht Hrq Hq Hj.
  destruct (early_rounds w t s items j Ht Hrq Hq Hj) as (wj & Hs & Hth & Hss & Hqj & Hd).
  exists wj. split; [done|]. split; [done|]. split; [done|].
  intros w1 Hth1 Hq1 Htr1 Hrq1.
  assert (Ht1 : threads w1 !! t = Some (Thread (B7_worker true) (Some s) true))
    by by rewrite Hth1, Hth.
  repeat split.
  - rewrite (thread_step_B7 t true (Some s) w1 Ht1). by apply worker_leaves_early.
  - apply finished_exit_thread_same. by apply lookup_lt_Some in Ht1.
  - simpl. by rewrite Hq1.
  - unfold dequeued_by in *. simpl. by rewrite Htr1.
  - rewrite length_take. lia.
Qed.
End PoolWorkerTheory.

(** * Killing the pool of ex7 *)

Section PoolTheory.
Context {T : Type}.
Implicit Types (w : world T) (tok : option nat).

Lemma same_shape_refl w : same_shape w w.
Proof.
  repeat split. intros t [b tok al] Ht. by exists al.
Qed.

Lemma same_shape_trans w1 w2 w3 :
  same_shape w1 w2 → same_shape w2 w3 → same_shape w1 w3.
Proof.
  intros (H1 & H2 & H3 & H4 & H5) (H1' & H2' & H3' & H4' & H5').
  repeat split; try congruence.
  intros t th Ht. destruct (H5 t th Ht) as [al Hal].
  destruct (H5' t _ Hal) as [al' Hal']. by exists al'.
Qed.

Lemma pushed_emit_pop (t : nat) v q w :
  pushed (emit (EPop t v) (set_taskQueue q w)) = pushed w.
Proof. unfold pushed; simpl. rewrite omap_app. simpl. by rewrite app_nil_r. Qed.

Lemma dequeued_emit_pop (t : nat) v q w :
  dequeued (emit (EPop t v) (set_taskQueue q w)) = dequeued w ++ [v].
Proof. unfold dequeued; simpl. by rewrite omap_app. Qed.

(** A step of a pool worker keeps [pool_base] and the shape. *)
Lemma pool_step (t : nat) w w' :
  pool_base w → thread_step t w = Some w' →
  pool_base w' ∧ same_shape w w'.
Proof.
  intros (Hb & Hd & Hf) Hstep. unfold thread_step in Hstep.
  destruct (threads w !! t) as [[b tok al]|] eqn:Et; [|done].
  simpl in Hstep. destruct al; [|done].
  destruct (Hb t _ Et) as [fe Hfe]. simpl in Hfe. subst b.
  apply worker_inv in Hstep as [(-> & Hrq & Hq)|(v & q & Hq & ->)].
  - assert (Hlk : ∀ t0 th', threads (exit_thread t w) !! t0 = Some th' →
              ∃ th, threads w !! t0 = Some th ∧ tbody th' = tbody th
                    ∧ (alive th' = false → t0 = t ∨ alive th = false)).
    { intros t0 th'. unfold exit_thread; simpl.
      destruct (decide (t = t0)) as [<-|Hne].
      - rewrite list_lookup_alter_eq, Et. simpl. intros [= <-].
        eexists. split; [done|]. split; [done|]. by left.
      - rewrite list_lookup_alter_ne by done. intros Hth.
        exists th'. split; [done|]. split; [done|]. by right. }
    split; [split; [|split]|].
    + intros t0 th' (th & Hth & -> & _)%Hlk. by eapply Hb.
    + intros t0 th' (th & Hth & Hbody & Hal)%Hlk Hb' Ha'. simpl.
      destruct (Hal Ha') as [->|Ha].
      * rewrite Et in Hth. injection Hth as <-. simpl in Hbody.
        rewrite Hb' in Hbody. injection Hbody as <-. by apply Hq.
      * eapply Hd; [done| |done]. by rewrite <-Hbody.
    + done.
    + repeat split; simpl.
      * by rewrite length_alter.
      * intros t0 th Hth. destruct (decide (t = t0)) as [<-|Hne].
        -- rewrite list_lookup_alter_eq, Hth. simpl. by eexists.
        -- rewrite list_lookup_alter_ne by done. destruct th. by eexists.
  - split; [split; [|split]|].
    + done.
    + intros t0 th Hth Hb' Ha'. simpl in Hth.
      rewrite (Hd t0 th Hth Hb' Ha') in Hq. done.
    + rewrite pushed_emit_pop, dequeued_emit_pop. simpl.
      rewrite Hf, Hq. by rewrite <-app_assoc.
    + repeat split; simpl.
      * apply pushed_emit_pop.
      * intros t0 [b tok' al] Hth. by exists al.
Qed.

Lemma pool_env w w' :
  pool_base w → env_star w w' → pool_base w' ∧ same_shape w w'.
Proof.
  intros Hb Henv. induction Henv as [w|w w1 w2 [t Hstep] _ IH].
  - split; [done|apply same_shape_refl].
  - destruct (pool_step t w w1 Hb Hstep) as [Hb1 Hs1].
    destruct (IH Hb1) as [Hb2 Hs2].
    split; [done|]. by eapply same_shape_trans.
Qed.

Lemma member_ok_shape extra th w w' :
  same_shape w w' → member_ok extra th w → member_ok extra th w'.
Proof.
  intros (Hs & Hj & _) [Hne (s & h & st & H1 & H2 & H3)].
  split; [done|]. exists s, h, st. by rewrite Hs, Hj.
Qed.

Lemma designated_ok_shape extra th w w' :
  same_shape w w' → designated_ok extra th w → designated_ok extra th w'.
Proof.
  intros (Hs & Hj & _) [Hne (s & h & id & H1 & H2)].
  split; [done|]. exists s, h, id. by rewrite Hs, Hj.
Qed.

Lemma extra_running_shape extra w w' :
  same_shape w w' → extra_running extra w → extra_running extra w'.
Proof.
  intros (Hs & Hj & _ & _ & Ht) (se & te & al & H1 & H2 & st & H3 & H4).
  destruct (Ht te _ H2) as [al' Hal']. simpl in Hal'.
  exists se, te, al'. rewrite Hs, Hj. split; [done|]. split; [done|]. by exists st.
Qed.

Lemma pool_killing_env extra rest w w' :
  pool_killing extra rest w → env_star w w' →
  pool_killing extra rest w' ∧ pushed w' = pushed w.
Proof.
  intros [Hb Hk] Henv. destruct (pool_env w w' Hb Henv) as [Hb' Hs].
  split; [|by destruct Hs as (_ & _ & ? & _)].
  split; [done|].
  destruct Hk as [(Hu & before & d & after & -> & H1 & H2 & H3)|[Hr Hm]].
  - left. split; [by destruct Hs as (_ & -> & _)|].
    exists before, d, after. split; [done|].
    split; [|split].
    + eapply Forall_impl; [done|]. intros th. by apply member_ok_shape.
    + by eapply designated_ok_shape.
    + eapply Forall_impl; [done|]. intros th. by apply member_ok_shape.
  - right. split; [by eapply extra_running_shape|].
    eapply Forall_impl; [done|]. intros th. by apply member_ok_shape.
Qed.

Lemma flags_only_refl w : flags_only w w.
Proof. repeat split. intros s st Hs. exists st. by split; [|left]. Qed.

Lemma stop_member extra th w :
  member_ok extra th w →
  ∃ w', Ex7.stop th false w = Done tt w' ∧ flags_only w w'.
Proof.
  intros [Hne (s & h & st & Hj & Hs & Hc)].
  unfold Ex7.stop, bind, gets, get_stop_token, get_stop_source. simpl.
  rewrite Hj. simpl. rewrite Hj. simpl.
  unfold request_stop. rewrite Hs. unfold ss_try_request.
  destruct (requested st) eqn:Erq; simpl.
  - exists w. split; [done|apply flags_only_refl].
  - rewrite Hc. simpl. eexists. split; [done|].
    repeat split. simpl. intros s' st' Hs'.
    destruct (decide (s = s')) as [<-|Hne'].
    + rewrite list_lookup_insert_eq by by eapply lookup_lt_Some.
      eexists. split; [done|]. right. rewrite Hs in Hs'. by injection Hs' as <-.
    + rewrite list_lookup_insert_ne by done. exists st'. by split; [|left].
Qed.

Lemma pool_base_flags w w' : flags_only w w' → pool_base w → pool_base w'.
Proof.
  intros (Hj & Ht & Hq & Htr & _) (Hb & Hd & Hf).
  unfold pool_base, pushed, dequeued. by rewrite Ht, Hq, Htr.
Qed.

Lemma member_ok_flags extra th w w' :
  flags_only w w' → member_ok extra th w → member_ok extra th w'.
Proof.
  intros (Hj & _ & _ & _ & Hs) [Hne (s & h & st & H1 & H2 & H3)].
  split; [done|]. destruct (Hs s st H2) as (st' & Hst' & Hor).
  exists s, h, st'. rewrite Hj. split; [done|]. split; [done|].
  by destruct Hor as [->|[_ ?]].
Qed.

Lemma designated_ok_flags extra th w w' :
  flags_only w w' → designated_ok extra th w → designated_ok extra th w'.
Proof.
  intros (Hj & _ & _ & _ & Hs) [Hne (s & h & id & H1 & H2)].
  split; [done|]. destruct (Hs s _ H2) as (st' & Hst' & [->|[? _]]); [|done].
  exists s, h, id. by rewrite Hj.
Qed.

Lemma extra_running_flags extra w w' :
  flags_only w w' → extra_running extra w → extra_running extra w'.
Proof.
  intros (Hj & Ht & _ & _ & Hs) (se & te & al & H1 & H2 & st & H3 & H4).
  destruct (Hs se st H3) as (st' & Hst' & Hor).
  exists se, te, al. rewrite Hj, Ht. split; [done|]. split; [done|].
  exists st'. split; [done|]. by destruct Hor as [->|[_ ?]].
Qed.

Lemma pushed_flags w w' : flags_only w w' → pushed w' = pushed w.
Proof. intros (_ & _ & _ & Htr & _). unfold pushed. by rewrite Htr. Qed.

(** Stopping the designated member fires the callback, which starts the
    extra thread. *)
Lemma stop_designated extra d w :
  Ex7.mFinishEarly extra = false →
  designated_ok extra d w →
  jthreads w !! Ex7.mThread extra = Some default_jthread →
  ∃ s id,
    sstates w !! s = Some (StopState false [(id, Ex7.lambda extra)])
    ∧ wp (Ex7.stop d false w)
        (λ o w', o = Ok tt
           ∧ jthreads w'
             = <[Ex7.mThread extra := JThread (Some (length (sstates w)))
                                              (Some (length (threads w)))]>
                 (jthreads w)
           ∧ threads w'
             = threads w ++ [Thread (B7_worker false) (Some (length (sstates w))) true]
           ∧ sstates w' = <[s := StopState true []]> (sstates w) ++ [ss_fresh]
           ∧ taskQueue w' = taskQueue w
           ∧ trace w' = trace w ++ [EInvoke id]).
Proof.
  intros Hfe [Hne (s & h & id & Hj & Hs)] Hu.
  exists s, id. split; [done|].
  unfold Ex7.stop, bind, gets, get_stop_token, get_stop_source. simpl.
  rewrite Hj. simpl. rewrite Hj. simpl.
  unfold request_stop. rewrite Hs. unfold ss_try_request. simpl.
  rewrite list_lookup_insert_eq by by eapply lookup_lt_Some.
  simpl. apply wp_call.
  unfold Ex7.lambda. rewrite Hfe. simpl.
  unfold jthread_start, bind, jthread_ctor. simpl.
  unfold jthread_move_assign, bind, gets, joinable. simpl.
  rewrite Hu. simpl. apply wp_done. apply wp_done.
  simpl. rewrite !length_insert. rewrite list_insert_insert_eq. by repeat split.
Qed.

(** One round of the loop that kills the pool. *)
Lemma kill_step extra th rest w :
  Ex7.mFinishEarly extra = false →
  pool_killing extra (th :: rest) w →
  wp (Ex7.stop th false w)
     (λ o w', o = Ok tt ∧ pool_killing extra rest w' ∧ pushed w' = pushed w).
Proof.
  intros Hfe [Hb [(Hu & before & d & after & Hrest & H1 & H2 & H3)|[Hr Hm]]].
  - destruct before as [|b before]; simpl in Hrest; injection Hrest as -> ->.
    + (* the designated member *)
      destruct (stop_designated extra d w Hfe H2 Hu) as (s & id & Hs & Hwp).
      eapply wp_mono; [|exact Hwp]. simpl.
      intros o w' (-> & Hj' & Ht' & Hs' & Hq' & Htr').
      assert (Hp : pushed w' = pushed w).
      { unfold pushed. rewrite Htr', omap_app. simpl. by rewrite app_nil_r. }
      assert (Hdq : dequeued w' = dequeued w).
      { unfold dequeued. rewrite Htr', omap_app. simpl. by rewrite app_nil_r. }
      split; [done|]. split; [|done]. destruct Hb as (Hbod & Hdr & Hf).
      split; [split; [|split]|].
      * intros t th. rewrite Ht'. intros [[_ Hth]|[_ <-]]%lookup_snoc_Some.
        -- by eapply Hbod.
        -- by eexists.
      * intros t th. rewrite Ht', Hq'.
        intros [[_ Hth]|[_ <-]]%lookup_snoc_Some; [|done]. by eapply Hdr.
      * by rewrite Hp, Hdq, Hq'.
      * right. split.
        -- exists (length (sstates w)), (length (threads w)), true.
           rewrite Hj', Ht', Hs'. split; [|split].
           ++ apply list_lookup_insert_eq. by eapply lookup_lt_Some.
           ++ by rewrite list_lookup_middle.
           ++ exists ss_fresh. split; [|done].
              rewrite list_lookup_middle; [done|]. by rewrite length_insert.
        -- eapply Forall_impl; [exact H3|].
           intros th [Hne (s1 & h1 & st1 & Hj1 & Hs1 & Hc1)].
           split; [done|]. exists s1, h1, st1. rewrite Hj', Hs'.
           split; [by rewrite list_lookup_insert_ne|]. split; [|done].
           apply lookup_app_l_Some.
           rewrite list_lookup_insert_ne; [done|].
           intros ->. rewrite Hs in Hs1. injection Hs1 as <-. done.
    + (* a member before the designated one *)
      apply Forall_cons in H1 as [Hb1 H1].
      destruct (stop_member extra b w Hb1) as (w' & -> & Hfl).
      apply wp_done. split; [done|]. split; [|by apply pushed_flags].
      split; [by eapply pool_base_flags|]. left.
      split; [by destruct Hfl as (-> & _)|].
      exists before, d, after. split; [done|]. split; [|split].
      * eapply Forall_impl; [exact H1|]. intros ?. by apply member_ok_flags.
      * by eapply designated_ok_flags.
      * eapply Forall_impl; [exact H3|]. intros ?. by apply member_ok_flags.
  - apply Forall_cons in Hm as [Hm1 Hm].
    destruct (stop_member extra th w Hm1) as (w' & -> & Hfl).
    apply wp_done. split; [done|]. split; [|by apply pushed_flags].
    split; [by eapply pool_base_flags|]. right.
    split; [by eapply extra_running_flags|].
    eapply Forall_impl; [exact Hm|]. intros ?. by apply member_ok_flags.
Qed.

Lemma kill_loop extra rest w :
  Ex7.mFinishEarly extra = false →
  pool_killing extra rest w →
  wp (for_each rest (λ thread, yield ;;; Ex7.stop thread false)%prog w)
     (λ o w', o = Ok tt ∧ pool_base w' ∧ extra_running extra w'
              ∧ pushed w' = pushed w).
Proof.
  intros Hfe. revert w. induction rest as [|th rest IH]; intros w Hk.
  - simpl. apply wp_done. split; [done|].
    destruct Hk as [Hb [(_ & before & d & after & Hrest & _)|[Hr _]]].
    + by destruct before.
    + done.
  - simpl. unfold bind at 1. unfold bind at 1. unfold yield. simpl.
    apply wp_wait. intros w1 Henv _.
    destruct (pool_killing_env _ _ _ _ Hk Henv) as [Hk1 Hp1].
    apply wp_bind. eapply wp_mono; [|by apply (kill_step extra th rest w1)].
    simpl. intros o w2 (-> & Hk2 & Hp2).
    eapply wp_mono; [|by apply IH]. simpl.
    intros o w3 (-> & Hb3 & Hr3 & Hp3).
    split; [done|]. split; [done|]. split; [done|]. congruence.
Qed.

End PoolTheory.

(** * Building the pool of ex7 *)

Section PoolSetupTheory.
Context {T : Type}.
Implicit Types (w : world T).

Lemma pool_setup_text (threadCount : Z) :
  Ex7.pool_setup (T:=T) threadCount
  = (extraThread <- Ex7.WorkerThread_ctor false ;;
     threads <- map_each (seqZ 0 threadCount)
                  (pool_member_text extraThread (Z.quot threadCount 2)) ;;
     yield ;;;
     for_each (reverse (seqZ 1 (threadCount * 10))) pool_push_text ;;;
     (if Z.eqb threadCount 0 then throw DivideByZero else ret tt) ;;;
     yield ;;;
     ret (extraThread, threads))%prog.
Proof. done. Qed.

Lemma start_unstarted (th : Ex7.WorkerThread) w :
  jthreads w !! Ex7.mThread th = Some default_jthread →
  Ex7.start th w
  = Done tt
      (set_jthreads <[Ex7.mThread th := JThread (Some (length (sstates w)))
                                                (Some (length (threads w)))]>
         (set_threads (λ l, l ++ [Thread (B7_worker (Ex7.mFinishEarly th))
                                    (Some (length (sstates w))) true])
            (set_sstates (λ l, l ++ [ss_fresh]) w))).
Proof.
  intros Hj. unfold Ex7.start, bind, jthread_ctor. simpl.
  unfold jthread_move_assign, bind, gets, joinable. simpl.
  by rewrite Hj.
Qed.

Lemma addCallback_registers (th : Ex7.WorkerThread) (cb : action T) s h cbs w :
  jthreads w !! Ex7.mThread th = Some (JThread (Some s) h) →
  sstates w !! s = Some (StopState false cbs) →
  Ex7.addCallback th cb w
  = Done (Some (s, next_cb w))
      (set_next_cb (S (next_cb w))
         (set_sstates <[s := StopState false ((next_cb w, cb) :: cbs)]> w)).
Proof.
  intros Hj Hs. unfold Ex7.addCallback, bind, gets, get_stop_token. simpl.
  rewrite Hj. simpl. by rewrite Hs.
Qed.

Lemma pool_built_base has_cb i w : pool_built has_cb i w → pool_base w.
Proof.
  intros (_ & _ & _ & _ & _ & _ & Hb & Hf). split; [|split; [|done]].
  - intros t th Ht. exists true. by eapply Hb.
  - intros t th Ht Hb'. by rewrite (Hb t th Ht) in Hb'.
Qed.

Lemma pool_built_env has_cb i w w' :
  pool_built has_cb i w → env_star w w' →
  pool_built has_cb i w' ∧ pushed w' = pushed w.
Proof.
  intros Hpb Henv.
  destruct (pool_env w w' (pool_built_base _ _ _ Hpb) Henv)
    as [(_ & _ & Hf') (Hs & Hj & Hp & Hl & Hth)].
  destruct Hpb as (H1 & H2 & H3 & H4 & H5 & H6 & H7 & H8).
  split; [|done]. unfold pool_built. rewrite Hs, Hj, Hl.
  repeat split; try done.
  intros t th' Ht'.
  destruct (threads w !! t) as [th|] eqn:Et.
  - destruct (Hth t th Et) as [al Hal]. rewrite Hal in Ht'.
    injection Ht' as <-. simpl. by eapply H7.
  - apply lookup_ge_None in Et. apply lookup_lt_Some in Ht'. lia.
Qed.

Lemma pool_built_ext (f g : nat → bool) i w :
  (∀ j, j < i → f j = g j) → pool_built f i w → pool_built g i w.
Proof.
  intros Hfg (H1 & H2 & H3 & H4 & H5 & H6 & H7 & H8).
  repeat split; try done.
  intros j Hj. destruct (H6 j Hj) as (cbs & Hs & Hc).
  exists cbs. split; [done|]. by rewrite <-Hfg.
Qed.

(** One round of the loop that builds the pool. *)
Lemma create_one (threadCount : Z) (i : nat) w :
  pool_built (special threadCount) i w →
  wp (pool_member_text ex7_extra (Z.quot threadCount 2) (Z.of_nat i) w)
     (λ o w', o = Ok {| Ex7.mFinishEarly := true; Ex7.mThread := S i |}
              ∧ pool_built (special threadCount) (S i) w'
              ∧ pushed w' = pushed w).
Proof.
  intros Hpb.
  pose proof Hpb as (H1 & H2 & H3 & H4 & H5 & H6 & H7 & H8).
  unfold pool_member_text, bind, Ex7.WorkerThread_ctor, bind, jthread_new, ret.
  simpl. rewrite H1.
  rewrite start_unstarted by (simpl; rewrite <-H1; apply list_lookup_middle; done).
  simpl. unfold yield. simpl. rewrite H2, H3.
  set (w1 := set_jthreads _ _).
  assert (Hw1 : pool_built (λ j, special threadCount j && negb (j =? i)) (S i) w1).
  { unfold w1. repeat split; simpl.
    - by rewrite length_insert, length_app, H1, Nat.add_comm.
    - by rewrite length_app, H2, Nat.add_comm.
    - by rewrite length_app, H3, Nat.add_comm.
    - rewrite list_lookup_insert_ne by done. by apply lookup_app_l_Some.
    - intros j Hj. destruct (decide (j = i)) as [->|Hne].
      + apply list_lookup_insert_eq. rewrite length_app, H1. simpl. lia.
      + rewrite list_lookup_insert_ne by lia.
        apply lookup_app_l_Some. apply H5. lia.
    - intros j Hj. destruct (decide (j = i)) as [->|Hne].
      + exists []. rewrite <-H2 at 1. rewrite list_lookup_middle by done.
        split; [done|]. rewrite Nat.eqb_refl. by rewrite andb_false_r.
      + destruct (H6 j) as (cbs & Hs & Hc); [lia|].
        exists cbs. split; [by apply lookup_app_l_Some|].
        apply Nat.eqb_neq in Hne. rewrite Hne. by rewrite andb_true_r.
    - intros t th [[_ Hth]|[_ <-]]%lookup_snoc_Some; [by eapply H7|done].
    - done. }
  assert (Hp1 : pushed w1 = pushed w) by done.
  clearbody w1. clear H1 H2 H3 H4 H5 H6 H7 H8 Hpb.
  apply wp_wait. intros w2 Henv _.
  destruct (pool_built_env _ _ _ _ Hw1 Henv) as [Hw2 Hp2].
  pose proof Hw2 as (H1 & H2 & H3 & H4 & H5 & H6 & H7 & H8).
  destruct (Z.eqb_spec (Z.of_nat i) (Z.quot threadCount 2)) as [Hsp|Hsp].
  - destruct (H6 i) as (cbs & Hs & Hc); [lia|].
    rewrite Nat.eqb_refl, andb_false_r in Hc. subst cbs.
    rewrite (addCallback_registers _ _ i (Some i) [] w2); [|by apply H5; lia|done].
    simpl. apply wp_done. split; [done|]. split; [|by rewrite <-Hp1, <-Hp2].
    repeat split; simpl; try done.
    + by rewrite length_insert.
    + intros j Hj. destruct (decide (j = i)) as [->|Hne].
      * eexists. rewrite list_lookup_insert_eq by lia. split; [done|].
        unfold special. rewrite bool_decide_eq_true_2 by done. by eexists.
      * rewrite list_lookup_insert_ne by done.
        destruct (H6 j Hj) as (cbs & Hs' & Hc').
        exists cbs. split; [done|].
        apply Nat.eqb_neq in Hne. rewrite Hne in Hc'. by rewrite andb_true_r in Hc'.
  - simpl. apply wp_done. split; [done|]. split; [|by rewrite <-Hp1, <-Hp2].
    eapply pool_built_ext; [|exact Hw2].
    intros j Hj. simpl. destruct (Nat.eqb_spec j i) as [->|Hne]; simpl.
    + rewrite andb_false_r. unfold special. by rewrite bool_decide_eq_false_2.
    + by rewrite andb_true_r.
Qed.

Lemma create_loop (threadCount : Z) (n i : nat) w :
  pool_built (special threadCount) i w →
  wp (map_each (seqZ (Z.of_nat i) (Z.of_nat n))
        (pool_member_text ex7_extra (Z.quot threadCount 2)) w)
     (λ o w', o = Ok ((λ j, {| Ex7.mFinishEarly := true; Ex7.mThread := S j |})
                        <$> seq i n)
              ∧ pool_built (special threadCount) (i + n) w'
              ∧ pushed w' = pushed w).
Proof.
  revert i w. induction n as [|n IH]; intros i w Hpb.
  - rewrite seqZ_nil by done. simpl. apply wp_done.
    rewrite Nat.add_0_r. by split; [|split].
  - rewrite seqZ_cons by lia.
    replace (Z.succ (Z.of_nat i)) with (Z.of_nat (S i)) by lia.
    replace (Z.pred (Z.of_nat (S n))) with (Z.of_nat n) by lia.
    simpl. unfold bind at 1. apply wp_bind.
    eapply wp_mono; [|by apply create_one]. simpl.
    intros o w1 (-> & Hpb1 & Hp1).
    unfold bind at 1. apply wp_bind.
    eapply wp_mono; [|by apply IH]. simpl.
    intros o w2 (-> & Hpb2 & Hp2). apply wp_done.
    split; [done|]. split; [by rewrite <-Nat.add_succ_comm|congruence].
Qed.

Lemma pushed_push (v : Z) w :
  pushed (emit ENotifyOne (emit (EPush v) (set_taskQueue (taskQueue w ++ [v]) w)))
  = pushed w ++ [v].
Proof.
  unfold pushed; simpl. rewrite !omap_app. simpl. by rewrite app_nil_r.
Qed.

Lemma dequeued_push (v : Z) w :
  dequeued (emit ENotifyOne (emit (EPush v) (set_taskQueue (taskQueue w ++ [v]) w)))
  = dequeued w.
Proof.
  unfold dequeued; simpl. rewrite !omap_app. simpl. by rewrite !app_nil_r.
Qed.

Lemma push_loop has_cb n (l : list Z) w :
  pool_built has_cb n w →
  wp (for_each l pool_push_text w)
     (λ o w', o = Ok tt ∧ pool_built has_cb n w' ∧ pushed w' = pushed w ++ l).
Proof.
  revert w. induction l as [|v l IH]; intros w Hpb.
  - simpl. apply wp_done. rewrite app_nil_r. by split; [|split].
  - simpl. unfold bind at 1. unfold pool_push_text at 1.
    unfold bind at 1. unfold yield. simpl.
    apply wp_wait. intros w1 Henv _.
    destruct (pool_built_env _ _ _ _ Hpb Henv) as [Hpb1 Hp1].
    unfold Ex7.push, modify. simpl.
    eapply wp_mono; [|apply IH].
    + simpl. intros o w2 (-> & Hpb2 & Hp2). split; [done|]. split; [done|].
      rewrite Hp2, pushed_push, Hp1. by rewrite <-app_assoc.
    + destruct Hpb1 as (H1 & H2 & H3 & H4 & H5 & H6 & H7 & H8).
      repeat split; try done.
      rewrite pushed_push, dequeued_push. simpl. rewrite H8.
      by rewrite <-app_assoc.
Qed.

Lemma world0_built has_cb : pool_built has_cb 0 (set_jthreads (λ l, l ++ [default_jthread]) (@world0 T)).
Proof.
  repeat split; simpl; try done; intros; lia.
Qed.

(** The pool as built is ready to be killed. *)
Lemma pool_built_ready (threadCount : Z) w :
  (0 < threadCount)%Z →
  pool_built (special threadCount) (Z.to_nat threadCount) w →
  pool_ready ((λ j, {| Ex7.mFinishEarly := true; Ex7.mThread := S j |})
                <$> seq 0 (Z.to_nat threadCount)) ex7_extra w.
Proof.
  intros Hn Hpb. pose proof (pool_built_base _ _ _ Hpb) as Hb.
  destruct Hpb as (H1 & H2 & H3 & H4 & H5 & H6 & H7 & H8).
  split; [done|]. split; [done|]. split; [done|].
  set (k := Z.to_nat (Z.quot threadCount 2)).
  assert (Hk : k < Z.to_nat threadCount).
  { unfold k. apply Z2Nat.inj_lt; [apply Z.quot_pos; lia|lia|].
    apply Z.quot_lt; lia. }
  assert (Hkq : Z.of_nat k = Z.quot threadCount 2).
  { unfold k. apply Z2Nat.id. apply Z.quot_pos; lia. }
  assert (Hmem : ∀ j, j < Z.to_nat threadCount → j ≠ k →
            member_ok ex7_extra {| Ex7.mFinishEarly := true; Ex7.mThread := S j |} w).
  { intros j Hj Hne. split; [done|].
    destruct (H6 j Hj) as (cbs & Hs & Hc).
    unfold special in Hc. rewrite bool_decide_eq_false_2 in Hc by lia. subst cbs.
    exists j, (Some j), (StopState false []). simpl. split; [by apply H5|done]. }
  exists ((λ j, {| Ex7.mFinishEarly := true; Ex7.mThread := S j |}) <$> seq 0 k),
         {| Ex7.mFinishEarly := true; Ex7.mThread := S k |},
         ((λ j, {| Ex7.mFinishEarly := true; Ex7.mThread := S j |})
            <$> seq (S k) (Z.to_nat threadCount - S k)).
  split; [|split; [|split]].
  - replace (Z.to_nat threadCount) with (k + S (Z.to_nat threadCount - S k)) at 1 by lia.
    rewrite seq_app, fmap_app. simpl. done.
  - apply Forall_fmap, Forall_forall. intros j Hj%elem_of_seq. simpl.
    apply Hmem; lia.
  - split; [done|]. destruct (H6 k Hk) as (cbs & Hs & Hc).
    unfold special in Hc. rewrite bool_decide_eq_true_2 in Hc by done.
    destruct Hc as [id ->]. exists k, (Some k), id. simpl.
    split; [by apply H5|done].
  - apply Forall_fmap, Forall_forall. intros j Hj%elem_of_seq. simpl.
    apply Hmem; lia.
Qed.



End PoolSetupTheory.

(** * The scheduler produces runs *)

Section ExecTheory.
Context {T : Type}.
Implicit Types (w : world T).

Lemma run_threads_env ts w w' : run_threads ts w = Some w' → env_star w w'.
Proof.
  revert w. induction ts as [|t ts IH]; simpl; intros w.
  - intros [= <-]. apply rtc_refl.
  - destruct (thread_step t w) as [w1|] eqn:E; simpl; [|done].
    intros Hr. eapply rtc_l; [by exists t|]. by apply IH.
Qed.

Lemma ready_b_ready c w : ready_b c w = true → ready c w.
Proof. by destruct c. Qed.

Lemma exec_runs n R sch (x : res T R) o w sch' :
  exec n sch x = Some (o, w, sch') → runs x o w.
Proof.
  revert R sch x o w sch'. induction n as [|n IH]; [done|].
  intros R sch [r w0|e w0|c w0 k|a w0 k] o w sch'; simpl.
  - intros [= <- <- <-]. constructor.
  - intros [= <- <- <-]. constructor.
  - destruct (run_threads (hd [] sch) w0) as [w1|] eqn:E1; [|done].
    destruct (ready_b c w1) eqn:E2; [|done].
    intros Hk. eapply runs_wait; [by eapply run_threads_env|by apply ready_b_ready|].
    by eapply IH.
  - destruct (exec n sch (invoke a w0)) as [[[[[]|e] w1] sch1]|] eqn:E1; [| |done].
    + intros Hk. eapply runs_call; by eapply IH.
    + intros [= <- <- <-]. eapply runs_call_exn. by eapply IH.
Qed.
End ExecTheory.

(** * Joining, stopping twice, destroying: the edges of the worker classes *)

Section WorkerEdges.
Context {T : Type}.
Implicit Types (w : world T).

Lemma joinable_insert (jt : nat) src h w :
  jt < length (jthreads w) →
  joinable jt (set_jthreads <[jt := JThread src h]> w)
  = match h with Some _ => true | None => false end.
Proof.
  intros Hlt. unfold joinable. simpl. by rewrite list_lookup_insert_eq.
Qed.

Lemma join_text_unjoinable (jt : nat) w :
  joinable jt w = false → join_text jt w = Done tt w.
Proof. unfold join_text, bind, gets; simpl. by intros ->. Qed.

Lemma join_text_waits (jt t : nat) src w :
  jthreads w !! jt = Some (JThread src (Some t)) →
  wp (join_text jt w)
     (λ o w', o = Ok tt
              ∧ finished t w' = true
              ∧ jthreads w' = <[jt := JThread src None]> (jthreads w)
              ∧ join_text jt w' = Done tt w').
Proof.
  intros Hj. unfold join_text at 1, bind, gets, joinable; simpl.
  rewrite Hj; simpl. unfold jthread_join. rewrite Hj.
  apply wp_wait. intros w1 Henv Hready. simpl in Hready.
  apply wp_done.
  destruct (env_star_frame _ _ Henv) as (Hj1 & _ & _).
  split; [done|]. split; [done|]. split; [by simpl; rewrite Hj1|].
  apply join_text_unjoinable. rewrite joinable_insert; [done|].
  rewrite Hj1. by eapply lookup_lt_Some.
Qed.

(** X1. [join()] of the three worker classes never throws.  On a worker
    whose jthread is not joinable (never started, or already joined) it
    returns at once and changes nothing.  On a started worker it returns
    only when the thread has returned; the jthread keeps its stop state
    and is no longer joinable, so that a second [join()] changes nothing. *)
Theorem join_waits_once (w : world T)
    (s5 : Ex5.SimpleWorkerThrad) (s6 : Ex6.WorkerThread T) (s7 : Ex7.WorkerThread) :
  (joinable (Ex5.mThread s5) w = false → Ex5.join s5 w = Done tt w)
  ∧ (joinable (Ex6.mThread s6) w = false → Ex6.join s6 w = Done tt w)
  ∧ (joinable (Ex7.mThread s7) w = false → Ex7.join s7 w = Done tt w)
  ∧ (∀ src t, jthreads w !! Ex5.mThread s5 = Some (JThread src (Some t)) →
       wp (Ex5.join s5 w)
          (λ o w', o = Ok tt
                   ∧ finished t w' = true
                   ∧ jthreads w' = <[Ex5.mThread s5 := JThread src None]> (jthreads w)
                   ∧ Ex5.join s5 w' = Done tt w'))
  ∧ (∀ src t, jthreads w !! Ex6.mThread s6 = Some (JThread src (Some t)) →
       wp (Ex6.join s6 w)
          (λ o w', o = Ok tt
                   ∧ finished t w' = true
                   ∧ jthreads w' = <[Ex6.mThread s6 := JThread src None]> (jthreads w)
                   ∧ Ex6.join s6 w' = Done tt w'))
  ∧ (∀ src t, jthreads w !! Ex7.mThread s7 = Some (JThread src (Some t)) →
       wp (Ex7.join s7 w)
          (λ o w', o = Ok tt
                   ∧ finished t w' = true
                   ∧ jthreads w' = <[Ex7.mThread s7 := JThread src None]> (jthreads w)
                   ∧ Ex7.join s7 w' = Done tt w')).
Proof.
  change (Ex5.join s5) with (join_text (T:=T) (Ex5.mThread s5)).
  change (Ex6.join s6) with (join_text (T:=T) (Ex6.mThread s6)).
  change (Ex7.join s7) with (join_text (T:=T) (Ex7.mThread s7)).
  split; [by apply join_text_unjoinable|].
  split; [by apply join_text_unjoinable|].
  split; [by apply join_text_unjoinable|].
  split; [|split]; intros src t Hj; by apply join_text_waits.
Qed.

(** With no callback registered, [request_stop] only sets the flag. *)
Lemma request_stop_quiet (s : nat) st w :
  sstates w !! s = Some st → callbacks st = [] →
  request_stop (Some s) w
  = Done (negb (requested st)) (set_sstates <[s := StopState true []]> w).
Proof.
  intros Hs Hc. unfold request_stop. rewrite Hs. unfold ss_try_request.
  destruct st as [[] cbs]; simpl in *; subst cbs; [|done].
  f_equal. destruct w as [ss n js ts cs q tr]; unfold set_sstates; simpl in *.
  f_equal. symmetry. by apply list_insert_id.
Qed.

Lemma stop_requested_set (s : nat) cbs w :
  s < length (sstates w) →
  stop_requested (Some s) (set_sstates <[s := StopState true cbs]> w) = true.
Proof.
  intros Hlt. unfold stop_requested. simpl. by rewrite list_lookup_insert_eq.
Qed.

Lemma stop_text_block_quiet (jt s t : nat) st w :
  jthreads w !! jt = Some (JThread (Some s) (Some t)) →
  sstates w !! s = Some st → callbacks st = [] →
  wp (stop_text jt true w)
     (λ o w', o = Ok tt
              ∧ finished t w' = true
              ∧ jthreads w' = <[jt := JThread (Some s) None]> (jthreads w)
              ∧ stop_requested (Some s) w' = true).
Proof.
  intros Hj Hs Hc. unfold stop_text, bind, gets, get_stop_token, get_stop_source.
  simpl. rewrite Hj. simpl. rewrite Hj. simpl.
  rewrite (request_stop_quiet s st) by done. simpl.
  unfold jthread_join. simpl. rewrite Hj.
  apply wp_wait. intros w1 Henv Hready. simpl in Hready.
  apply wp_done.
  destruct (env_star_frame _ _ Henv) as (Hj1 & _ & _).
  split; [done|]. split; [done|]. split; [by simpl; rewrite Hj1|].
  apply (env_star_requested (Some s)) in Henv.
  - unfold stop_requested in *. by simpl in *.
  - apply stop_requested_set. by eapply lookup_lt_Some.
Qed.

Lemma stop_text_block_twice (jt s t : nat) st w :
  jthreads w !! jt = Some (JThread (Some s) (Some t)) →
  sstates w !! s = Some st →
  callbacks st = [] →
  wp (stop_text jt true w) (joined_by (stop_text jt) (join_text jt) t).
Proof.
  intros Hj Hs Hc.
  eapply wp_mono; [|by eapply stop_text_block_quiet].
  simpl. intros o w' (-> & Hfin & Hj' & Hrq).
  assert (Hlt : jt < length (jthreads w)) by by eapply lookup_lt_Some.
  assert (Hj1 : jthreads w' !! jt = Some (JThread (Some s) None)).
  { rewrite Hj'. by apply list_lookup_insert_eq. }
  split; [done|]. split; [done|]. split; [|split].
  - by eapply stop_text_block_after_join.
  - apply stop_text_again. unfold get_stop_token. by rewrite Hj1.
  - apply join_text_unjoinable. unfold joinable. by rewrite Hj1.
Qed.

(** X2. Blocking [stop] is not idempotent.  On a started worker with no
    stop callback registered, [stop(true)] returns when the thread has
    returned; a second [stop(true)] then reaches the unguarded
    [mThread.join()] on a jthread that is no longer joinable and throws
    [std::system_error], while [join()] and [stop()] without [block]
    return normally.  The three classes behave alike. *)
Theorem stop_block_twice_throws (w : world T)
    (s5 : Ex5.SimpleWorkerThrad) (s6 : Ex6.WorkerThread T) (s7 : Ex7.WorkerThread) :
  (∀ s t st, jthreads w !! Ex5.mThread s5 = Some (JThread (Some s) (Some t)) →
     sstates w !! s = Some st → callbacks st = [] →
     wp (Ex5.stop s5 true w) (joined_by (Ex5.stop s5) (Ex5.join s5) t))
  ∧ (∀ s t st, jthreads w !! Ex6.mThread s6 = Some (JThread (Some s) (Some t)) →
     sstates w !! s = Some st → callbacks st = [] →
     wp (Ex6.stop s6 true w) (joined_by (Ex6.stop s6) (Ex6.join s6) t))
  ∧ (∀ s t st, jthreads w !! Ex7.mThread s7 = Some (JThread (Some s) (Some t)) →
     sstates w !! s = Some st → callbacks st = [] →
     wp (Ex7.stop s7 true w) (joined_by (Ex7.stop s7) (Ex7.join s7) t)).
Proof.
  split; [|split]; intros s t st Hj Hs Hc; by eapply stop_text_block_twice.
Qed.
End WorkerEdges.

(** * Invariants that callbacks and threads cannot break *)

Section StableTheory.
Context {T : Type}.
Implicit Types (w : world T).

(** A step of thread [t0] changes no other entry of the thread table. *)
Lemma thread_step_threads (t0 : nat) w w' :
  thread_step t0 w = Some w' →
  ∃ f, threads w' = alter f t0 (threads w).
Proof.
  unfold thread_step. destruct (threads w !! t0) as [[b tok al]|] eqn:Et; [|done].
  simpl. destruct al; [|done].
  assert (Hid : threads w = alter id t0 (threads w)).
  { symmetry. apply list_alter_id. done. }
  destruct b as [cb|jt token|i|d cv tc st|fe]; simpl.
  - unfold Ex3.worker. destruct cb as [h|].
    + destruct (stop_requested tok w); intros [= <-]; [|by exists id].
      destruct (stop_callback_dtor_frame h w) as (_ & Ht & _).
      eexists. simpl. by rewrite Ht.
    + destruct (thread_stop_callback_ctor tok SLog w) as [h w1] eqn:E.
      intros [= <-].
      pose proof (thread_stop_callback_ctor_frame tok SLog w) as (_ & Ht & _).
      rewrite E in Ht. simpl in Ht. eexists. simpl. by rewrite Ht.
  - unfold Ex5.interruptableWorker. destruct token as [token|].
    + destruct (stop_requested token w); intros [= <-]; [|by exists id].
      by eexists.
    + intros [= <-]. by eexists.
  - unfold Ex5.uninterruptableWorker. destruct (i <? 20); intros [= <-]; by eexists.
  - unfold Ex6.worker. destruct st as [h|].
    + destruct (stop_requested tok w || _); intros [= <-].
      destruct (stop_callback_dtor_frame h w) as (_ & Ht & _).
      eexists. simpl. by rewrite Ht.
    + destruct (thread_stop_callback_ctor tok (SNotifyAll cv) w) as [h w1] eqn:E.
      intros [= <-].
      pose proof (thread_stop_callback_ctor_frame tok (SNotifyAll cv) w) as (_ & Ht & _).
      rewrite E in Ht. simpl in Ht. eexists. simpl. by rewrite Ht.
  - unfold Ex7.worker. destruct (cv_wait tok _ w) as [r|]; [|done].
    destruct (negb r || _).
    + intros [= <-]. by eexists.
    + destruct (taskQueue w) as [|v q]; [done|]. intros [= <-]. by exists id.
Qed.

Lemma thread_step_others (t0 t : nat) w w' :
  thread_step t0 w = Some w' → t ≠ t0 → threads w' !! t = threads w !! t.
Proof.
  intros [f ->]%thread_step_threads Hne. by apply list_lookup_alter_ne.
Qed.

Lemma stable_request_stop (Inv : world T → Prop) (HInv : stable Inv)
    (Q : result bool → world T → Prop) src w :
  Inv w →
  (∀ r w', Inv w' → Q (Ok r) w') →
  (∀ e w', Q (Exn e) w') →
  safe (λ _, Inv) (λ _ _, Inv) Q (request_stop src w).
Proof.
  intros Hw Hf He. apply safe_request_stop_gen; try done.
  - intros s w0 id a st _ Hw0 _. by apply HInv, HInv.
  - intros s w0 st _ Hw0 _. by apply HInv.
  - intros w0 w1 Hw0 Henv. by apply (stable_env _ HInv w0 w1).
Qed.

Lemma stable_jthread_join (Inv : world T → Prop) (HInv : stable Inv)
    (Hjoin : join_stable Inv) (Q : result unit → world T → Prop) jt w :
  Inv w →
  (∀ w', Inv w' → Q (Ok tt) w') →
  (∀ e w', Q (Exn e) w') →
  safe (λ _, Inv) (λ _ _, Inv) Q (jthread_join jt w).
Proof.
  intros Hw Hf He. unfold jthread_join.
  destruct (jthreads w !! jt) as [[src [t'|]]|]; [|by constructor..].
  constructor. intros w1 Henv _. constructor.
  apply Hf. apply Hjoin. by eapply HInv.
Qed.

Lemma set_jthreads_insert_insert (jt : nat) (j j' : jthread) w :
  set_jthreads <[jt := j]> (set_jthreads <[jt := j']> w) = set_jthreads <[jt := j]> w.
Proof. unfold set_jthreads; simpl. f_equal. apply list_insert_insert_eq. Qed.

(** What [jthread_start] leaves: a stable invariant still holds, and the
    jthread object, if there is one at [jt], is joinable. *)
Lemma stable_jthread_start (Inv : world T → Prop) (HInv : stable Inv)
    (jt : nat) (b : body T) w :
  Inv w →
  safe (λ _, Inv) (λ _ _, Inv)
       (λ o w', ∀ r, o = Ok r →
          Inv w' ∧ (jt < length (jthreads w) → joinable jt w' = true))
       (jthread_start jt b w).
Proof.
  intros Hw. unfold jthread_start, bind, jthread_ctor; simpl.
  set (w1 := set_threads _ _).
  assert (Hw1 : Inv w1) by by apply HInv, HInv.
  assert (Hl1 : jthreads w1 = jthreads w) by done.
  clearbody w1. unfold jthread_move_assign, bind, gets; simpl.
  destruct (joinable jt w1); simpl.
  - apply safe_bind; [|done]. apply safe_bind; [|done].
    apply stable_request_stop; [done|done| |done].
    intros _ w2 Hw2. unfold jthread_join.
    destruct (jthreads w2 !! jt) as [[src [t'|]]|] eqn:Ej; [|by constructor..].
    constructor. intros w3 Henv _. constructor. constructor. intros _ _.
    rewrite set_jthreads_insert_insert.
    split; [by apply HInv; eapply HInv|].
    intros _. apply joinable_insert.
    destruct (env_star_frame _ _ Henv) as (-> & _). by eapply lookup_lt_Some.
  - constructor. intros _ _. split; [by apply HInv|].
    intros Hlt. apply joinable_insert. by rewrite Hl1.
Qed.

Lemma stable_callbacks (Inv : world T → Prop) (HInv : stable Inv) :
  callback_specs (λ _, Inv) (λ _ _, Inv).
Proof.
  intros [a|jt b] w Hw; simpl.
  - unfold modify. constructor. intros _ _. destruct a; simpl; [done|].
    by apply HInv.
  - eapply safe_mono; [|by apply stable_jthread_start].
    simpl. intros o w' H r ->. by destruct (H r).
Qed.

Lemma stable_stop (Inv : world T → Prop) (HInv : stable Inv) (jt : nat) w :
  Inv w → wp (stop_text jt false w) (λ o w', o = Ok tt → Inv w').
Proof.
  intros Hw. eapply safe_wp; [by apply stable_callbacks|].
  unfold stop_text, bind, gets; simpl.
  destruct (stop_possible (get_stop_token jt w)); simpl; [|by constructor].
  apply safe_bind; [|done].
  apply stable_request_stop; [done|done| |done].
  intros _ w2 Hw2. by constructor.
Qed.

Lemma stable_stop_text (Inv : world T → Prop) (HInv : stable Inv)
    (Hjoin : join_stable Inv) (jt : nat) block w :
  Inv w → wp (stop_text jt block w) (λ o w', o = Ok tt → Inv w').
Proof.
  intros Hw. destruct block; [|by apply stable_stop].
  eapply safe_wp; [by apply stable_callbacks|].
  unfold stop_text, bind, gets; simpl.
  destruct (stop_possible (get_stop_token jt w)); simpl; [|by constructor].
  apply safe_bind; [|done].
  apply stable_request_stop; [done|done| |done].
  intros _ w2 Hw2. by apply stable_jthread_join.
Qed.

Lemma stable_jthread_dtor (Inv : world T → Prop) (HInv : stable Inv)
    (Hjoin : join_stable Inv) (jt : nat) w :
  Inv w → wp (jthread_dtor jt w) (λ o w', o = Ok tt → Inv w').
Proof.
  intros Hw. eapply safe_wp; [by apply stable_callbacks|].
  unfold jthread_dtor, bind, gets; simpl.
  destruct (joinable jt w); simpl; [|by constructor].
  apply safe_bind; [|done].
  apply stable_request_stop; [done|done| |done].
  intros _ w2 Hw2. by apply stable_jthread_join.
Qed.

Lemma stable_dtor_text (Inv : world T → Prop) (HInv : stable Inv)
    (Hjoin : join_stable Inv) (jt : nat) w :
  Inv w → wp (dtor_text jt w) (λ o w', o = Ok tt → Inv w').
Proof.
  intros Hw. unfold dtor_text, bind. apply wp_bind.
  eapply wp_mono; [|by apply stable_stop].
  simpl. intros [[]|e] w' H; [|done].
  apply stable_jthread_dtor; [done|done|]. by apply H.
Qed.

Lemma stable_start (Inv : world T → Prop) (HInv : stable Inv)
    (jt : nat) (b : body T) w :
  Inv w →
  wp (jthread_start jt b w)
     (λ o w', o = Ok tt →
        Inv w' ∧ (jt < length (jthreads w) → joinable jt w' = true)).
Proof.
  intros Hw. eapply safe_wp; [by apply stable_callbacks|].
  eapply safe_mono; [|by apply stable_jthread_start].
  simpl. intros o w' H ->. by apply (H tt).
Qed.

Lemma wp_and {R} (x : res T R) (Q1 Q2 : result R → world T → Prop) :
  wp x Q1 → wp x Q2 → wp x (λ o w, Q1 o w ∧ Q2 o w).
Proof. intros H1 H2 o w Hr. split; [by apply H1|by apply H2]. Qed.

(** A blocking [stop] returns only when the thread the jthread represented
    has returned, whatever callbacks fire. *)
Lemma stop_text_block_joins (k t : nat) src w :
  jthreads w !! k = Some (JThread src (Some t)) →
  stop_possible (get_stop_token k w) = true →
  wp (stop_text k true w) (λ o w', o = Ok tt → finished t w' = true).
Proof.
  intros Hk Hp. eapply safe_wp; [apply (owned_callbacks k t)|].
  assert (Hw : owned k t w) by by eapply owned_started.
  unfold stop_text, bind, gets; simpl. rewrite Hp. simpl.
  apply safe_bind; [|done].
  apply safe_request_stop; [done|done|by intros; eapply owned_env|done| |done].
  intros _ w2 Hw2. unfold jthread_join.
  destruct (jthreads w2 !! k) as [[src2 [t'|]]|] eqn:Ek; [|by constructor..].
  constructor. intros w3 Henv Hready. simpl in Hready.
  constructor. intros _.
  destruct (owned_env k t w2 w3 Henv Hw2) as [_ [Ho|Ho]]; [done|].
  destruct (env_star_frame _ _ Henv) as (Hj3 & _ & _).
  rewrite Hj3, Ek in Ho. simpl in Ho. by injection Ho as <-.
Qed.
End StableTheory.

(** * The uninterruptable worker of ex5 *)

Section Uninterruptable.
Context {T : Type}.
Implicit Types (w : world T).

Lemma steps_app (n m t : nat) w :
  steps (n + m) t w = steps n t w ≫= steps m t.
Proof.
  revert w. induction n as [|n IH]; intros w; simpl; [done|].
  destruct (thread_step t w) as [w1|]; simpl; [by apply IH|done].
Qed.

Lemma thread_step_B5u (t i : nat) tok w :
  threads w !! t = Some (Thread (B5_uninterruptable i) tok true) →
  thread_step t w = Ex5.uninterruptableWorker i t w.
Proof. intros Ht. unfold thread_step. by rewrite Ht. Qed.

Lemma rounds_done_step (t t0 : nat) w w' :
  thread_step t0 w = Some w' → rounds_done t w → rounds_done t w'.
Proof.
  intros Hstep (i & tok & al & Ht & Hi & Hal).
  destruct (decide (t = t0)) as [->|Hne].
  - destruct al.
    + rewrite (thread_step_B5u _ _ _ _ Ht) in Hstep.
      unfold Ex5.uninterruptableWorker in Hstep.
      destruct (i <? 20) eqn:Ei; injection Hstep as <-.
      * apply Nat.ltb_lt in Ei. exists (S i), tok, true.
        split; [|split; [lia|done]].
        unfold set_body; simpl. by rewrite list_lookup_alter_eq, Ht.
      * apply Nat.ltb_ge in Ei. exists i, tok, false.
        split; [|split; [done|lia]].
        unfold exit_thread; simpl. by rewrite list_lookup_alter_eq, Ht.
    + unfold thread_step in Hstep. by rewrite Ht in Hstep.
  - exists i, tok, al. split; [|done].
    by rewrite (thread_step_others _ _ _ _ Hstep Hne).
Qed.

Lemma rounds_done_stable (t : nat) : stable (T:=T) (rounds_done t).
Proof.
  split; try done.
  - intros w th (i & tok & al & Ht & Hi). exists i, tok, al. split; [|done].
    simpl. by apply lookup_app_l_Some.
  - intros w w' Henv. induction Henv as [w|w w1 w2 [t0 Hstep] _ IH]; [done|].
    intros Hw. apply IH. by eapply rounds_done_step.
Qed.

Lemma rounds_done_join (t : nat) : join_stable (T:=T) (rounds_done t).
Proof. by intros w jt src Hw. Qed.

Lemma rounds_done_finished (t : nat) w :
  rounds_done t w → finished t w = true →
  ∃ tok, threads w !! t = Some (Thread (B5_uninterruptable 20) tok false).
Proof.
  intros (i & tok & al & Ht & Hi & Hal) Hfin.
  unfold finished in Hfin. rewrite Ht in Hfin. simpl in Hfin.
  destruct al; [done|]. exists tok. by rewrite (Hal eq_refl) in Ht.
Qed.

Lemma set_body_same (t : nat) (b : body T) tok al w :
  threads w !! t = Some (Thread b tok al) → set_body t b w = w.
Proof.
  intros Ht. destruct w as [ss nc js ts cs q tr].
  unfold set_body, set_threads; simpl in *. f_equal.
  apply list_eq. intros j. destruct (decide (j = t)) as [->|Hne].
  - by rewrite list_lookup_alter_eq, Ht.
  - by rewrite list_lookup_alter_ne.
Qed.

Lemma set_body_set_body (t : nat) (b b' : body T) w :
  set_body t b (set_body t b' w) = set_body t b w.
Proof.
  unfold set_body, set_threads; simpl. f_equal.
  rewrite list_alter_alter_eq. by apply list_alter_ext.
Qed.

Lemma lookup_set_body (t : nat) (b b' : body T) tok al w :
  threads w !! t = Some (Thread b' tok al) →
  threads (set_body t b w) !! t = Some (Thread b tok al).
Proof. intros Ht. unfold set_body; simpl. by rewrite list_lookup_alter_eq, Ht. Qed.

Lemma rounds_steps (t : nat) tok n : ∀ i w,
  threads w !! t = Some (Thread (B5_uninterruptable i) tok true) →
  i + n ≤ 20 →
  steps n t w = Some (set_body t (B5_uninterruptable (i + n)) w).
Proof.
  induction n as [|n IH]; intros i w Ht Hn.
  - simpl. rewrite Nat.add_0_r. by erewrite set_body_same.
  - simpl. rewrite (thread_step_B5u _ _ _ _ Ht).
    unfold Ex5.uninterruptableWorker.
    destruct (Nat.ltb_spec i 20) as [_|?]; [|lia]. simpl.
    rewrite (IH (S i)); [|by eapply lookup_set_body|lia].
    rewrite set_body_set_body. do 3 f_equal. lia.
Qed.

(** X3. A stop request cannot shorten [uninterruptableWorker].  From any
    round [i], the worker's next [20 - i] steps are rounds of its loop and
    the step after returns, whatever the state of its stop token.  Hence a
    blocking [stop] and the destructor of such a worker return only after
    the worker has done all twenty rounds, whatever else ran meanwhile. *)
Theorem uninterruptable_runs_all_rounds (w : world T) (s5 : Ex5.SimpleWorkerThrad)
    (t i : nat) tok src :
  threads w !! t = Some (Thread (B5_uninterruptable i) tok true) →
  i ≤ 20 →
  jthreads w !! Ex5.mThread s5 = Some (JThread (Some src) (Some t)) →
  (∀ n, n ≤ 20 - i →
     steps n t w = Some (set_body t (B5_uninterruptable (i + n)) w))
  ∧ steps (21 - i) t w
    = Some (exit_thread t (set_body t (B5_uninterruptable 20) w))
  ∧ wp (Ex5.stop s5 true w)
       (λ o w', o = Ok tt →
          ∃ tok', threads w' !! t = Some (Thread (B5_uninterruptable 20) tok' false))
  ∧ wp (Ex5.SimpleWorkerThrad_dtor s5 w)
       (λ o w', o = Ok tt →
          ∃ tok', threads w' !! t = Some (Thread (B5_uninterruptable 20) tok' false)).
Proof.
  intros Ht Hi Hj.
  assert (Hw : rounds_done t w).
  { exists i, tok, true. done. }
  split; [|split; [|split]].
  - intros n Hn. apply (rounds_steps t tok); [done|lia].
  - replace (21 - i) with ((20 - i) + 1) by lia.
    rewrite steps_app, (rounds_steps t tok (20 - i) i) by (done || lia).
    simpl. replace (i + (20 - i)) with 20 by lia.
    erewrite thread_step_B5u; [|by eapply lookup_set_body]. done.
  - rewrite Ex5_stop_text.
    eapply wp_mono;
      [|apply wp_and;
          [by apply (stable_stop_text _ (rounds_done_stable t) (rounds_done_join t))
          |apply (stop_text_block_joins _ t (Some src)); [done|]]].
    + simpl. intros o w' [H1 H2] ->. by apply rounds_done_finished; auto.
    + unfold get_stop_token. by rewrite Hj.
  - rewrite Ex5_dtor_text.
    eapply wp_mono;
      [|apply wp_and;
          [by apply (stable_dtor_text _ (rounds_done_stable t) (rounds_done_join t))
          |by eapply dtor_text_joins]].
    simpl. intros o w' [H1 H2] ->. by apply rounds_done_finished; auto.
Qed.
End Uninterruptable.

(** * The shared queue of ex7 *)

Section QueueTheory.
Context {T : Type}.
Implicit Types (w : world T).

Lemma pushed_emit_other (e : event) w :
  (∀ v, e ≠ EPush v) → pushed (emit e w) = pushed w.
Proof.
  intros He. unfold pushed; simpl. rewrite omap_app. simpl.
  destruct e; try by rewrite app_nil_r. by destruct (He v).
Qed.

Lemma dequeued_emit_other (e : event) w :
  (∀ t v, e ≠ EPop t v) → dequeued (emit e w) = dequeued w.
Proof.
  intros He. unfold dequeued; simpl. rewrite omap_app. simpl.
  destruct e; try by rewrite app_nil_r. by destruct (He t v).
Qed.

Lemma thread_stop_callback_ctor_queue tok a w :
  pushed (thread_stop_callback_ctor tok a w).2 = pushed w
  ∧ dequeued (thread_stop_callback_ctor tok a w).2 = dequeued w.
Proof.
  destruct tok as [s|]; simpl; [|done].
  destruct (sstates w !! s) as [st|]; simpl; [|done].
  unfold ss_register. destruct (requested st); simpl; [|done].
  destruct a; simpl.
  - by rewrite pushed_emit_other, dequeued_emit_other.
  - by rewrite !pushed_emit_other, !dequeued_emit_other.
Qed.

Lemma stop_callback_dtor_queue h w :
  pushed (stop_callback_dtor h w) = pushed w
  ∧ dequeued (stop_callback_dtor h w) = dequeued w.
Proof.
  destruct h as [[s id]|]; simpl; [|done]. by destruct (sstates w !! s).
Qed.

(** What a step of any thread does to the queue: nothing, or it takes the
    front item. *)
Lemma thread_step_queue (t0 : nat) w w' :
  thread_step t0 w = Some w' →
  pushed w' = pushed w
  ∧ ((taskQueue w' = taskQueue w ∧ dequeued w' = dequeued w)
     ∨ (∃ v, taskQueue w = v :: taskQueue w' ∧ dequeued w' = dequeued w ++ [v]
             ∧ dequeued_by t0 w' = dequeued_by t0 w ++ [v])).
Proof.
  unfold thread_step. destruct (threads w !! t0) as [[b tok al]|] eqn:Et; [|done].
  simpl. destruct al; [|done].
  destruct b as [cb|jt token|i|d cv tc st|fe]; simpl.
  - unfold Ex3.worker. destruct cb as [h|].
    + destruct (stop_requested tok w); intros [= <-]; [|by auto].
      destruct (stop_callback_dtor_queue h w) as [Hp Hd].
      destruct (stop_callback_dtor_frame h w) as (_ & _ & Hq & _).
      split; [done|]. left. done.
    + destruct (thread_stop_callback_ctor tok SLog w) as [h w1] eqn:E.
      intros [= <-].
      pose proof (thread_stop_callback_ctor_queue tok SLog w) as [Hp Hd].
      pose proof (thread_stop_callback_ctor_frame tok SLog w) as (_ & _ & Hq & _).
      rewrite E in Hp, Hd, Hq. split; [done|]. by left.
  - unfold Ex5.interruptableWorker. destruct token as [token|].
    + destruct (stop_requested token w); intros [= <-]; by auto.
    + intros [= <-]. by auto.
  - unfold Ex5.uninterruptableWorker. destruct (i <? 20); intros [= <-]; by auto.
  - unfold Ex6.worker. destruct st as [h|].
    + destruct (stop_requested tok w || _); intros [= <-].
      destruct (stop_callback_dtor_queue h w) as [Hp Hd].
      destruct (stop_callback_dtor_frame h w) as (_ & _ & Hq & _).
      split; [done|]. by left.
    + destruct (thread_stop_callback_ctor tok (SNotifyAll cv) w) as [h w1] eqn:E.
      intros [= <-].
      pose proof (thread_stop_callback_ctor_queue tok (SNotifyAll cv) w) as [Hp Hd].
      pose proof (thread_stop_callback_ctor_frame tok (SNotifyAll cv) w) as (_ & _ & Hq & _).
      rewrite E in Hp, Hd, Hq. split; [done|]. by left.
  - intros Hstep. apply worker_inv in Hstep as [(-> & _)|(v & q & Hq & ->)].
    + by auto.
    + split; [apply pushed_emit_pop|]. right. exists v.
      split; [done|]. split; [apply dequeued_emit_pop|apply dequeued_by_emit_pop].
Qed.

Lemma conserved_step (t0 : nat) w w' :
  thread_step t0 w = Some w' → conserved w → conserved w'.
Proof.
  unfold conserved.
  intros (Hp & [[Hq Hd]|(v & Hq & Hd & _)])%thread_step_queue Hw.
  - by rewrite Hp, Hq, Hd.
  - rewrite Hp, Hd, Hw, Hq. by rewrite <-app_assoc.
Qed.

Lemma conserved_stable : stable (T:=T) conserved.
Proof.
  split; try done.
  - intros w id Hw. unfold conserved.
    by rewrite pushed_emit_other, dequeued_emit_other.
  - intros w cv Hw. unfold conserved.
    by rewrite pushed_emit_other, dequeued_emit_other.
  - intros w w' Henv. induction Henv as [w|w w1 w2 [t0 Hstep] _ IH]; [done|].
    intros Hw. apply IH. by eapply conserved_step.
Qed.

Lemma conserved_push (i : Z) w :
  conserved w →
  ∃ w', Ex7.push i w = Done tt w'
        ∧ conserved w'
        ∧ pushed w' = pushed w ++ [i]
        ∧ dequeued w' = dequeued w.
Proof.
  intros Hw. eexists. split; [done|]. unfold conserved.
  rewrite pushed_push, dequeued_push. simpl.
  split; [|done]. rewrite Hw. by rewrite <-app_assoc.
Qed.

(** X4. No task is lost, duplicated or reordered, whatever the number of
    workers.  In the empty process, and then after every step of any
    thread, every [push], and every [start], [stop] or destruction of a
    worker (whatever callbacks they fire), the tasks pushed so far are the
    tasks taken so far, in the same order, followed by the queue.  So the
    tasks are taken in the order they were pushed. *)
Theorem queue_conserved (w : world T) (this : Ex7.WorkerThread) (block : bool)
    (i : Z) :
  conserved (@world0 T)
  ∧ (conserved w →
     (∀ w', env_star w w' → conserved w')
     ∧ (∃ w', Ex7.push i w = Done tt w'
              ∧ conserved w' ∧ pushed w' = pushed w ++ [i])
     ∧ wp (Ex7.start this w) (λ o w', o = Ok tt → conserved w')
     ∧ wp (Ex7.stop this block w) (λ o w', o = Ok tt → conserved w')
     ∧ wp (Ex7.WorkerThread_dtor this w) (λ o w', o = Ok tt → conserved w')
     ∧ dequeued w `prefix_of` pushed w).
Proof.
  split; [done|]. intros Hw.
  split; [|split; [|split; [|split; [|split]]]].
  - intros w' Henv. by apply (stable_env _ conserved_stable w w').
  - destruct (conserved_push i w Hw) as (w' & H1 & H2 & H3 & _). by exists w'.
  - rewrite Ex7_start_jthread_start.
    eapply wp_mono; [|apply stable_start; [apply conserved_stable|done]].
    simpl. intros o w' H Ho. by apply H.
  - rewrite Ex7_stop_text. apply stable_stop_text; [apply conserved_stable|by intros ?|done].
  - rewrite Ex7_dtor_text. apply stable_dtor_text; [apply conserved_stable|by intros ?|done].
  - exists (taskQueue w). done.
Qed.

(** X5. The wait of a pool worker is aware of both the queue and the
    stop token: a running worker is blocked exactly when the queue is
    empty and no stop was requested.  So a push and a stop request each
    enable it.  When it is enabled, it returns or takes the front item;
    it returns only if a stop was requested, and a worker that may not
    finish early returns only from an empty queue. *)
Theorem worker_blocked_iff (w : world T) (t : nat) (fe : bool) tok :
  threads w !! t = Some (Thread (B7_worker fe) tok true) →
  (thread_step t w = None ↔ taskQueue w = [] ∧ stop_requested tok w = false)
  ∧ (∀ w', thread_step t w = Some w' →
       (w' = exit_thread t w
        ∧ stop_requested tok w = true
        ∧ (fe = false → taskQueue w = []))
       ∨ (∃ v q, taskQueue w = v :: q
                 ∧ w' = emit (EPop t v) (set_taskQueue q w))).
Proof.
  intros Ht. rewrite (thread_step_B7 _ _ _ _ Ht). split; [split|].
  - unfold Ex7.worker, cv_wait.
    destruct (stop_requested tok w) eqn:Erq.
    + destruct (taskQueue w) as [|v q] eqn:Eq; simpl; [done|].
      destruct fe; done.
    + destruct (taskQueue w) as [|v q] eqn:Eq; simpl; [done|].
      rewrite andb_false_r. done.
  - intros [Hq Hrq]. by apply worker_blocks.
  - intros w'. apply worker_inv.
Qed.
End QueueTheory.

(** * A stop callback that starts another worker *)

Section Chaining.
Context {T : Type}.
Implicit Types (w : world T).

Lemma joinable_stable (k : nat) : stable (T:=T) (λ w, joinable k w = true).
Proof.
  split; try done.
  - intros w jt src t Hk. unfold joinable in *. simpl.
    destruct (decide (jt = k)) as [->|Hne].
    + rewrite list_lookup_insert_eq; [done|].
      destruct (jthreads w !! k) eqn:E; [|done]. by eapply lookup_lt_Some.
    + by rewrite list_lookup_insert_ne.
  - intros w w' Henv Hk. destruct (env_star_frame _ _ Henv) as (Hj & _).
    unfold joinable in *. by rewrite Hj.
Qed.

Lemma length_jthreads_stable (k : nat) :
  stable (T:=T) (λ w, k < length (jthreads w)).
Proof.
  split; try done.
  - intros w jt src t Hk. simpl. by rewrite length_insert.
  - intros w w' Henv Hk. destruct (env_star_frame _ _ Henv) as (Hj & _).
    by rewrite Hj.
Qed.

(** The text of [addCallback] followed by [stop()], for the jthread member
    at [jt] and the action [a]. *)
Lemma chain_text_fires (jt k s : nat) (b : body T) h st w :
  jthreads w !! jt = Some (JThread (Some s) h) →
  sstates w !! s = Some st →
  k < length (jthreads w) →
  wp (((tok <- gets (get_stop_token jt) ;; stop_callback_ctor tok (AStart k b)) ;;;
       stop_text jt false)%prog w)
     (λ o w', o = Ok tt → joinable k w' = true).
Proof.
  intros Hj Hs Hk.
  assert (Hstart : ∀ w0, k < length (jthreads w0) →
            wp (jthread_start k b w0) (λ o w', o = Ok tt → joinable k w' = true)).
  { intros w0 Hk0. eapply wp_mono; [|by apply (stable_start _ (length_jthreads_stable k))].
    simpl. intros o w' H Ho. destruct (H Ho) as [_ H']. by apply H'. }
  unfold bind at 1. unfold bind at 1. unfold gets at 1. simpl.
  unfold get_stop_token at 1. rewrite Hj. simpl.
  unfold stop_callback_ctor. rewrite Hs. unfold ss_register.
  destruct (requested st) eqn:Erq; simpl.
  - apply wp_call. simpl. eapply wp_mono; [|by apply Hstart].
    simpl. intros [[]|e] w' H; [|done].
    by apply (stable_stop _ (joinable_stable k)), H.
  - set (w1 := set_next_cb _ _).
    unfold stop_text, bind, gets, get_stop_token, get_stop_source. simpl.
    rewrite Hj. simpl. rewrite Hj. simpl.
    assert (Hlt : s < length (sstates w)) by by eapply lookup_lt_Some.
    unfold request_stop. simpl. rewrite list_lookup_insert_eq by done.
    unfold ss_try_request. simpl.
    rewrite list_lookup_insert_eq by (by rewrite length_insert). simpl.
    apply wp_call. simpl. eapply wp_mono; [|by apply Hstart].
    simpl. intros [[]|e] w' H; [|done].
    eapply safe_wp; [apply (stable_callbacks _ (joinable_stable k))|].
    destruct (callbacks st) as [|c cs]; simpl.
    + constructor. intros _. by apply H.
    + constructor. intros w2 Henv _.
      change (safe (λ _ w0, joinable k w0 = true) (λ _ _ w0, joinable k w0 = true)
                (λ o w0, o = Ok tt → joinable k w0 = true)
                (bind_res (drain (S (length cs)) s w2) (λ _, ret tt))).
      apply safe_bind; [|done].
      apply safe_drain_gen; [| | |by constructor|done].
      * intros w0 id a st0 Hw0 _. done.
      * intros w0 w3 Hw0 Henv'. by apply (stable_env _ (joinable_stable k) w0 w3).
      * apply (stable_env _ (joinable_stable k) w' w2); [done|]. by apply H.
Qed.

Lemma chain_text_unstarted (jt : nat) (a : action T) w :
  jthreads w !! jt = Some default_jthread →
  ((tok <- gets (get_stop_token jt) ;; stop_callback_ctor tok a) ;;;
   stop_text jt false)%prog w = Done tt w.
Proof.
  intros Hj. unfold bind, gets, get_stop_token; simpl. rewrite Hj. simpl.
  apply stop_text_unstarted. unfold get_stop_token. by rewrite Hj.
Qed.

(** X6. Chaining two workers with a stop callback, as the three [main]s
    do: once [addCallback] has attached the lambda that starts another
    worker to a started worker, that worker's [stop()] does not return
    before the other worker is started, whether or not a stop had already
    been requested and whatever other callbacks are registered.  On a
    worker that was never started nothing is registered and nothing is
    started. *)
Theorem stop_callback_starts_other (w : world T)
    (s5 o5 : Ex5.SimpleWorkerThrad) (s6 o6 : Ex6.WorkerThread T)
    (s7 o7 : Ex7.WorkerThread) :
  (∀ s h st, jthreads w !! Ex5.mThread s5 = Some (JThread (Some s) h) →
     sstates w !! s = Some st → Ex5.mThread o5 < length (jthreads w) →
     wp ((Ex5.addCallback s5 (Ex5.lambda o5) ;;; Ex5.stop s5 false)%prog w)
        (λ o w', o = Ok tt → joinable (Ex5.mThread o5) w' = true))
  ∧ (∀ s h st, jthreads w !! Ex6.mThread s6 = Some (JThread (Some s) h) →
     sstates w !! s = Some st → Ex6.mThread o6 < length (jthreads w) →
     wp ((Ex6.addCallback s6 (Ex6.lambda o6) ;;; Ex6.stop s6 false)%prog w)
        (λ o w', o = Ok tt → joinable (Ex6.mThread o6) w' = true))
  ∧ (∀ s h st, jthreads w !! Ex7.mThread s7 = Some (JThread (Some s) h) →
     sstates w !! s = Some st → Ex7.mThread o7 < length (jthreads w) →
     wp ((Ex7.addCallback s7 (Ex7.lambda o7) ;;; Ex7.stop s7 false)%prog w)
        (λ o w', o = Ok tt → joinable (Ex7.mThread o7) w' = true))
  ∧ (jthreads w !! Ex5.mThread s5 = Some default_jthread →
     (Ex5.addCallback s5 (Ex5.lambda o5) ;;; Ex5.stop s5 false)%prog w = Done tt w)
  ∧ (jthreads w !! Ex6.mThread s6 = Some default_jthread →
     (Ex6.addCallback s6 (Ex6.lambda o6) ;;; Ex6.stop s6 false)%prog w = Done tt w)
  ∧ (jthreads w !! Ex7.mThread s7 = Some default_jthread →
     (Ex7.addCallback s7 (Ex7.lambda o7) ;;; Ex7.stop s7 false)%prog w = Done tt w).
Proof.
  split; [|split; [|split; [|split; [|split]]]].
  - intros s h st Hj Hs Hk. by eapply (chain_text_fires (Ex5.mThread s5)).
  - intros s h st Hj Hs Hk. by eapply (chain_text_fires (Ex6.mThread s6)).
  - intros s h st Hj Hs Hk. by eapply (chain_text_fires (Ex7.mThread s7)).
  - apply (chain_text_unstarted (Ex5.mThread s5)).
  - apply (chain_text_unstarted (Ex6.mThread s6)).
  - apply (chain_text_unstarted (Ex7.mThread s7)).
Qed.
End Chaining.

(** * The worker of ex6 and its data *)

Section DataWorker.
Context {T : Type}.
Implicit Types (w : world T).

Lemma thread_step_B6 (t : nat) d cv tc st tok w :
  threads w !! t = Some (Thread (B6_worker d cv tc st) tok true) →
  thread_step t w = Ex6.worker d cv tc st tok t w.
Proof. intros Ht. unfold thread_step. by rewrite Ht. Qed.

Lemma notified_emit (cv : nat) w :
  notified cv (emit (ENotifyAll cv) w) = S (notified cv w).
Proof.
  unfold notified; simpl. rewrite count_app. simpl.
  rewrite Nat.eqb_refl. lia.
Qed.

(** X7. [setData] wakes the worker exactly when the data completes the
    task.  For a started worker that waits on [mCv] with no stop
    requested, [setData(d)] stores [d] and notifies once; afterwards the
    worker's step returns, destroying its stop callback, if
    [taskComplete()] holds of [d], and the worker stays blocked if not.
    Before the worker's step nothing but the cell and the notification has
    changed. *)
Theorem setData_wakes_worker (w : world T) (this : Ex6.WorkerThread T) (d : T)
    (s t : nat) h :
  jthreads w !! Ex6.mThread this = Some (JThread (Some s) (Some t)) →
  threads w !! t
  = Some (Thread (B6_worker (Ex6.mData this) (Ex6.mCv this)
                    (Ex6.taskComplete this) (Some h)) (Some s) true) →
  stop_requested (Some s) w = false →
  Ex6.mData this < length (cells w) →
  ∃ w1,
    Ex6.setData this d w = Done tt w1
    ∧ cells w1 = <[Ex6.mData this := d]> (cells w)
    ∧ Ex6.taskComplete_now this w1 = Some (Ex6.taskComplete this d)
    ∧ notified (Ex6.mCv this) w1 = S (notified (Ex6.mCv this) w)
    ∧ sstates w1 = sstates w ∧ threads w1 = threads w ∧ jthreads w1 = jthreads w
    ∧ (Ex6.taskComplete this d = true →
       thread_step t w1 = Some (exit_thread t (stop_callback_dtor h w1))
       ∧ finished t (exit_thread t (stop_callback_dtor h w1)) = true)
    ∧ (Ex6.taskComplete this d = false → thread_step t w1 = None).
Proof.
  intros Hj Ht Hrq Hd.
  exists (emit (ENotifyAll (Ex6.mCv this))
            (set_cells <[Ex6.mData this := d]> w)).
  assert (Hcell : cells (emit (ENotifyAll (Ex6.mCv this))
                           (set_cells <[Ex6.mData this := d]> w))
                  !! Ex6.mData this = Some d).
  { simpl. by apply list_lookup_insert_eq. }
  split.
  { unfold Ex6.setData, joinable, get_stop_token. rewrite Hj. simpl.
    unfold stop_requested in Hrq. by rewrite Hrq. }
  split; [done|]. split.
  { unfold Ex6.taskComplete_now. by rewrite Hcell. }
  split; [by rewrite notified_emit|].
  split; [done|]. split; [done|]. split; [done|].
  assert (Hstep : thread_step t (emit (ENotifyAll (Ex6.mCv this))
                                   (set_cells <[Ex6.mData this := d]> w))
                  = if Ex6.taskComplete this d
                    then Some (exit_thread t
                                 (stop_callback_dtor h
                                    (emit (ENotifyAll (Ex6.mCv this))
                                       (set_cells <[Ex6.mData this := d]> w))))
                    else None).
  { erewrite thread_step_B6; [|exact Ht]. unfold Ex6.worker.
    rewrite Hcell.
    replace (stop_requested (Some s) _) with false by (by rewrite <-Hrq).
    simpl. by destruct (Ex6.taskComplete this d). }
  split.
  - intros Htc. rewrite Htc in Hstep. split; [done|].
    apply finished_exit_thread_same.
    destruct (stop_callback_dtor_frame h
                (emit (ENotifyAll (Ex6.mCv this))
                   (set_cells <[Ex6.mData this := d]> w))) as (_ & -> & _).
    simpl. by eapply lookup_lt_Some.
  - intros Htc. by rewrite Htc in Hstep.
Qed.
End DataWorker.

(** * [main] of ex7 when there is no thread to create *)

Section NoThreads.
Context {T : Type}.
Implicit Types (w : world T).

Lemma env_star_no_threads w w' :
  threads w = [] → env_star w w' → w' = w.
Proof.
  intros Ht Henv. destruct Henv as [|w w1 w2 [t Hstep] _]; [done|].
  unfold thread_step in Hstep. by rewrite Ht in Hstep.
Qed.

(** X8. [main] of ex7 with a thread count that is not positive creates
    no pool member and pushes no task.  With a negative count, from
    -214748364 on so that [threadCount * 10] does not overflow [int], it
    returns normally: the kill loop has nothing to stop, and the blocking
    [stop] and the destructor of the extra thread, which was never
    started, do nothing.  With a count of zero it does not reach the kill
    loop: it divides by zero after the (empty) push loop. *)
Theorem main_without_threads (threadCount : Z) :
  ((-214748364 ≤ threadCount < 0)%Z →
     wp (Ex7.main threadCount (@world0 T))
        (λ o w', o = Ok tt
                 ∧ w' = World [] 0 [default_jthread] [] [] [] [])
     ∧ runs (Ex7.main threadCount (@world0 T)) (Ok tt)
            (World [] 0 [default_jthread] [] [] [] []))
  ∧ (threadCount = 0%Z →
     wp (Ex7.main threadCount (@world0 T))
        (λ o w', o = Exn DivideByZero
                 ∧ w' = World [] 0 [default_jthread] [] [] [] [])
     ∧ runs (Ex7.main threadCount (@world0 T)) (Exn DivideByZero)
            (World [] 0 [default_jthread] [] [] [] [])).
Proof.
  assert (Hnil : (threadCount ≤ 0)%Z →
            seqZ 0 threadCount = [] ∧ seqZ 1 (threadCount * 10) = []).
  { intros Hle. split; apply seqZ_nil; lia. }
  split.
  - intros Hneg. destruct (Hnil ltac:(lia)) as [H1 H2].
    unfold Ex7.main, bind. rewrite pool_setup_text. unfold bind.
    rewrite H1, H2. simpl.
    destruct (Z.eqb_spec threadCount 0) as [?|_]; [lia|]. simpl.
    split.
    + apply wp_wait. intros w1 ->%env_star_no_threads _; [|done]. simpl.
      apply wp_wait. intros w1 ->%env_star_no_threads _; [|done]. simpl.
      apply wp_wait. intros w1 ->%env_star_no_threads _; [|done]. simpl.
      by apply wp_done.
    + eapply runs_wait; [apply rtc_refl|done|]. simpl.
      eapply runs_wait; [apply rtc_refl|done|]. simpl.
      eapply runs_wait; [apply rtc_refl|done|]. simpl.
      constructor.
  - intros ->. unfold Ex7.main, bind. rewrite pool_setup_text. unfold bind.
    simpl. split.
    + apply wp_wait. intros w1 ->%env_star_no_threads _; [|done]. simpl.
      by apply wp_throw.
    + eapply runs_wait; [apply rtc_refl|done|]. simpl. constructor.
Qed.
End NoThreads.

(** * The exploration of the interleavings is exhaustive *)

Section ExploreTheory.
Context {T : Type} (T_eqb : T → T → bool).
Context (T_eqb_sound : ∀ a b, T_eqb a b = true → a = b).
Implicit Types (w : world T).

Lemma list_eqb_sound {X} (eqb : X → X → bool) (l1 l2 : list X) :
  (∀ a b, eqb a b = true → a = b) → list_eqb eqb l1 l2 = true → l1 = l2.
Proof.
  intros Heq. revert l2. induction l1 as [|x l1 IH]; intros [|y l2]; simpl; try done.
  intros [H1 H2]%andb_prop. f_equal; [by apply Heq|by apply IH].
Qed.

Lemma option_eqb_sound {X} (eqb : X → X → bool) (a b : option X) :
  (∀ a b, eqb a b = true → a = b) → option_eqb eqb a b = true → a = b.
Proof.
  intros Heq. destruct a, b; simpl; try done. intros H. f_equal. by apply Heq.
Qed.

Lemma nat_eqb_sound (a b : nat) : Nat.eqb a b = true → a = b.
Proof. apply Nat.eqb_eq. Qed.

Lemma pair_eqb_sound (a b : nat * nat) : pair_eqb a b = true → a = b.
Proof.
  destruct a, b. unfold pair_eqb; simpl.
  intros [H1%Nat.eqb_eq H2%Nat.eqb_eq]%andb_prop. congruence.
Qed.

Lemma bool_eqb_sound (a b : bool) : Bool.eqb a b = true → a = b.
Proof. apply Bool.eqb_prop. Qed.

Lemma body_eqb_sound (b1 b2 : body T) : body_eqb b1 b2 = true → b1 = b2.
Proof.
  destruct b1, b2; simpl; try done.
  - intros H. f_equal. apply option_eqb_sound in H; [done|].
    intros a b. apply option_eqb_sound, pair_eqb_sound.
  - intros [H1%Nat.eqb_eq H2]%andb_prop. f_equal; [done|].
    apply option_eqb_sound in H2; [done|].
    intros a b. apply option_eqb_sound, nat_eqb_sound.
  - intros H%Nat.eqb_eq. by f_equal.
  - intros H%Bool.eqb_prop. by f_equal.
Qed.

Lemma action_eqb_sound (a1 a2 : action T) : action_eqb a1 a2 = true → a1 = a2.
Proof.
  destruct a1 as [[|c1]|j1 b1], a2 as [[|c2]|j2 b2]; simpl; try done.
  - intros H%Nat.eqb_eq. by subst.
  - intros [H1%Nat.eqb_eq H2%body_eqb_sound]%andb_prop. by subst.
Qed.

Lemma stop_state_eqb_sound (s1 s2 : stop_state (action T)) :
  stop_state_eqb s1 s2 = true → s1 = s2.
Proof.
  destruct s1 as [r1 c1], s2 as [r2 c2]. unfold stop_state_eqb; simpl.
  intros [H1%Bool.eqb_prop H2]%andb_prop. f_equal; [done|].
  revert H2. apply list_eqb_sound. intros [i1 a1] [i2 a2]; simpl.
  intros [H3%Nat.eqb_eq H4%action_eqb_sound]%andb_prop. by subst.
Qed.

Lemma jthread_eqb_sound (j1 j2 : jthread) : jthread_eqb j1 j2 = true → j1 = j2.
Proof.
  destruct j1, j2. unfold jthread_eqb; simpl.
  intros [H1 H2]%andb_prop.
  f_equal; [revert H1|revert H2]; apply option_eqb_sound, nat_eqb_sound.
Qed.

Lemma thread_eqb_sound (t1 t2 : thread T) : thread_eqb t1 t2 = true → t1 = t2.
Proof.
  destruct t1, t2. unfold thread_eqb; simpl.
  intros [[H1%body_eqb_sound H2]%andb_prop H3%Bool.eqb_prop]%andb_prop.
  f_equal; [done| |done]. revert H2. apply option_eqb_sound, nat_eqb_sound.
Qed.

Lemma event_eqb_sound (e1 e2 : event) : event_eqb e1 e2 = true → e1 = e2.
Proof.
  destruct e1, e2; simpl; try done.
  - intros H%Nat.eqb_eq. by subst.
  - intros H%Nat.eqb_eq. by subst.
  - intros H%Z.eqb_eq. by subst.
  - intros [H1%Nat.eqb_eq H2%Z.eqb_eq]%andb_prop. by subst.
Qed.

Lemma world_eqb_sound w1 w2 : world_eqb T_eqb w1 w2 = true → w1 = w2.
Proof using T_eqb_sound.
  destruct w1, w2. unfold world_eqb; simpl.
  intros [[[[[[H1 H2%Nat.eqb_eq]%andb_prop H3]%andb_prop H4]%andb_prop
              H5]%andb_prop H6]%andb_prop H7]%andb_prop.
  apply list_eqb_sound in H1; [|apply stop_state_eqb_sound].
  apply list_eqb_sound in H3; [|apply jthread_eqb_sound].
  apply list_eqb_sound in H4; [|apply thread_eqb_sound].
  apply list_eqb_sound in H5; [|apply T_eqb_sound].
  apply list_eqb_sound in H6; [|apply Z.eqb_eq].
  apply list_eqb_sound in H7; [|apply event_eqb_sound].
  by subst.
Qed.

Lemma mem_sound w ws : mem T_eqb w ws = true → w ∈ ws.
Proof using T_eqb_sound.
  unfold mem. intros (v & Hin & Heq)%existsb_exists.
  apply world_eqb_sound in Heq. subst v. by apply list_elem_of_In.
Qed.

Lemma successors_step (t : nat) w w' :
  thread_step t w = Some w' → w' ∈ successors w.
Proof.
  intros Hstep. unfold successors. apply list_elem_of_omap.
  exists t. split; [|done]. apply elem_of_seq. split; [lia|]. simpl.
  unfold thread_step in Hstep.
  destruct (threads w !! t) eqn:E; [|done]. by eapply lookup_lt_Some.
Qed.

Lemma closed_b_sound ws w w' :
  closed_b T_eqb ws = true → w ∈ ws → env_star w w' → w' ∈ ws.
Proof using T_eqb_sound.
  intros Hc Hin Henv. induction Henv as [w|w w1 w2 [t Hstep] _ IH]; [done|].
  apply IH. unfold closed_b in Hc. rewrite forallb_forall in Hc.
  specialize (Hc w ltac:(by apply list_elem_of_In)).
  rewrite forallb_forall in Hc. apply mem_sound, Hc.
  apply list_elem_of_In. by eapply successors_step.
Qed.

Lemma reach_sound (n : nat) w ws w' :
  reach T_eqb n w = Some ws → env_star w w' → w' ∈ ws.
Proof using T_eqb_sound.
  unfold reach. destruct (closure T_eqb n [w] [w]) as [ws'|]; [|done].
  destruct (mem T_eqb w ws' && closed_b T_eqb ws') eqn:E; [|done].
  intros [= <-]. apply andb_prop in E as [Hm Hc].
  apply closed_b_sound; [done|]. by apply mem_sound.
Qed.

Lemma collect_elem {X Y} (f : X → option (list Y)) (l : list X) outs x ys y :
  collect f l = Some outs → x ∈ l → f x = Some ys → y ∈ ys → y ∈ outs.
Proof.
  revert outs. induction l as [|x0 l IH]; intros outs; simpl.
  - intros _ Hin. by apply elem_of_nil in Hin.
  - destruct (f x0) as [a|] eqn:Ea; [|done].
    destruct (collect f l) as [b|] eqn:Eb; [|done].
    intros [= <-] [->|Hin]%elem_of_cons Hf Hy.
    + rewrite Ea in Hf. injection Hf as <-. apply elem_of_app. by left.
    + apply elem_of_app. right. by eapply IH.
Qed.

Lemma ready_ready_b c w : ready c w → ready_b c w = true.
Proof. by destruct c. Qed.

Lemma explore_sound (m n : nat) : ∀ R (x : res T R) outs o w',
  explore T_eqb m n x = Some outs → runs x o w' → (o, w') ∈ outs.
Proof using T_eqb_sound.
  induction n as [|n IH]; [done|].
  intros R x outs o w' He Hr.
  destruct Hr as [r w|e w|c w k w1 o w2 Henv Hc Hk
                 |a w k w1 o w2 Ha Hk|a w k e w1 Ha]; simpl in He.
  - injection He as <-. by apply list_elem_of_singleton.
  - injection He as <-. by apply list_elem_of_singleton.
  - destruct (reach T_eqb m w) as [ws|] eqn:Er; [|done].
    pose proof (reach_sound _ _ _ _ Er Henv) as Hin.
    destruct (explore T_eqb m n (k w1)) as [ys|] eqn:Ek.
    + eapply (collect_elem _ ws outs w1 ys); [exact He|done| |by eapply IH].
      simpl. by rewrite (ready_ready_b _ _ Hc).
    + exfalso. clear -He Hin Ek Hc. revert outs He.
      induction ws as [|x0 ws IHws]; intros outs He; [by apply elem_of_nil in Hin|].
      simpl in He. apply elem_of_cons in Hin as [<-|Hin].
      * by rewrite (ready_ready_b _ _ Hc), Ek in He.
      * destruct (if ready_b c x0 then _ else _); [|done].
        destruct (collect _ ws); [|done]. by eapply IHws.
  - destruct (explore T_eqb m n (invoke a w)) as [outs1|] eqn:E1; [|done].
    pose proof (IH _ _ _ _ _ E1 Ha) as Hin.
    destruct (explore T_eqb m n (k w1)) as [ys|] eqn:Ek.
    + eapply (collect_elem _ outs1 outs (Ok tt, w1) ys); [exact He|done| |by eapply IH].
      done.
    + exfalso. clear -He Hin Ek. revert outs He.
      induction outs1 as [|x0 l IHl]; intros outs He; [by apply elem_of_nil in Hin|].
      simpl in He. apply elem_of_cons in Hin as [<-|Hin].
      * simpl in He. by rewrite Ek in He.
      * destruct (match x0.1 with Ok _ => _ | Exn _ => _ end); [|done].
        destruct (collect _ l); [|done]. by eapply IHl.
  - destruct (explore T_eqb m n (invoke a w)) as [outs1|] eqn:E1; [|done].
    pose proof (IH _ _ _ _ _ E1 Ha) as Hin.
    eapply (collect_elem _ outs1 outs (Exn e, w1) [(Exn e, w1)]);
      [exact He|done|done|by apply list_elem_of_singleton].
Qed.

(** Every way the code can end has been tested. *)
Lemma check_sound {R} (m n : nat) (x : res T R) (P : result R → world T → bool) :
  check T_eqb m n x P = true → wp x (λ o w, P o w = true).
Proof using T_eqb_sound.
  unfold check. destruct (explore T_eqb m n x) as [outs|] eqn:E; [|done].
  intros Hall o w Hr. rewrite forallb_forall in Hall.
  apply (Hall (o, w)). apply list_elem_of_In. by eapply explore_sound.
Qed.
End ExploreTheory.

(** * The [main]s of ex3 and ex5, under every interleaving *)

Lemma unit_eqb_sound (a b : unit) : unit_eqb a b = true → a = b.
Proof. by destruct a, b. Qed.

(** X9. [main] of ex3 cannot end otherwise than by returning, and in every
    interleaving both workers have returned, no callback is left
    registered, exactly three stop callbacks were constructed (one by each
    worker and [quickCallback] by [main]) and none was invoked twice.  The
    callbacks constructed second and third were invoked exactly once.  The
    one constructed first was invoked once or not at all: when it is the
    callback of the quick worker, [request_stop()] runs [quickCallback]
    first, and the worker, which sees the request meanwhile, may return
    and destroy its callback before [request_stop()] comes to it.  Both
    outcomes occur. *)
Theorem ex3_main_callbacks_at_most_once :
  wp (Ex3.main (@world0 unit))
     (λ o w, o = Ok tt
             ∧ length (threads w) = 2
             ∧ (∀ t, t < 2 → finished t w = true)
             ∧ (∀ s st, sstates w !! s = Some st → st = StopState true [])
             ∧ next_cb w = 3
             ∧ invocations 0 w ≤ 1
             ∧ invocations 1 w = 1
             ∧ invocations 2 w = 1
             ∧ length (trace w) = invocations 0 w + 2)
  ∧ (∃ w, runs (Ex3.main (@world0 unit)) (Ok tt) w ∧ invocations 0 w = 1)
  ∧ (∃ w, runs (Ex3.main (@world0 unit)) (Ok tt) w ∧ invocations 0 w = 0).
Proof.
  split; [|split].
  - eapply wp_mono;
      [|apply (check_sound unit_eqb unit_eqb_sound 100 60 _ ex3_main_test);
        vm_compute; reflexivity].
    simpl. intros [[]|e] w H; [|done]. unfold ex3_main_test in H.
    repeat (apply andb_prop in H as [H ?]).
    repeat match goal with
           | H : Nat.eqb _ _ = true |- _ => apply Nat.eqb_eq in H
           | H : Nat.leb _ _ = true |- _ => apply Nat.leb_le in H
           end.
    split; [done|]. split; [done|].
    split; [|split; [|split; [done|split; [done|split; [done|split; [done|done]]]]]].
    + intros t Ht. unfold finished.
      destruct (threads w) as [|th0 [|th1 [|]]]; try done.
      simpl in *. destruct t as [|[|]]; [| |lia]; simpl;
        repeat match goal with
               | H : (_ && _) = true |- _ => apply andb_prop in H as [? ?]
               end; done.
    + intros s st Hs.
      match goal with
      | H : forallb _ (sstates w) = true |- _ =>
          rewrite forallb_forall in H;
          specialize (H st ltac:(by apply list_elem_of_In; eapply list_elem_of_lookup_2))
      end.
      destruct st as [[] [|]]; done.
  - assert (E : ∃ w sch', exec 80 [[0]; []; [1]; []; [0]; [1]; []; []; []; []]
                            (Ex3.main (@world0 unit)) = Some (Ok tt, w, sch')
                          ∧ invocations 0 w = 1).
    { vm_compute. eexists _, _. split; reflexivity. }
    destruct E as (w & sch' & E & Hi). exists w. split; [by eapply exec_runs|done].
  - assert (E : ∃ w sch', exec 80 [[0]; []; [1]; [0]; []; [1]; []; []; []; []]
                            (Ex3.main (@world0 unit)) = Some (Ok tt, w, sch')
                          ∧ invocations 0 w = 0).
    { vm_compute. eexists _, _. split; reflexivity. }
    destruct E as (w & sch' & E & Hi). exists w. split; [by eapply exec_runs|done].
Qed.

(** X10. [main] of ex5 cannot end otherwise than by returning, and every
    interleaving of the threads' steps (the start of a worker being one
    step) leaves the process in the same state: the uninterruptable
    worker has done its twenty rounds; the stop of the first interruptable
    worker has invoked the one callback, once, and that has started the
    second; all three workers have returned and were joined; a stop was
    requested on each.  And [main] can return. *)
Theorem ex5_main_single_outcome :
  wp (Ex5.main (@world0 unit)) (λ o w, o = Ok tt ∧ w = ex5_main_final)
  ∧ runs (Ex5.main (@world0 unit)) (Ok tt) ex5_main_final.
Proof.
  split.
  - eapply wp_mono;
      [|apply (check_sound unit_eqb unit_eqb_sound 100 80 _
                 (λ o w, match o with
                         | Ok _ => world_eqb unit_eqb w ex5_main_final
                         | Exn _ => false
                         end));
        vm_compute; reflexivity].
    simpl. intros [[]|e] w H; [|done].
    split; [done|]. by apply (world_eqb_sound unit_eqb unit_eqb_sound).
  - apply (exec_runs 100 _
             [[]; replicate 21 0; []; []; [1]; []; [1]; []; [2; 2]; [];
              []; []; []] _ _ _ []).
    vm_compute. reflexivity.
Qed.

(** * [main] of ex7 to its end *)

Section PoolExit.
Context {T : Type}.
Implicit Types (w : world T).

Lemma covered_env w w' : env_star w w' → covered w → covered w'.
Proof.
  intros Henv Hc t th' Ht' Ha'.
  destruct (env_star_frame _ _ Henv) as (Hj & Hl & Hf).
  assert (Hlt : t < length (threads w)).
  { rewrite <-Hl. by eapply lookup_lt_Some. }
  destruct (lookup_lt_is_Some_2 _ _ Hlt) as [th Ht].
  destruct (alive th) eqn:Ea.
  - destruct (Hc t th Ht Ea) as [k Hk]. exists k. by rewrite Hj.
  - specialize (Hf t). unfold finished in Hf. rewrite Ht, Ht', Ea, Ha' in Hf.
    by specialize (Hf eq_refl).
Qed.

Lemma covered_flags w w' : flags_only w w' → covered w → covered w'.
Proof.
  intros (Hj & Ht & _) Hc t th. rewrite Ht, Hj. apply Hc.
Qed.

Lemma request_stop_flags src w :
  no_callbacks w →
  ∃ r w', request_stop src w = Done r w' ∧ flags_only w w' ∧ no_callbacks w'
          ∧ length (sstates w') = length (sstates w).
Proof.
  intros Hn. destruct src as [s|]; [|by exists false, w; repeat split; eauto].
  destruct (sstates w !! s) as [st|] eqn:Hs.
  - exists (negb (requested st)), (set_sstates <[s := StopState true []]> w).
    split; [by apply request_stop_quiet; eauto|].
    split; [|split].
    + repeat split. simpl. intros s' st' Hs'.
      destruct (decide (s = s')) as [<-|Hne].
      * rewrite list_lookup_insert_eq by by eapply lookup_lt_Some.
        eexists. split; [done|]. right. split; [by eapply Hn|done].
      * rewrite list_lookup_insert_ne by done. exists st'. by split; [|left].
    + intros s' st'. simpl. destruct (decide (s = s')) as [<-|Hne].
      * rewrite list_lookup_insert_eq by by eapply lookup_lt_Some.
        by intros [= <-].
      * rewrite list_lookup_insert_ne by done. apply Hn.
    + simpl. by rewrite length_insert.
  - exists false, w. unfold request_stop. rewrite Hs.
    repeat split; eauto.
Qed.

Lemma queue_empty_step (t : nat) w w' :
  thread_step t w = Some w' → taskQueue w = [] →
  taskQueue w' = [] ∧ dequeued w' = dequeued w ∧ pushed w' = pushed w.
Proof.
  intros (Hp & [[Hq Hd]|(v & Hq & _)])%thread_step_queue Hnil.
  - by rewrite Hq, Hd.
  - by rewrite Hnil in Hq.
Qed.

Lemma queue_empty_env w w' :
  env_star w w' → taskQueue w = [] →
  taskQueue w' = [] ∧ dequeued w' = dequeued w ∧ pushed w' = pushed w.
Proof.
  induction 1 as [w|w w1 w2 [t Hstep] _ IH]; [done|].
  intros Hq. destruct (queue_empty_step _ _ _ Hstep Hq) as (Hq1 & Hd1 & Hp1).
  destruct (IH Hq1) as (Hq2 & Hd2 & Hp2). by rewrite Hd2, Hp2.
Qed.

Lemma settled_env (n : nat) w w' :
  env_star w w' → settled n w →
  settled n w' ∧ jthreads w' = jthreads w
  ∧ pushed w' = pushed w ∧ dequeued w' = dequeued w.
Proof.
  intros Henv (Hb & Hn & Hc & Hq & Hlj & Hlt).
  destruct (pool_env w w' Hb Henv) as [Hb' (Hs & Hj & _)].
  destruct (env_star_frame _ _ Henv) as (_ & Hl & _).
  destruct (queue_empty_env _ _ Henv Hq) as (Hq' & Hd' & Hp').
  split; [|done].
  split; [done|]. split; [by intros s st; rewrite Hs; apply Hn|].
  split; [by eapply covered_env|]. split; [done|].
  split; [by rewrite Hj|by rewrite Hl].
Qed.

Lemma settled_flags (n : nat) w w' :
  flags_only w w' → no_callbacks w' → settled n w → settled n w'.
Proof.
  intros Hfl Hn' (Hb & Hn & Hc & Hq & Hlj & Hlt).
  split; [by eapply pool_base_flags|]. split; [done|].
  split; [by eapply covered_flags|].
  destruct Hfl as (Hj & Ht & Hq' & _).
  split; [by rewrite Hq'|]. split; [by rewrite Hj|by rewrite Ht].
Qed.

Lemma settled_join (n k t : nat) src w :
  settled n w → jthreads w !! k = Some (JThread src (Some t)) →
  finished t w = true →
  settled n (set_jthreads <[k := JThread src None]> w).
Proof.
  intros (Hb & Hn & Hc & Hq & Hlj & Hlt) Hk Hf.
  split; [done|]. split; [done|]. split; [|split; [done|split; [|done]]].
  - intros t' th Ht' Ha'. destruct (Hc t' th Ht' Ha') as [k' Hk'].
    exists k'. simpl. destruct (decide (k = k')) as [<-|Hne].
    + rewrite Hk in Hk'. simpl in Hk'. injection Hk' as <-.
      unfold finished in Hf. simpl in Ht'. rewrite Ht', Ha' in Hf. done.
    + by rewrite list_lookup_insert_ne.
  - simpl. by rewrite length_insert.
Qed.

(** The destructor of a worker once the pool is settled: it joins the
    worker's thread, if the jthread still represents one, and changes no
    other jthread. *)
Lemma dtor_settled (n k : nat) w :
  settled n w →
  wp (dtor_text k w)
     (λ o w', o = Ok tt
              ∧ settled n w'
              ∧ pushed w' = pushed w ∧ dequeued w' = dequeued w
              ∧ jthreads w' !! k ≫= handle = None
              ∧ ∀ k', k' ≠ k → jthreads w' !! k' = jthreads w !! k').
Proof.
  intros Hw.
  assert (Hstop : ∃ w1, stop_text k false w = Done tt w1
                        ∧ flags_only w w1 ∧ no_callbacks w1).
  { unfold stop_text, bind, gets; simpl.
    destruct (stop_possible (get_stop_token k w)); simpl.
    - destruct (request_stop_flags (get_stop_source k w) w) as (r & w1 & -> & Hfl & Hn1 & _);
        [by destruct Hw as (_ & ? & _)|].
      by exists w1.
    - exists w. split; [done|]. split; [apply flags_only_refl|].
      by destruct Hw as (_ & ? & _). }
  destruct Hstop as (w1 & Hstop & Hfl1 & Hn1).
  unfold dtor_text, bind. rewrite Hstop. simpl.
  pose proof (settled_flags n _ _ Hfl1 Hn1 Hw) as Hw1.
  assert (Hp1 : pushed w1 = pushed w) by by apply pushed_flags.
  assert (Hd1 : dequeued w1 = dequeued w).
  { destruct Hfl1 as (_ & _ & _ & Htr & _). unfold dequeued. by rewrite Htr. }
  assert (Hj1 : jthreads w1 = jthreads w) by by destruct Hfl1.
  unfold jthread_dtor, bind, gets; simpl. unfold joinable.
  destruct (jthreads w1 !! k) as [[src [t|]]|] eqn:Ek; simpl.
  - destruct (request_stop_flags (get_stop_source k w1) w1 Hn1)
      as (r & w2 & -> & Hfl2 & Hn2 & _). simpl.
    pose proof (settled_flags n _ _ Hfl2 Hn2 Hw1) as Hw2.
    assert (Hp2 : pushed w2 = pushed w1) by by apply pushed_flags.
    assert (Hd2 : dequeued w2 = dequeued w1).
    { destruct Hfl2 as (_ & _ & _ & Htr & _). unfold dequeued. by rewrite Htr. }
    assert (Hj2 : jthreads w2 = jthreads w1) by by destruct Hfl2.
    unfold jthread_join. rewrite Hj2, Ek.
    apply wp_wait. intros w3 Henv Hready. simpl in Hready.
    destruct (settled_env n _ _ Henv Hw2) as (Hw3 & Hj3 & Hp3 & Hd3).
    apply wp_done. split; [done|].
    split; [apply (settled_join n k t src); [done| |done]; by rewrite Hj3, Hj2|].
    split; [change (pushed w3 = pushed w); congruence|].
    split; [change (dequeued w3 = dequeued w); congruence|].
    assert (Hlt : k < length (jthreads w3)).
    { rewrite Hj3, Hj2. by eapply lookup_lt_Some. }
    split; [by simpl; rewrite list_lookup_insert_eq|].
    intros k' Hne. simpl. rewrite list_lookup_insert_ne by done. congruence.
  - apply wp_done. split; [done|]. split; [done|]. split; [done|]. split; [done|].
    split; [by rewrite Ek|]. intros k' _. by rewrite Hj1.
  - apply wp_done. split; [done|]. split; [done|]. split; [done|]. split; [done|].
    split; [by rewrite Ek|]. intros k' _. by rewrite Hj1.
Qed.

Lemma exit_loop (n : nat) (l : list Ex7.WorkerThread) : ∀ w,
  settled n w →
  wp (for_each l Ex7.WorkerThread_dtor w)
     (λ o w', o = Ok tt
              ∧ settled n w'
              ∧ pushed w' = pushed w ∧ dequeued w' = dequeued w
              ∧ (∀ th, th ∈ l → jthreads w' !! Ex7.mThread th ≫= handle = None)
              ∧ (∀ k, jthreads w !! k ≫= handle = None →
                      jthreads w' !! k ≫= handle = None)).
Proof.
  induction l as [|th l IH]; intros w Hw; simpl.
  - apply wp_done. split; [done|]. split; [done|]. split; [done|]. split; [done|].
    split; [|done]. intros th Hin. by apply elem_of_nil in Hin.
  - unfold bind. apply wp_bind. rewrite Ex7_dtor_text.
    eapply wp_mono; [|by apply (dtor_settled n)].
    simpl. intros o w1 (-> & Hw1 & Hp1 & Hd1 & Hk1 & Hoth1).
    eapply wp_mono; [|by apply IH].
    simpl. intros o w2 (-> & Hw2 & Hp2 & Hd2 & Hall2 & Hkeep2).
    split; [done|]. split; [done|]. split; [congruence|]. split; [congruence|].
    split.
    + intros th' [->|Hin]%elem_of_cons; [by apply Hkeep2|by apply Hall2].
    + intros k Hk. apply Hkeep2.
      destruct (decide (k = Ex7.mThread th)) as [->|Hne]; [done|].
      by rewrite Hoth1.
Qed.

Lemma covered_all_joined w :
  covered w → (∀ k, jthreads w !! k ≫= handle = None) →
  ∀ t th, threads w !! t = Some th → alive th = false.
Proof.
  intros Hc Hnone t th Ht. destruct (alive th) eqn:Ea; [|done].
  destruct (Hc t th Ht Ea) as [k Hk]. by rewrite Hnone in Hk.
Qed.
End PoolExit.

Section PoolKill.
Context {T : Type}.
Implicit Types (w : world T).

Lemma member_stop_exact extra th w :
  member_ok extra th w →
  ∃ s h st,
    jthreads w !! Ex7.mThread th = Some (JThread (Some s) h)
    ∧ sstates w !! s = Some st ∧ callbacks st = []
    ∧ Ex7.stop th false w
      = Done tt (set_sstates <[s := StopState true []]> w).
Proof.
  intros [Hne (s & h & st & Hj & Hs & Hc)]. exists s, h, st.
  split; [done|]. split; [done|]. split; [done|].
  unfold Ex7.stop, bind, gets, get_stop_token, get_stop_source. simpl.
  rewrite Hj. simpl. rewrite Hj. simpl.
  by rewrite (request_stop_quiet s st).
Qed.

Lemma runs_done_inv {R} (r : R) w o w' : runs (Done r w) o w' → o = Ok r ∧ w' = w.
Proof. intros Hr. by inversion Hr; subst. Qed.

Lemma kill_inv_env extra rest (n : nat) w w' :
  kill_inv extra rest n w → env_star w w' → kill_inv extra rest n w'.
Proof.
  intros (Hk & Hc & Hr & Hlj & Hlt) Henv.
  destruct (pool_killing_env _ _ _ _ Hk Henv) as [Hk' _].
  destruct Hk as [Hb _].
  destruct (pool_env w w' Hb Henv) as [_ (Hs & Hj & _)].
  destruct (env_star_frame _ _ Henv) as (_ & Hl & _).
  split; [done|]. split; [by eapply covered_env|].
  split; [by rewrite Hs, Hj|]. split; [by rewrite Hj|by rewrite Hl, Hj].
Qed.

(** Stopping a member that has no callback. *)
Lemma kill_member extra th rest (n : nat) w :
  kill_inv extra (th :: rest) n w → member_ok extra th w →
  ∀ w', Ex7.stop th false w = Done tt w' → pool_killing extra rest w' →
  kill_inv extra rest n w'.
Proof.
  intros (Hk & Hc & Hr & Hlj & Hlt) Hm w' Hstop Hk'.
  destruct (member_stop_exact _ _ _ Hm) as (s & h & st & Hj & Hs & Hcb & Heq).
  rewrite Heq in Hstop. injection Hstop as <-.
  split; [done|]. split; [done|]. split; [|done].
  intros s' st'. simpl. destruct (decide (s = s')) as [<-|Hne].
  - rewrite list_lookup_insert_eq by by eapply lookup_lt_Some.
    by intros [= <-].
  - rewrite list_lookup_insert_ne by done. intros Hs' Hcb'.
    destruct (Hr s' st' Hs' Hcb') as (d & h' & [->|Hin]%elem_of_cons & Hd).
    + rewrite Hj in Hd. by injection Hd as ->.
    + by exists d, h'.
Qed.

Lemma kill_step_inv extra th rest (n : nat) w :
  Ex7.mFinishEarly extra = false →
  kill_inv extra (th :: rest) n w →
  wp (Ex7.stop th false w) (λ o w', o = Ok tt ∧ kill_inv extra rest n w').
Proof.
  intros Hfe Hinv o w' Hr.
  pose proof Hinv as (Hk & Hc & Hreg & Hlj & Hlt).
  destruct (kill_step extra th rest w Hfe Hk o w' Hr) as (-> & Hk' & _).
  split; [done|].
  destruct Hk as [Hb [(Hu & before & d & after & Hrest & H1 & H2 & H3)|[Hrun Hm]]].
  - destruct before as [|b before]; simpl in Hrest; injection Hrest as -> ->.
    + (* the designated member *)
      destruct (stop_designated extra d w Hfe H2 Hu) as (s & id & Hs & Hwp).
      destruct (Hwp _ _ Hr) as (_ & Hj' & Ht' & Hs' & Hq' & Htr').
      destruct H2 as [Hne (s0 & h0 & id0 & Hj0 & Hs0)].
      assert (Hss : s = s0).
      { rewrite Ex7_stop_text in Hr.
        pose proof (stop_text_sets_flag _ _ _ _ false w Hj0 Hs0 _ _ Hr eq_refl) as Hrq.
        unfold stop_requested in Hrq. rewrite Hs' in Hrq.
        destruct (decide (s = s0)) as [|Hne0]; [done|].
        rewrite lookup_app_l in Hrq
          by (rewrite length_insert; by eapply lookup_lt_Some).
        rewrite list_lookup_insert_ne, Hs0 in Hrq by done. done. }
      subst s0.
      assert (Hlte : Ex7.mThread extra < length (jthreads w))
        by by eapply lookup_lt_Some.
      split; [done|]. split; [|split; [|split]].
      * intros t th. rewrite Ht', Hj'.
        intros [[_ Hth]|[-> <-]]%lookup_snoc_Some Ha.
        -- destruct (Hc t th Hth Ha) as [k Hk]. exists k.
           rewrite list_lookup_insert_ne; [done|].
           intros <-. by rewrite Hu in Hk.
        -- exists (Ex7.mThread extra). by rewrite list_lookup_insert_eq.
      * intros s' st'. rewrite Hs', Hj'.
        intros [[_ Hst]|[_ <-]]%lookup_snoc_Some Hcb; [|done].
        destruct (decide (s = s')) as [<-|Hne'].
        -- rewrite list_lookup_insert_eq in Hst by by eapply lookup_lt_Some.
           by injection Hst as <-.
        -- rewrite list_lookup_insert_ne in Hst by done.
           destruct (Hreg s' st' Hst Hcb) as (d' & h' & [->|Hin]%elem_of_cons & Hd').
           ++ rewrite Hj0 in Hd'. by injection Hd' as ->.
           ++ exists d', h'. split; [done|].
              rewrite list_lookup_insert_ne; [done|].
              rewrite Forall_forall in H3. by destruct (H3 d' Hin) as [? _].
      * by rewrite Hj', length_insert.
      * rewrite Hj', Ht', list_lookup_insert_eq by done. simpl.
        rewrite length_app. simpl. rewrite Hlt, Hu. simpl. lia.
    + (* a member before the designated one *)
      apply Forall_cons in H1 as [Hb1 H1].
      destruct (stop_member extra b w Hb1) as (w1 & Heq & _).
      rewrite Heq in Hr. apply runs_done_inv in Hr as [_ ->].
      by eapply kill_member.
  - apply Forall_cons in Hm as [Hm1 Hm].
    destruct (stop_member extra th w Hm1) as (w1 & Heq & _).
    rewrite Heq in Hr. apply runs_done_inv in Hr as [_ ->].
    by eapply kill_member.
Qed.

Lemma kill_loop_inv extra rest (n : nat) : ∀ w,
  Ex7.mFinishEarly extra = false →
  kill_inv extra rest n w →
  wp (for_each rest (λ thread, yield ;;; Ex7.stop thread false)%prog w)
     (λ o w', o = Ok tt ∧ kill_inv extra [] n w').
Proof.
  induction rest as [|th rest IH]; intros w Hfe Hk.
  - simpl. by apply wp_done.
  - simpl. unfold bind at 1. unfold bind at 1. unfold yield. simpl.
    apply wp_wait. intros w1 Henv _.
    pose proof (kill_inv_env _ _ _ _ _ Hk Henv) as Hk1.
    apply wp_bind. eapply wp_mono; [|by apply (kill_step_inv extra th rest n w1)].
    simpl. intros o w2 (-> & Hk2). by apply IH.
Qed.

(** The shutdown leaves the pool settled, with the extra thread joined. *)
Lemma shutdown_settles extra pool (n : nat) w :
  Ex7.mFinishEarly extra = false →
  kill_inv extra pool n w →
  wp (Ex7.pool_shutdown pool extra w)
     (λ o w', o = Ok tt
              ∧ settled n w'
              ∧ pushed w' = pushed w
              ∧ dequeued w' = pushed w'
              ∧ jthreads w' !! Ex7.mThread extra ≫= handle = None).
Proof.
  intros Hfe Hk.
  unfold Ex7.pool_shutdown. unfold bind at 1. apply wp_bind.
  eapply wp_mono;
    [|apply wp_and; [by apply (kill_loop_inv extra pool n w)
                    |apply (kill_loop extra pool w Hfe); by destruct Hk]].
  simpl. intros o w1 [(-> & Hk1) (_ & _ & _ & Hp1)].
  unfold bind at 1. unfold yield. simpl.
  apply wp_wait. intros w2 Henv _.
  pose proof (kill_inv_env _ _ _ _ _ Hk1 Henv) as (Hk2 & Hc2 & Hr2 & Hlj2 & Hlt2).
  assert (Hp2 : pushed w2 = pushed w1).
  { destruct Hk1 as (Hk1 & _). by destruct (pool_killing_env _ _ _ _ Hk1 Henv). }
  destruct Hk2 as [Hb2 [(_ & before & d & after & Hnil & _)|[Hrun _]]];
    [by destruct before|].
  destruct Hrun as (se & te & al & Hj & Ht & st & Hs & Hcb).
  assert (Hn2 : no_callbacks w2).
  { intros s' st' Hs'. destruct (callbacks st') eqn:E; [done|].
    destruct (Hr2 s' st' Hs') as (d & h & Hin & _); [by rewrite E|].
    by apply elem_of_nil in Hin. }
  rewrite Ex7_stop_text.
  unfold stop_text, bind, gets, get_stop_token, get_stop_source. simpl.
  rewrite Hj. simpl. rewrite Hj. simpl.
  destruct (request_stop_flags (Some se) w2 Hn2) as (r & w3 & -> & Hfl & Hn3 & _).
  simpl.
  pose proof (pool_base_flags _ _ Hfl Hb2) as Hb3.
  pose proof (pushed_flags _ _ Hfl) as Hp3.
  pose proof (covered_flags _ _ Hfl Hc2) as Hc3.
  destruct Hfl as (Hj3 & Ht3 & _).
  unfold jthread_join. rewrite Hj3, Hj.
  apply wp_wait. intros w4 Henv4 Hready. simpl in Hready.
  destruct (pool_env w3 w4 Hb3 Henv4) as [Hb4 (Hs4 & Hj4 & Hp4 & Hl4 & Hth4)].
  rewrite Ht3 in Hth4. destruct (Hth4 te _ Ht) as [al4 Hal4]. simpl in Hal4.
  assert (Hfin : al4 = false).
  { unfold finished in Hready. rewrite Hal4 in Hready. simpl in Hready.
    by apply negb_true_iff in Hready. }
  subst al4.
  assert (Hq4 : taskQueue w4 = []).
  { destruct Hb4 as (_ & Hdr & _). by eapply (Hdr te). }
  assert (Hw4 : settled n w4).
  { split; [done|]. split; [by intros s' st'; rewrite Hs4; apply Hn3|].
    split; [by eapply covered_env|]. split; [done|].
    split; [by rewrite Hj4, Hj3|].
    rewrite Hl4, Ht3, Hlt2, Hj. done. }
  apply wp_done. split; [done|].
  split; [apply (settled_join n _ te (Some se)); [done| |done]; by rewrite Hj4, Hj3|].
  split; [change (pushed w4 = pushed w); congruence|].
  split.
  - change (dequeued w4 = pushed w4). destruct Hb4 as (_ & _ & Hf).
    rewrite Hf, Hq4. by rewrite app_nil_r.
  - simpl. rewrite list_lookup_insert_eq; [done|].
    rewrite Hj4, Hj3. by eapply lookup_lt_Some.
Qed.

Lemma pool_of_elem (n : nat) th :
  th ∈ pool_of n ↔ ∃ j, j < n ∧ th = {| Ex7.mFinishEarly := true; Ex7.mThread := S j |}.
Proof.
  unfold pool_of. rewrite list_elem_of_fmap. split.
  - intros (j & -> & Hin). apply elem_of_seq in Hin. exists j. split; [lia|done].
  - intros (j & Hj & ->). exists j. split; [done|]. apply elem_of_seq. lia.
Qed.

(** What [main] has built, member by member, is ready to be killed. *)
Lemma pool_built_kill_inv (threadCount : Z) w :
  (0 < threadCount)%Z →
  pool_built (special threadCount) (Z.to_nat threadCount) w →
  kill_inv ex7_extra (pool_of (Z.to_nat threadCount)) (Z.to_nat threadCount) w.
Proof.
  intros Hn Hpb.
  pose proof (pool_built_ready threadCount w Hn Hpb) as (Hfe & Hb & Hu & Hpool).
  destruct Hpb as (Hlj & Hls & Hlt & Hj0 & Hjs & Hss & Hbod & Hcons).
  split; [split; [done|]; left; by split|].
  split; [|split; [|split; [done|]]].
  - intros t th Ht _. exists (S t).
    rewrite Hjs; [done|]. rewrite <-Hlt. by eapply lookup_lt_Some.
  - intros s st Hs Hcb.
    assert (Hlt' : s < Z.to_nat threadCount).
    { rewrite <-Hls. by eapply lookup_lt_Some. }
    exists {| Ex7.mFinishEarly := true; Ex7.mThread := S s |}, (Some s).
    split; [apply pool_of_elem; by exists s|]. simpl. by apply Hjs.
  - simpl. rewrite Hj0. done.
Qed.

Lemma pool_setup_built (threadCount : Z) :
  (0 < threadCount)%Z →
  wp (Ex7.pool_setup threadCount (@world0 T))
     (λ o w, o = Ok (ex7_extra, pool_of (Z.to_nat threadCount))
             ∧ pool_built (special threadCount) (Z.to_nat threadCount) w
             ∧ pushed w = reverse (seqZ 1 (threadCount * 10))).
Proof.
  intros Hn. rewrite pool_setup_text.
  unfold bind at 1. unfold Ex7.WorkerThread_ctor, bind, jthread_new, ret. simpl.
  apply wp_bind.
  replace (seqZ 0 threadCount)
    with (seqZ (Z.of_nat 0) (Z.of_nat (Z.to_nat threadCount)))
    by (f_equal; lia).
  eapply wp_mono; [|apply (create_loop threadCount (Z.to_nat threadCount) 0);
                    apply world0_built].
  simpl. intros o w1 (-> & Hpb1 & Hp1).
  unfold yield. simpl. apply wp_wait. intros w2 Henv _.
  destruct (pool_built_env _ _ _ _ Hpb1 Henv) as [Hpb2 Hp2].
  apply wp_bind. eapply wp_mono; [|by apply (push_loop _ _ _ w2 Hpb2)].
  simpl. intros o w3 (-> & Hpb3 & Hp3).
  destruct (Z.eqb_spec threadCount 0) as [->|_]; [lia|].
  simpl. apply wp_wait. intros w4 Henv4 _.
  destruct (pool_built_env _ _ _ _ Hpb3 Henv4) as [Hpb4 Hp4].
  apply wp_done. split; [done|]. split; [done|].
  rewrite Hp4, Hp3, Hp2, Hp1. done.
Qed.
End PoolKill.

(** * Nothing throws but a [join()] of a jthread without thread *)

Section NoThrow.
Context {T : Type}.
Implicit Types (w : world T).

Lemma sure_sound (J : world T → world T → Prop) :
  callbacks_return J →
  ∀ R (x : res T R) o w', runs x o w' → ∀ Q, sure J Q x → Q o w'.
Proof.
  intros HJ R x o w' Hr.
  induction Hr as [R r w|R e w|R c w k w1 o w2 He Hc _ IH
                  |R a w k w1 o w2 _ IH1 _ IH2|R a w k e w1 _ IH];
    intros Q Hs; inversion Hs; subst.
  - done.
  - done.
  - apply IH. auto.
  - apply IH2. match goal with H : ∀ w', J w w' → _ |- _ => apply H end.
    by destruct (IH1 _ (HJ a w)).
  - by destruct (IH _ (HJ a w)).
Qed.

Lemma sure_wp (J : world T → world T → Prop) R (x : res T R) Q :
  callbacks_return J → sure J Q x → wp x Q.
Proof. intros HJ Hs o w Hr. by eapply sure_sound. Qed.

Lemma sure_bind {R S} (J : world T → world T → Prop)
    (Q : result S → world T → Prop) (x : res T R) (f : R → M T S) :
  sure J (λ o w, match o with
                 | Ok r => sure J Q (f r w)
                 | Exn e => Q (Exn e) w
                 end) x →
  sure J Q (bind_res x f).
Proof.
  intros Hs. induction Hs as [r w Hr|e w Hr|c w k _ IH|a w k _ IH]; simpl.
  - done.
  - by constructor.
  - constructor. auto.
  - constructor. auto.
Qed.

Lemma joinable_kept_refl w : joinable_kept w w.
Proof. by intros jt. Qed.

Lemma joinable_kept_trans w1 w2 w3 :
  joinable_kept w1 w2 → joinable_kept w2 w3 → joinable_kept w1 w3.
Proof. intros H1 H2 jt Hj. by apply H2, H1. Qed.

Lemma joinable_kept_same w w' : jthreads w' = jthreads w → joinable_kept w w'.
Proof. intros Hj jt. unfold joinable. by rewrite Hj. Qed.

Lemma joinable_kept_env w w' : env_star w w' → joinable_kept w w'.
Proof.
  intros Henv. apply joinable_kept_same. by destruct (env_star_frame _ _ Henv).
Qed.

Lemma joinable_kept_assign (jt t : nat) src w w' :
  jthreads w' = jthreads w →
  joinable_kept w (set_jthreads <[jt := JThread src (Some t)]> w').
Proof.
  intros Hj jt' Hjt'. unfold joinable in *. simpl. rewrite Hj.
  destruct (decide (jt = jt')) as [<-|Hne].
  - rewrite list_lookup_insert_eq; [done|].
    destruct (jthreads w !! jt) eqn:E; [|done]. by eapply lookup_lt_Some.
  - by rewrite list_lookup_insert_ne.
Qed.

Lemma sure_drain (Q : result bool → world T → Prop) w0 n s : ∀ w,
  joinable_kept w0 w →
  (∀ w', joinable_kept w0 w' → Q (Ok true) w') →
  sure joinable_kept Q (drain n s w).
Proof.
  induction n as [|n IH]; simpl; intros w Hw Hf; [by constructor; apply Hf|].
  destruct (sstates w !! s ≫= ss_take) as [[[id a] st]|] eqn:E; simpl;
    [|by constructor; apply Hf].
  apply sure_call. intros w' Hw'.
  assert (Hk : joinable_kept w0 w').
  { eapply joinable_kept_trans; [exact Hw|].
    eapply joinable_kept_trans; [|exact Hw']. by apply joinable_kept_same. }
  destruct (callbacks st); [by constructor; apply Hf|].
  constructor. intros w'' Henv _. apply IH; [|done].
  eapply joinable_kept_trans; [exact Hk|]. by apply joinable_kept_env.
Qed.

Lemma sure_request_stop (Q : result bool → world T → Prop) src w :
  (∀ r w', joinable_kept w w' → Q (Ok r) w') →
  sure joinable_kept Q (request_stop src w).
Proof.
  intros Hf. unfold request_stop.
  destruct src as [s|]; [|by constructor; apply Hf, joinable_kept_refl].
  destruct (sstates w !! s) as [st|];
    [|by constructor; apply Hf, joinable_kept_refl].
  unfold ss_try_request. destruct (requested st); simpl;
    [by constructor; apply Hf, joinable_kept_refl|].
  apply (sure_drain _ w); [by apply joinable_kept_same|]. intros w'. apply Hf.
Qed.

(** [join()] of a joinable jthread returns. *)
Lemma sure_jthread_join (Q : result unit → world T → Prop) (jt : nat) w :
  joinable jt w = true →
  (∀ w1 src t, jthreads w1 = jthreads w →
     jthreads w !! jt = Some (JThread src (Some t)) →
     Q (Ok tt) (set_jthreads <[jt := JThread src None]> w1)) →
  sure joinable_kept Q (jthread_join jt w).
Proof.
  intros Hj Hf. unfold jthread_join, joinable in *.
  destruct (jthreads w !! jt) as [[src [t|]]|] eqn:E; [|done..].
  constructor. intros w1 Henv _. constructor.
  apply (Hf w1 src t); [|done]. by destruct (env_star_frame _ _ Henv).
Qed.

Lemma sure_jthread_start (jt : nat) (b : body T) w :
  sure joinable_kept (λ o w', o = Ok tt ∧ joinable_kept w w')
    (jthread_start jt b w).
Proof.
  unfold jthread_start, bind, jthread_ctor; simpl.
  set (w1 := set_threads _ _).
  assert (Hj1 : jthreads w1 = jthreads w) by done.
  clearbody w1. unfold jthread_move_assign, bind, gets; simpl.
  destruct (joinable jt w1) eqn:Ej; simpl.
  - apply sure_bind. apply sure_bind.
    apply sure_request_stop. intros _ w2 Hw2.
    apply sure_jthread_join; [by apply Hw2|].
    intros w3 src t Hj3 Hjt. constructor. split; [done|].
    rewrite set_jthreads_insert_insert.
    eapply joinable_kept_trans; [by apply joinable_kept_same|].
    eapply joinable_kept_trans; [exact Hw2|].
    by apply joinable_kept_assign.
  - constructor. split; [done|].
    eapply joinable_kept_trans; [by apply (joinable_kept_same w w1)|].
    by apply joinable_kept_assign.
Qed.

Lemma joinable_kept_callbacks : callbacks_return (T:=T) joinable_kept.
Proof.
  intros [a|jt b] w; simpl.
  - unfold modify. constructor. split; [done|].
    apply joinable_kept_same. by destruct a.
  - apply sure_jthread_start.
Qed.

Lemma sure_mono (J : world T → world T → Prop) R (x : res T R)
    (Q Q' : result R → world T → Prop) :
  (∀ o w, Q o w → Q' o w) → sure J Q x → sure J Q' x.
Proof. intros HQ. induction 1; constructor; auto. Qed.

Lemma returns_sure R (x : res T R) (Q : result R → world T → Prop) :
  (∀ o w, Q o w → ∃ r, o = Ok r) → sure joinable_kept Q x → returns x.
Proof.
  intros HQ Hs. eapply sure_wp; [apply joinable_kept_callbacks|].
  by eapply sure_mono.
Qed.

Lemma sure_stop (jt : nat) w :
  sure joinable_kept (λ o w', o = Ok tt ∧ joinable_kept w w')
    (stop_text jt false w).
Proof.
  unfold stop_text, bind, gets; simpl.
  destruct (stop_possible (get_stop_token jt w)); simpl;
    [|by constructor; split; [|apply joinable_kept_refl]].
  apply sure_bind. apply sure_request_stop. intros _ w2 Hw2.
  by constructor.
Qed.

Lemma sure_stop_block (jt : nat) w :
  joinable jt w = true →
  sure joinable_kept (λ o w', o = Ok tt) (stop_text jt true w).
Proof.
  intros Hj. unfold stop_text, bind, gets; simpl.
  destruct (stop_possible (get_stop_token jt w)); simpl; [|by constructor].
  apply sure_bind. apply sure_request_stop. intros _ w2 Hw2.
  apply sure_jthread_join; [by apply Hw2|]. done.
Qed.

Lemma sure_jthread_dtor (jt : nat) w :
  sure joinable_kept (λ o w', o = Ok tt) (jthread_dtor jt w).
Proof.
  unfold jthread_dtor, bind, gets; simpl.
  destruct (joinable jt w) eqn:Ej; simpl; [|by constructor].
  apply sure_bind. apply sure_request_stop. intros _ w2 Hw2.
  apply sure_jthread_join; [by apply Hw2|]. done.
Qed.

Lemma sure_dtor_text (jt : nat) w :
  sure joinable_kept (λ o w', o = Ok tt) (dtor_text jt w).
Proof.
  unfold dtor_text, bind. apply sure_bind.
  eapply sure_mono; [|apply sure_stop].
  simpl. intros o w' [-> _]. apply sure_jthread_dtor.
Qed.

Lemma sure_stop_callback_ctor tok (a : action T) w :
  sure joinable_kept (λ o w', ∃ h, o = Ok h) (stop_callback_ctor tok a w).
Proof.
  unfold stop_callback_ctor. destruct tok as [s|]; [|constructor; by eexists].
  destruct (sstates w !! s) as [st|]; [|constructor; by eexists].
  destruct (ss_register (next_cb w) a st) as [[] st']; [|constructor; by eexists].
  apply sure_call. intros w' _. constructor. by eexists.
Qed.

Lemma returns_join_text (jt : nat) w : returns (join_text jt w).
Proof.
  apply (returns_sure _ _ (λ o _, o = Ok tt)); [intros o _ ->; by eexists|].
  unfold join_text, bind, gets; simpl.
  destruct (joinable jt w) eqn:Ej; simpl; [|by constructor].
  by apply sure_jthread_join.
Qed.

(** X12. In the three worker classes nothing throws but the unguarded
    [join()] of a blocking [stop]: whatever the state of the process,
    whatever callbacks are registered and however the threads are
    scheduled, [start()], [stop()] without [block], [join()] and
    [addCallback()] cannot end by throwing, nor can the destructors of ex5
    and ex7, nor [stop(true)] on a worker whose jthread is joinable. *)
Theorem workers_never_throw (w : world T) (cb : action T)
    (s5 : Ex5.SimpleWorkerThrad) (s6 : Ex6.WorkerThread T) (s7 : Ex7.WorkerThread) :
  (returns (Ex5.start s5 w) ∧ returns (Ex5.stop s5 false w)
   ∧ returns (Ex5.join s5 w) ∧ returns (Ex5.addCallback s5 cb w)
   ∧ returns (Ex5.SimpleWorkerThrad_dtor s5 w)
   ∧ (joinable (Ex5.mThread s5) w = true → returns (Ex5.stop s5 true w)))
  ∧ (returns (Ex6.start s6 w) ∧ returns (Ex6.stop s6 false w)
     ∧ returns (Ex6.join s6 w) ∧ returns (Ex6.addCallback s6 cb w)
     ∧ (joinable (Ex6.mThread s6) w = true → returns (Ex6.stop s6 true w)))
  ∧ (returns (Ex7.start s7 w) ∧ returns (Ex7.stop s7 false w)
     ∧ returns (Ex7.join s7 w) ∧ returns (Ex7.addCallback s7 cb w)
     ∧ returns (Ex7.WorkerThread_dtor s7 w)
     ∧ (joinable (Ex7.mThread s7) w = true → returns (Ex7.stop s7 true w))).
Proof.
  assert (Hstart : ∀ jt b, returns (jthread_start jt b w)).
  { intros jt b. eapply returns_sure; [|apply sure_jthread_start].
    intros o w' [-> _]. by eexists. }
  assert (Hstop : ∀ jt, returns (stop_text jt false w)).
  { intros jt. eapply returns_sure; [|apply sure_stop].
    intros o w' [-> _]. by eexists. }
  assert (Hadd : ∀ jt, returns ((tok <- gets (get_stop_token jt) ;;
                                 stop_callback_ctor tok cb)%prog w)).
  { intros jt. eapply returns_sure; [|apply sure_stop_callback_ctor]. done. }
  assert (Hdtor : ∀ jt, returns (dtor_text jt w)).
  { intros jt. eapply returns_sure; [|apply sure_dtor_text].
    intros o w' ->. by eexists. }
  assert (Hblock : ∀ jt, joinable jt w = true → returns (stop_text jt true w)).
  { intros jt Hj. eapply returns_sure; [|by apply sure_stop_block].
    intros o w' ->. by eexists. }
  rewrite Ex5_start_jthread_start, Ex6_start_jthread_start, Ex7_start_jthread_start.
  split; [|split].
  - split; [apply Hstart|]. split; [apply (Hstop (Ex5.mThread s5))|].
    split; [apply (returns_join_text (Ex5.mThread s5))|].
    split; [apply (Hadd (Ex5.mThread s5))|].
    split; [apply (Hdtor (Ex5.mThread s5))|apply (Hblock (Ex5.mThread s5))].
  - split; [apply Hstart|]. split; [apply (Hstop (Ex6.mThread s6))|].
    split; [apply (returns_join_text (Ex6.mThread s6))|].
    split; [apply (Hadd (Ex6.mThread s6))|apply (Hblock (Ex6.mThread s6))].
  - split; [apply Hstart|]. split; [apply (Hstop (Ex7.mThread s7))|].
    split; [apply (returns_join_text (Ex7.mThread s7))|].
    split; [apply (Hadd (Ex7.mThread s7))|].
    split; [apply (Hdtor (Ex7.mThread s7))|apply (Hblock (Ex7.mThread s7))].
Qed.
End NoThrow.

(** * A blocking stop can return *)

Section StopProgress.
Context {T : Type}.
Implicit Types (w : world T).

Lemma steps_env (n t : nat) : ∀ w w', steps n t w = Some w' → env_star w w'.
Proof.
  induction n as [|n IH]; simpl; intros w w'.
  - intros [= <-]. apply rtc_refl.
  - destruct (thread_step t w) as [w1|] eqn:E; simpl; [|done].
    intros Hs. eapply rtc_l; [by exists t|]. by apply IH.
Qed.

Lemma thread_step_B5i (t jt : nat) token tok w :
  threads w !! t = Some (Thread (B5_interruptable jt token) tok true) →
  thread_step t w = Ex5.interruptableWorker jt token t w.
Proof. intros Ht. unfold thread_step. by rewrite Ht. Qed.

Lemma finished_exit (t : nat) (th : thread T) w :
  threads w !! t = Some th → finished t (exit_thread t w) = true.
Proof. intros Ht. apply finished_exit_thread_same. by eapply lookup_lt_Some. Qed.

(** Once the stop is requested, each cooperative worker can return. *)
Lemma interruptable_can_finish (t jt s : nat) token tok al w :
  threads w !! t = Some (Thread (B5_interruptable jt token) tok al) →
  token = None ∨ token = Some (Some s) →
  get_stop_token jt w = Some s →
  stop_requested (Some s) w = true →
  ∃ w', env_star w w' ∧ finished t w' = true.
Proof.
  intros Ht Htok Hj Hrq. destruct al.
  - assert (Hbound : ∀ w1, threads w1 !! t
                       = Some (Thread (B5_interruptable jt (Some (Some s))) tok true) →
                       stop_requested (Some s) w1 = true →
                       ∃ w', env_star w1 w' ∧ finished t w' = true).
    { intros w1 Ht1 Hrq1. exists (exit_thread t w1). split.
      - apply rtc_once. exists t. rewrite (thread_step_B5i _ _ _ _ _ Ht1).
        unfold Ex5.interruptableWorker. by rewrite Hrq1.
      - by eapply finished_exit. }
    destruct Htok as [->| ->]; [|by apply Hbound].
    destruct (Hbound (set_body t (B5_interruptable jt (Some (Some s))) w))
      as (w' & Henv & Hf); [by eapply lookup_set_body|done|].
    exists w'. split; [|done].
    eapply rtc_l; [|exact Henv]. exists t.
    rewrite (thread_step_B5i _ _ _ _ _ Ht). unfold Ex5.interruptableWorker.
    by rewrite Hj.
  - exists w. split; [apply rtc_refl|]. unfold finished. by rewrite Ht.
Qed.

Lemma uninterruptable_can_finish (t i : nat) tok al w :
  threads w !! t = Some (Thread (B5_uninterruptable i) tok al) →
  i ≤ 20 →
  ∃ w', env_star w w' ∧ finished t w' = true.
Proof.
  intros Ht Hi. destruct al.
  - exists (exit_thread t (set_body t (B5_uninterruptable 20) w)). split.
    + apply (steps_env (21 - i) t).
      replace (21 - i) with ((20 - i) + 1) by lia.
      rewrite steps_app, (rounds_steps t tok (20 - i) i) by (done || lia).
      simpl. replace (i + (20 - i)) with 20 by lia.
      erewrite thread_step_B5u; [|by eapply lookup_set_body]. done.
    + eapply finished_exit. by eapply lookup_set_body.
  - exists w. split; [apply rtc_refl|]. unfold finished. by rewrite Ht.
Qed.

Lemma pool_worker_can_finish (t : nat) fe tok al : ∀ q w,
  taskQueue w = q →
  threads w !! t = Some (Thread (B7_worker fe) tok al) →
  stop_requested tok w = true →
  ∃ w', env_star w w' ∧ finished t w' = true.
Proof.
  destruct al; [|intros q w _ Ht _; exists w; split; [apply rtc_refl|];
                 unfold finished; by rewrite Ht].
  destruct fe.
  - intros q w _ Ht Hrq. exists (exit_thread t w). split.
    + apply rtc_once. exists t. rewrite (thread_step_B7 _ _ _ _ Ht).
      by apply worker_leaves_early.
    + by eapply finished_exit.
  - induction q as [|v q IH]; intros w Hq Ht Hrq.
    + exists (exit_thread t w). split.
      * apply rtc_once. exists t. rewrite (thread_step_B7 _ _ _ _ Ht).
        by apply worker_leaves_drained.
      * by eapply finished_exit.
    + destruct (IH (emit (EPop t v) (set_taskQueue q w))) as (w' & Henv & Hf);
        [done|done|by rewrite stop_requested_emit_pop|].
      exists w'. split; [|done].
      eapply rtc_l; [|exact Henv]. exists t.
      rewrite (thread_step_B7 _ _ _ _ Ht). by apply worker_takes.
Qed.

Lemma jthread_join_runs (jt : nat) src (t : nat) w w2 :
  jthreads w !! jt = Some (JThread src (Some t)) →
  env_star w w2 → finished t w2 = true →
  runs (jthread_join jt w) (Ok tt) (set_jthreads <[jt := JThread src None]> w2).
Proof.
  intros Hj Henv Hf. unfold jthread_join. rewrite Hj.
  eapply runs_wait; [exact Henv|exact Hf|]. constructor.
Qed.

Lemma stop_text_block_runs (jt s t : nat) st w :
  jthreads w !! jt = Some (JThread (Some s) (Some t)) →
  sstates w !! s = Some st → callbacks st = [] →
  (∃ w2, env_star (set_sstates <[s := StopState true []]> w) w2
         ∧ finished t w2 = true) →
  ∃ w', runs (stop_text jt true w) (Ok tt) w'.
Proof.
  intros Hj Hs Hc (w2 & Henv & Hf).
  unfold stop_text, bind, gets, get_stop_token, get_stop_source.
  simpl. rewrite Hj. simpl. rewrite Hj. simpl.
  rewrite (request_stop_quiet s st) by done. simpl.
  unfold jthread_join. simpl. rewrite Hj.
  eexists. eapply runs_wait; [exact Henv|exact Hf|]. constructor.
Qed.

(** X13. A blocking [stop] can return: from every state in which a
    cooperative worker is started and no stop callback is registered on
    it, there is a schedule under which [stop(true)] returns.  This holds
    for the interruptable worker of ex5 (whether or not it has already
    bound its token), for the uninterruptable one (which first does the
    rest of its twenty rounds), and for the pool worker of ex7 with either
    policy and any queue. *)
Theorem stop_block_can_return (w : world T)
    (s5 : Ex5.SimpleWorkerThrad) (s7 : Ex7.WorkerThread) (s t : nat) st :
  sstates w !! s = Some st → callbacks st = [] →
  (∀ token al,
     jthreads w !! Ex5.mThread s5 = Some (JThread (Some s) (Some t)) →
     threads w !! t
     = Some (Thread (B5_interruptable (Ex5.mThread s5) token) (Some s) al) →
     token = None ∨ token = Some (Some s) →
     ∃ w', runs (Ex5.stop s5 true w) (Ok tt) w')
  ∧ (∀ i al,
     jthreads w !! Ex5.mThread s5 = Some (JThread (Some s) (Some t)) →
     threads w !! t = Some (Thread (B5_uninterruptable i) (Some s) al) →
     i ≤ 20 →
     ∃ w', runs (Ex5.stop s5 true w) (Ok tt) w')
  ∧ (∀ fe al,
     jthreads w !! Ex7.mThread s7 = Some (JThread (Some s) (Some t)) →
     threads w !! t = Some (Thread (B7_worker fe) (Some s) al) →
     ∃ w', runs (Ex7.stop s7 true w) (Ok tt) w').
Proof.
  intros Hs Hc.
  assert (Hrq : stop_requested (Some s) (set_sstates <[s := StopState true []]> w)
                = true).
  { apply stop_requested_set. by eapply lookup_lt_Some. }
  split; [|split].
  - intros token al Hj Ht Htok. rewrite Ex5_stop_text.
    eapply stop_text_block_runs; [done..|].
    eapply (interruptable_can_finish t (Ex5.mThread s5) s); [exact Ht|done| |done].
    unfold get_stop_token. simpl. by rewrite Hj.
  - intros i al Hj Ht Hi. rewrite Ex5_stop_text.
    eapply stop_text_block_runs; [done..|].
    by eapply (uninterruptable_can_finish t i).
  - intros fe al Hj Ht. rewrite Ex7_stop_text.
    eapply stop_text_block_runs; [done..|].
    by eapply (pool_worker_can_finish t fe (Some s) al (taskQueue w)).
Qed.

Lemma set_sstates_insert_insert (s : nat) (st st' : stop_state (action T)) w :
  set_sstates <[s := st]> (set_sstates <[s := st']> w) = set_sstates <[s := st]> w.
Proof. unfold set_sstates; simpl. f_equal. apply list_insert_insert_eq. Qed.

Lemma invocations_emit (id : nat) w :
  invocations id (emit (EInvoke id) w) = S (invocations id w).
Proof.
  unfold invocations; simpl. rewrite count_app. simpl.
  rewrite Nat.eqb_refl. lia.
Qed.

(** X14. How [stop()] wakes the worker of ex6.  The worker's own stop
    callback is what notifies [mCv]: when a stop is requested on a worker
    that waits with that callback registered, [stop()] invokes the
    callback once, which notifies [mCv] once, and returns; the worker's
    next step then returns, whatever its data.  The same holds for the
    blocking [stop], which can return and then finds the thread returned. *)
Theorem stop_notifies_worker (w : world T) (this : Ex6.WorkerThread T)
    (s t id : nat) :
  jthreads w !! Ex6.mThread this = Some (JThread (Some s) (Some t)) →
  sstates w !! s
  = Some (StopState false [(id, ASimple (SNotifyAll (Ex6.mCv this)))]) →
  threads w !! t
  = Some (Thread (B6_worker (Ex6.mData this) (Ex6.mCv this)
                    (Ex6.taskComplete this) (Some (Some (s, id)))) (Some s) true) →
  let w' := emit (ENotifyAll (Ex6.mCv this))
              (emit (EInvoke id) (set_sstates <[s := StopState true []]> w)) in
  wp (Ex6.stop this false w) (λ o w1, o = Ok tt ∧ w1 = w')
  ∧ runs (Ex6.stop this false w) (Ok tt) w'
  ∧ notified (Ex6.mCv this) w' = S (notified (Ex6.mCv this) w)
  ∧ invocations id w' = S (invocations id w)
  ∧ thread_step t w'
    = Some (exit_thread t (stop_callback_dtor (Some (s, id)) w'))
  ∧ ∃ w2, runs (Ex6.stop this true w) (Ok tt) w2 ∧ finished t w2 = true.
Proof.
  intros Hj Hs Ht w'.
  assert (Hlt : s < length (sstates w)) by by eapply lookup_lt_Some.
  assert (Hstop : ∀ block,
            Ex6.stop this block w
            = Call (ASimple (SNotifyAll (Ex6.mCv this)))
                (emit (EInvoke id) (set_sstates <[s := StopState true []]> w))
                (λ w1, if block then jthread_join (Ex6.mThread this) w1
                       else Done tt w1)).
  { intros block. unfold Ex6.stop, bind, gets, get_stop_token, get_stop_source.
    simpl. rewrite Hj. simpl. rewrite Hj. simpl.
    unfold request_stop. rewrite Hs. simpl.
    rewrite list_lookup_insert_eq by done. simpl.
    rewrite set_sstates_insert_insert.
    destruct block; reflexivity. }
  assert (Hstep : thread_step t w'
                  = Some (exit_thread t (stop_callback_dtor (Some (s, id)) w'))).
  { erewrite thread_step_B6; [|exact Ht]. unfold Ex6.worker.
    replace (stop_requested (Some s) w') with true; [done|].
    symmetry. unfold stop_requested. simpl. by rewrite list_lookup_insert_eq. }
  split; [|split; [|split; [|split; [|split]]]].
  - rewrite Hstop. apply wp_call. simpl. unfold modify. by apply wp_done, wp_done.
  - rewrite Hstop. eapply runs_call; [constructor|]. constructor.
  - unfold w', notified. simpl. rewrite !count_app. simpl.
    rewrite Nat.eqb_refl. lia.
  - unfold w', invocations. simpl. rewrite !count_app. simpl.
    rewrite Nat.eqb_refl. lia.
  - done.
  - assert (Hfin : finished t (exit_thread t (stop_callback_dtor (Some (s, id)) w'))
                   = true).
    { apply finished_exit_thread_same.
      destruct (stop_callback_dtor_frame (Some (s, id)) w') as (_ & -> & _).
      unfold w'. simpl. by eapply lookup_lt_Some. }
    rewrite Hstop.
    exists (set_jthreads <[Ex6.mThread this := JThread (Some s) None]>
              (exit_thread t (stop_callback_dtor (Some (s, id)) w'))).
    split; [|exact Hfin].
    eapply runs_call; [constructor|].
    apply (jthread_join_runs _ (Some s) t w');
      [exact Hj|apply rtc_once; by exists t|exact Hfin].
Qed.
End StopProgress.

(** * [main] of ex7 can return *)

Section PoolLive.
Context {T : Type}.
Implicit Types (w : world T).

Lemma runs_bind {R S} (x : res T R) (f : R → M T S) r w1 o w2 :
  runs x (Ok r) w1 → runs (f r w1) o w2 → runs (bind_res x f) o w2.
Proof.
  revert r w1. induction x as [r0 w|e w|c w k IH|a w k IH]; simpl; intros r w1 Hx Hf.
  - by inversion Hx; subst.
  - inversion Hx.
  - inversion Hx as [| |? ? ? w3 ? ? Henv Hrd Hk| |]; subst.
    eapply runs_wait; [done|done|]. by eapply IH.
  - inversion Hx as [| | |? ? ? w3 ? ? Ha Hk|]; subst.
    eapply runs_call; [done|]. by eapply IH.
Qed.

Lemma can_done {R} (r : R) w (Q : R → world T → Prop) : Q r w → can (Done r w) Q.
Proof. intros HQ. exists r, w. split; [constructor|done]. Qed.

Lemma can_yield {R} w (k : world T → res T R) Q :
  can (k w) Q → can (Wait CYield w k) Q.
Proof.
  intros (r & w' & Hr & HQ). exists r, w'. split; [|done].
  eapply runs_wait; [apply rtc_refl|done|done].
Qed.

Lemma can_join {R} (t : nat) w w1 (k : world T → res T R) Q :
  env_star w w1 → finished t w1 = true → can (k w1) Q →
  can (Wait (CJoin t) w k) Q.
Proof.
  intros Henv Hf (r & w' & Hr & HQ). exists r, w'. split; [|done].
  by eapply runs_wait.
Qed.

Lemma can_call {R} a w w1 (k : world T → res T R) Q :
  runs (invoke a w) (Ok tt) w1 → can (k w1) Q → can (Call a w k) Q.
Proof.
  intros Ha (r & w' & Hr & HQ). exists r, w'. split; [|done].
  by eapply runs_call.
Qed.

Lemma can_bind {R S} (x : res T R) (f : R → M T S) Q Q' :
  can x Q → (∀ r w, Q r w → can (f r w) Q') → can (bind_res x f) Q'.
Proof.
  intros (r & w1 & Hx & HQ) Hf.
  destruct (Hf r w1 HQ) as (r' & w2 & Hr & HQ').
  exists r', w2. split; [by eapply runs_bind|done].
Qed.

Lemma can_wp {R} (x : res T R) P Q :
  wp x P → can x Q → can x (λ r w, P (Ok r) w ∧ Q r w).
Proof.
  intros Hwp (r & w' & Hr & HQ). exists r, w'. split; [done|].
  split; [by apply Hwp|done].
Qed.

Lemma can_mono {R} (x : res T R) (Q Q' : R → world T → Prop) :
  (∀ r w, Q r w → Q' r w) → can x Q → can x Q'.
Proof. intros HQ (r & w' & Hr & H). exists r, w'. split; [done|by apply HQ]. Qed.

(** What keeps [linked]. *)
Lemma linked_step (t : nat) w w' :
  linked w → thread_step t w = Some w' → linked w' ∧ sstates w' = sstates w.
Proof.
  intros [Hj Hb] Hstep.
  destruct (thread_step_frame _ _ _ Hstep) as (Hjt & _ & _).
  unfold thread_step in Hstep.
  destruct (threads w !! t) as [[b tok al]|] eqn:Et; [|done].
  simpl in Hstep. destruct al; [|done].
  destruct (Hb t _ Et) as [fe Hfe]. simpl in Hfe. subst b.
  apply worker_inv in Hstep as [(-> & _ & _)|(v & q & _ & ->)].
  - split; [|done]. split.
    + intros jt src t0 Hjt0. destruct (Hj jt src t0 Hjt0) as (s & fe0 & al & -> & Hs & Ht0).
      destruct (decide (t = t0)) as [<-|Hne].
      * exists s, fe0, false. split; [done|]. split; [done|].
        unfold exit_thread; simpl. by rewrite list_lookup_alter_eq, Ht0.
      * exists s, fe0, al. split; [done|]. split; [done|].
        unfold exit_thread; simpl. by rewrite list_lookup_alter_ne.
    + intros t0 th. unfold exit_thread; simpl.
      destruct (decide (t = t0)) as [<-|Hne].
      * rewrite list_lookup_alter_eq, Et. simpl. intros [= <-]. by exists fe.
      * rewrite list_lookup_alter_ne by done. apply Hb.
  - done.
Qed.

Lemma linked_env w w' :
  linked w → env_star w w' →
  linked w' ∧ sstates w' = sstates w ∧ jthreads w' = jthreads w.
Proof.
  intros Hl Henv.
  split; [|split; [|by destruct (env_star_frame _ _ Henv)]].
  - induction Henv as [w|w w1 w2 [t Hstep] _ IH]; [done|].
    apply IH. by destruct (linked_step t w w1).
  - induction Henv as [w|w w1 w2 [t Hstep] _ IH]; [done|].
    destruct (linked_step t w w1) as [Hl1 Hs1]; [done..|].
    by rewrite IH.
Qed.

Lemma linked_flags w w' : flags_only w w' → linked w → linked w'.
Proof.
  intros (Hjt & Ht & _ & _ & Hs) [Hj Hb]. split.
  - intros jt src t. rewrite Hjt, Ht. intros Hjt0.
    destruct (Hj jt src t Hjt0) as (s & fe & al & -> & Hlt & Ht0).
    exists s, fe, al. split; [done|]. split; [|done].
    destruct (lookup_lt_is_Some_2 _ _ Hlt) as [st Hst].
    destruct (Hs s st Hst) as (st' & Hst' & _). by eapply lookup_lt_Some.
  - intros t th. rewrite Ht. apply Hb.
Qed.

Lemma linked_join (jt : nat) src w :
  linked w → linked (set_jthreads <[jt := JThread src None]> w).
Proof.
  intros [Hj Hb]. split; [|done].
  intros jt' src' t. simpl. destruct (decide (jt = jt')) as [<-|Hne].
  - intros Hlk. apply list_lookup_insert_Some in Hlk as [(_ & [=] & _)|[? _]]; done.
  - rewrite list_lookup_insert_ne by done. apply Hj.
Qed.

Lemma linked_insert (s : nat) st w :
  linked w → linked (set_sstates <[s := st]> w).
Proof.
  intros [Hj Hb]. split; [|done].
  intros jt src t Hjt. simpl. rewrite length_insert. by apply (Hj jt).
Qed.

(** A worker started on a jthread that represents no thread. *)
Lemma linked_start (th : Ex7.WorkerThread) w :
  linked w →
  linked (set_jthreads <[Ex7.mThread th := JThread (Some (length (sstates w)))
                                                    (Some (length (threads w)))]>
            (set_threads (λ l, l ++ [Thread (B7_worker (Ex7.mFinishEarly th))
                                       (Some (length (sstates w))) true])
               (set_sstates (λ l, l ++ [ss_fresh]) w))).
Proof.
  intros [Hj Hb]. split.
  - intros jt src t. simpl. rewrite length_app. simpl.
    intros Hlk. apply list_lookup_insert_Some in Hlk as [(_ & [= <- <-] & _)|[Hne Hlk]].
    + exists (length (sstates w)), (Ex7.mFinishEarly th), true.
      split; [done|]. split; [lia|]. by rewrite list_lookup_middle.
    + destruct (Hj jt src t Hlk) as (s & fe & al & -> & Hlt & Ht).
      exists s, fe, al. split; [done|]. split; [lia|]. by apply lookup_app_l_Some.
  - intros t th'. simpl. intros [[_ Hth]|[_ <-]]%lookup_snoc_Some; [by eapply Hb|].
    by eexists.
Qed.

(** Building the pool, with no other thread scheduled in between. *)
Lemma create_one_can (threadCount : Z) (i : nat) w :
  pool_built (special threadCount) i w → linked w →
  can (pool_member_text ex7_extra (Z.quot threadCount 2) (Z.of_nat i) w)
      (λ r w', r = {| Ex7.mFinishEarly := true; Ex7.mThread := S i |}
               ∧ pool_built (special threadCount) (S i) w'
               ∧ linked w').
Proof.
  intros Hpb Hl.
  eapply can_mono; [|apply can_wp; [by apply create_one|]].
  { intros r w' [(Hr & Hpb' & _) Hl']. split; [by injection Hr|]. split; [done|exact Hl']. }
  destruct Hpb as (H1 & H2 & H3 & H4 & H5 & H6 & H7 & H8).
  unfold pool_member_text, bind, Ex7.WorkerThread_ctor, bind, jthread_new, ret.
  simpl. rewrite H1.
  rewrite start_unstarted by (simpl; rewrite <-H1; apply list_lookup_middle; done).
  simpl. unfold yield. simpl. apply can_yield.
  set (w1 := set_jthreads _ (set_threads _ _)).
  assert (Hl1 : linked w1).
  { apply (linked_start {| Ex7.mFinishEarly := true; Ex7.mThread := S i |}
             (set_jthreads (λ l, l ++ [default_jthread]) w)).
    destruct Hl as [Hj Hb]. split; [|done].
    intros jt src t. simpl. intros [[_ Hlk]|[_ [=]]]%lookup_snoc_Some.
    by apply (Hj jt). }
  assert (Hj1 : jthreads w1 !! S i
                = Some (JThread (Some (length (sstates w))) (Some (length (threads w))))).
  { unfold w1; simpl. apply list_lookup_insert_eq. rewrite length_app, H1. simpl. lia. }
  assert (Hs1 : sstates w1 !! length (sstates w) = Some (StopState false [])).
  { unfold w1; simpl. by rewrite list_lookup_middle. }
  clearbody w1.
  destruct (Z.of_nat i =? Z.quot threadCount 2)%Z.
  - rewrite (addCallback_registers {| Ex7.mFinishEarly := true; Ex7.mThread := S i |}
               _ _ _ [] w1 Hj1 Hs1). simpl.
    apply can_done. by apply linked_insert.
  - simpl. by apply can_done.
Qed.

Lemma create_loop_can (threadCount : Z) (n i : nat) w :
  pool_built (special threadCount) i w → linked w →
  can (map_each (seqZ (Z.of_nat i) (Z.of_nat n))
         (pool_member_text ex7_extra (Z.quot threadCount 2)) w)
      (λ r w', r = (λ j, {| Ex7.mFinishEarly := true; Ex7.mThread := S j |}) <$> seq i n
               ∧ pool_built (special threadCount) (i + n) w'
               ∧ linked w').
Proof.
  revert i w. induction n as [|n IH]; intros i w Hpb Hl.
  - rewrite seqZ_nil by done. simpl. apply can_done.
    rewrite Nat.add_0_r. by split; [|split].
  - rewrite seqZ_cons by lia.
    replace (Z.succ (Z.of_nat i)) with (Z.of_nat (S i)) by lia.
    replace (Z.pred (Z.of_nat (S n))) with (Z.of_nat n) by lia.
    simpl. unfold bind at 1.
    eapply can_bind; [by apply create_one_can|]. simpl.
    intros r w1 (-> & Hpb1 & Hl1).
    unfold bind at 1.
    eapply can_bind; [by apply IH|]. simpl.
    intros r w2 (-> & Hpb2 & Hl2). apply can_done.
    split; [done|]. split; [by rewrite <-Nat.add_succ_comm|done].
Qed.

Lemma push_loop_can (l : list Z) : ∀ w,
  linked w → can (for_each l pool_push_text w) (λ _ w', linked w').
Proof.
  induction l as [|v l IH]; intros w Hl.
  - simpl. by apply can_done.
  - simpl. unfold bind at 1. unfold pool_push_text at 1.
    unfold bind at 1. unfold yield. simpl. apply can_yield.
    unfold Ex7.push, modify. simpl. apply IH.
    destruct Hl as [Hj Hb]. by split.
Qed.

Lemma pool_setup_can (threadCount : Z) :
  (0 < threadCount)%Z →
  can (Ex7.pool_setup threadCount (@world0 T))
      (λ r w, r = (ex7_extra, pool_of (Z.to_nat threadCount))
              ∧ pool_built (special threadCount) (Z.to_nat threadCount) w
              ∧ linked w).
Proof.
  intros Hn.
  eapply can_mono; [|apply can_wp; [by apply pool_setup_built|]].
  { intros r w' [(Hr & Hpb' & _) Hl']. split; [by injection Hr|]. split; [done|exact Hl']. }
  rewrite pool_setup_text.
  unfold bind at 1. unfold Ex7.WorkerThread_ctor, bind, jthread_new, ret. simpl.
  replace (seqZ 0 threadCount)
    with (seqZ (Z.of_nat 0) (Z.of_nat (Z.to_nat threadCount)))
    by (f_equal; lia).
  eapply can_bind.
  { apply (create_loop_can threadCount (Z.to_nat threadCount) 0); [apply world0_built|].
    split; [|done]. intros [|jt] src t; simpl; done. }
  simpl. intros r w1 (-> & Hpb1 & Hl1).
  unfold yield. simpl. apply can_yield.
  eapply can_bind; [by apply push_loop_can|].
  simpl. intros _ w2 Hl2.
  destruct (Z.eqb_spec threadCount 0) as [->|_]; [lia|].
  simpl. apply can_yield. by apply can_done.
Qed.

(** Killing the pool. *)
Lemma kill_step_can extra th rest (n : nat) w :
  Ex7.mFinishEarly extra = false →
  kill_inv extra (th :: rest) n w → linked w →
  can (Ex7.stop th false w) (λ _ w', kill_inv extra rest n w' ∧ linked w').
Proof.
  intros Hfe Hk Hl.
  eapply can_mono; [|apply can_wp; [by apply (kill_step_inv extra th rest n w)|]].
  { intros r w' [[_ Hk'] Hl']. split; [exact Hk'|exact Hl']. }
  assert (Hmem : ∀ m, member_ok extra m w →
            can (Ex7.stop m false w) (λ _ w', linked w')).
  { intros m Hm. destruct (stop_member extra m w Hm) as (w' & -> & Hfl).
    apply can_done. by eapply linked_flags. }
  destruct Hk as ([Hb [(Hu & before & d & after & Hrest & H1 & H2 & H3)|[Hrun Hm]]] & _).
  - destruct before as [|b before]; simpl in Hrest; injection Hrest as -> ->.
    + destruct H2 as [Hne (s & h & id & Hj & Hs)].
      unfold Ex7.stop, bind, gets, get_stop_token, get_stop_source. simpl.
      rewrite Hj. simpl. rewrite Hj. simpl.
      unfold request_stop. rewrite Hs. unfold ss_try_request. simpl.
      rewrite list_lookup_insert_eq by by eapply lookup_lt_Some.
      simpl.
      set (w0 := emit _ _).
      assert (Hl0 : linked w0).
      { unfold w0. destruct (linked_insert s (StopState true []) _
                     (linked_insert s (StopState true [(id, Ex7.lambda extra)]) w Hl))
          as [Hj0 Hb0].
        by split. }
      assert (Hu0 : jthreads w0 !! Ex7.mThread extra = Some default_jthread) by exact Hu.
      clearbody w0.
      eapply can_call.
      * rewrite invoke_Ex7_lambda, (start_unstarted extra w0 Hu0). constructor.
      * apply can_done. by apply linked_start.
    + apply Hmem. by apply Forall_cons in H1 as [? _].
  - apply Hmem. by apply Forall_cons in Hm as [? _].
Qed.

Lemma kill_loop_can extra rest (n : nat) : ∀ w,
  Ex7.mFinishEarly extra = false →
  kill_inv extra rest n w → linked w →
  can (for_each rest (λ thread, yield ;;; Ex7.stop thread false)%prog w)
      (λ _ w', kill_inv extra [] n w' ∧ linked w').
Proof.
  induction rest as [|th rest IH]; intros w Hfe Hk Hl.
  - simpl. by apply can_done.
  - simpl. unfold bind at 1. unfold bind at 1. unfold yield. simpl.
    apply can_yield.
    eapply can_bind; [by apply (kill_step_can extra th rest n w)|].
    simpl. intros _ w2 [Hk2 Hl2]. by apply IH.
Qed.

(** The blocking stop of the extra thread: the worker, asked to stop,
    empties the queue and returns. *)
Lemma shutdown_can extra pool (n : nat) w :
  Ex7.mFinishEarly extra = false →
  kill_inv extra pool n w → linked w →
  can (Ex7.pool_shutdown pool extra w) (λ _ w', settled n w' ∧ linked w').
Proof.
  intros Hfe Hk Hl.
  eapply can_mono; [|apply can_wp; [by apply (shutdown_settles extra pool n w)|]].
  { intros r w' [(_ & Hs' & _) Hl']. split; [exact Hs'|exact Hl']. }
  unfold Ex7.pool_shutdown. unfold bind at 1.
  eapply can_bind; [by apply (kill_loop_can extra pool n w)|].
  simpl. intros _ w1 [Hk1 Hl1].
  unfold bind at 1. unfold yield. simpl. apply can_yield.
  destruct Hk1 as ([Hb1 [(_ & before & d & after & Hnil & _)|[Hrun _]]] & _);
    [by destruct before|].
  destruct Hrun as (se & te & al & Hj & Ht & st & Hs & Hcb).
  rewrite Ex7_stop_text.
  unfold stop_text, bind, gets, get_stop_token, get_stop_source. simpl.
  rewrite Hj. simpl. rewrite Hj. simpl.
  rewrite (request_stop_quiet se st) by done. simpl.
  unfold jthread_join. simpl. rewrite Hj.
  set (w3 := set_sstates _ w1).
  destruct (pool_worker_can_finish te false (Some se) al (taskQueue w3) w3)
    as (w4 & Henv & Hfin); [done|exact Ht| |].
  { apply stop_requested_set. by eapply lookup_lt_Some. }
  eapply can_join; [exact Henv|exact Hfin|].
  apply can_done. apply linked_join.
  eapply linked_env; [|exact Henv]. by apply linked_insert.
Qed.

(** The destructors: each joins its worker, which was asked to stop. *)
Lemma dtor_can (n k : nat) w :
  settled n w → linked w →
  can (dtor_text k w) (λ _ w', settled n w' ∧ linked w').
Proof.
  intros Hw Hl.
  eapply can_mono; [|apply can_wp; [by apply (dtor_settled n k w)|]].
  { intros r w' [(_ & Hs' & _) Hl']. split; [exact Hs'|exact Hl']. }
  assert (Hstop : ∃ w1, stop_text k false w = Done tt w1
                        ∧ flags_only w w1 ∧ no_callbacks w1).
  { unfold stop_text, bind, gets; simpl.
    destruct (stop_possible (get_stop_token k w)); simpl.
    - destruct (request_stop_flags (get_stop_source k w) w) as (r & w1 & -> & Hfl & Hn1 & _);
        [by destruct Hw as (_ & ? & _)|].
      by exists w1.
    - exists w. split; [done|]. split; [apply flags_only_refl|].
      by destruct Hw as (_ & ? & _). }
  destruct Hstop as (w1 & Hstop & Hfl1 & Hn1).
  unfold dtor_text, bind. rewrite Hstop. simpl.
  pose proof (linked_flags _ _ Hfl1 Hl) as Hl1.
  unfold jthread_dtor, bind, gets; simpl. unfold joinable.
  destruct (jthreads w1 !! k) as [[src [t|]]|] eqn:Ek; simpl.
  - destruct (proj1 Hl1 k src t Ek) as (s & fe & al & -> & Hlt & Ht).
    unfold get_stop_source. rewrite Ek. simpl.
    destruct (lookup_lt_is_Some_2 _ _ Hlt) as [st Hst].
    rewrite (request_stop_quiet s st) by (done || by eapply Hn1). simpl.
    unfold jthread_join. simpl. rewrite Ek.
    set (w2 := set_sstates _ w1).
    destruct (pool_worker_can_finish t fe (Some s) al (taskQueue w2) w2)
      as (w3 & Henv & Hfin); [done|exact Ht| |].
    { by apply stop_requested_set. }
    eapply can_join; [exact Henv|exact Hfin|].
    apply can_done. apply linked_join.
    eapply linked_env; [|exact Henv]. by apply linked_insert.
  - by apply can_done.
  - by apply can_done.
Qed.

Lemma exit_loop_can (n : nat) (l : list Ex7.WorkerThread) : ∀ w,
  settled n w → linked w →
  can (for_each l Ex7.WorkerThread_dtor w) (λ _ w', settled n w' ∧ linked w').
Proof.
  induction l as [|th l IH]; intros w Hw Hl; simpl.
  - by apply can_done.
  - unfold bind. rewrite Ex7_dtor_text.
    eapply can_bind; [by apply (dtor_can n)|].
    simpl. intros _ w1 [Hw1 Hl1]. by apply IH.
Qed.

Lemma main_can (threadCount : Z) :
  (0 < threadCount)%Z →
  ∃ w', runs (Ex7.main threadCount (@world0 T)) (Ok tt) w'.
Proof.
  intros Hn.
  assert (Hcan : can (Ex7.main threadCount (@world0 T)) (λ _ _, True)).
  { unfold Ex7.main. unfold bind at 1.
    eapply can_bind; [by apply pool_setup_can|]. simpl.
    intros r w (-> & Hpb & Hl). simpl.
    unfold bind at 1.
    eapply can_bind.
    { apply (shutdown_can ex7_extra _ (Z.to_nat threadCount)); [done| |done].
      by apply pool_built_kill_inv. }
    simpl. intros _ w1 [Hw1 Hl1].
    unfold Ex7.main_exit. unfold bind at 1.
    eapply can_bind; [by apply (exit_loop_can (Z.to_nat threadCount))|].
    simpl. intros _ w2 [Hw2 Hl2].
    rewrite Ex7_dtor_text.
    eapply can_mono; [|by apply (dtor_can (Z.to_nat threadCount))]. done. }
  destruct Hcan as ([] & w' & Hr & _). by exists w'.
Qed.

(** X11. [main] of ex7 leaks no thread and loses no task, for every
    positive thread count and however the threads are scheduled.  It
    cannot end otherwise than by returning; then every thread it created
    (the [threadCount] pool members and the extra thread) has returned and
    been joined, the queue is empty, and the tasks [threadCount * 10] down
    to 1 were all taken, in that order.  And there is a schedule under
    which it returns: its joins do not wait for ever. *)
Theorem main_joins_every_thread (threadCount : Z) :
  (0 < threadCount)%Z →
  wp (Ex7.main threadCount (@world0 T))
     (λ o w', o = Ok tt
              ∧ length (threads w') = S (Z.to_nat threadCount)
              ∧ (∀ t th, threads w' !! t = Some th → alive th = false)
              ∧ (∀ k, jthreads w' !! k ≫= handle = None)
              ∧ taskQueue w' = []
              ∧ dequeued w' = reverse (seqZ 1 (threadCount * 10)))
  ∧ ∃ w', runs (Ex7.main threadCount (@world0 T)) (Ok tt) w'.
Proof.
  intros Hn. split; [|by apply main_can].
  unfold Ex7.main. unfold bind at 1. apply wp_bind.
  eapply wp_mono; [|by apply pool_setup_built]. simpl.
  intros o w (-> & Hpb & Hp). simpl.
  unfold bind at 1. apply wp_bind.
  eapply wp_mono;
    [|apply (shutdown_settles ex7_extra _ (Z.to_nat threadCount)); [done|];
      by apply pool_built_kill_inv].
  simpl. intros o w1 (-> & Hw1 & Hp1 & Hd1 & He1).
  unfold Ex7.main_exit. unfold bind at 1. apply wp_bind.
  eapply wp_mono; [|by apply (exit_loop (Z.to_nat threadCount))].
  simpl. intros o w2 (-> & Hw2 & Hp2 & Hd2 & Hall2 & Hkeep2).
  rewrite Ex7_dtor_text.
  eapply wp_mono; [|by apply (dtor_settled (Z.to_nat threadCount))].
  simpl. intros o w3 (-> & Hw3 & Hp3 & Hd3 & Hk3 & Hoth3).
  assert (Hnone : ∀ k, jthreads w3 !! k ≫= handle = None).
  { intros [|j]; [done|].
    rewrite Hoth3 by done.
    destruct (decide (j < Z.to_nat threadCount)) as [Hlt|Hge].
    - apply (Hall2 {| Ex7.mFinishEarly := true; Ex7.mThread := S j |}).
      apply pool_of_elem. by exists j.
    - destruct Hw2 as (_ & _ & _ & _ & Hlj & _).
      rewrite lookup_ge_None_2; [done|]. rewrite Hlj. lia. }
  destruct Hw3 as (Hb3 & _ & Hc3 & Hq3 & _ & Hlt3).
  split; [done|]. split; [done|].
  split; [by apply covered_all_joined|]. split; [done|]. split; [done|].
  congruence.
Qed.
End PoolLive.

(** * Destroying a worker, and stopping it twice *)

Section WorkerLifecycle.
Context {T : Type}.
Implicit Types (w : world T).








(** Two blocking stops in a row on a started worker: the first returns
    once the thread has returned; the second finds the stop state still
    there, so [stop_possible()] holds, and calls [join()] on a jthread
    that is no longer joinable. *)
Lemma stop_text_twice_throws (jt s t : nat) st w :
  jthreads w !! jt = Some (JThread (Some s) (Some t)) →
  sstates w !! s = Some st → callbacks st = [] →
  wp ((stop_text jt true ;;; stop_text jt true)%prog w)
     (λ o w', o = Exn SystemError
              ∧ finished t w' = true
              ∧ stop_text jt false w' = Done tt w'
              ∧ join_text jt w' = Done tt w').
Proof.
  intros Hj Hs Hc. unfold bind. apply wp_bind.
  eapply wp_mono; [|by eapply stop_text_block_twice].
  simpl. intros o w' (-> & Hfin & Hthrow & Hstop & Hjoin).
  rewrite Hthrow. by apply wp_throw.
Qed.

(** C9. Where [stop] is not idempotent.  On a started worker on whose stop
    state no callback is registered, [stop(true)] followed by [stop(true)]
    ends, in every run, with [std::system_error] thrown by the second
    call: the thread was joined by the first, the stop state is still
    there, and the [join()] in [stop] has no [joinable()] guard.  In the
    state it leaves, [stop()] without [block] and [join()], which has the
    guard, return at once and change nothing. *)
Theorem C9_second_blocking_stop_throws (w : world T)
    (s5 : Ex5.SimpleWorkerThrad) (s6 : Ex6.WorkerThread T) (s7 : Ex7.WorkerThread)
    (s t : nat) st :
  sstates w !! s = Some st → callbacks st = [] →
  (jthreads w !! Ex5.mThread s5 = Some (JThread (Some s) (Some t)) →
     wp ((Ex5.stop s5 true ;;; Ex5.stop s5 true)%prog w)
        (λ o w', o = Exn SystemError
                 ∧ finished t w' = true
                 ∧ Ex5.stop s5 false w' = Done tt w'
                 ∧ Ex5.join s5 w' = Done tt w'))
  ∧ (jthreads w !! Ex7.mThread s7 = Some (JThread (Some s) (Some t)) →
     wp ((Ex7.stop s7 true ;;; Ex7.stop s7 true)%prog w)
        (λ o w', o = Exn SystemError
                 ∧ finished t w' = true
                 ∧ Ex7.stop s7 false w' = Done tt w'
                 ∧ Ex7.join s7 w' = Done tt w'))
  ∧ (jthreads w !! Ex6.mThread s6 = Some (JThread (Some s) (Some t)) →
     wp ((Ex6.stop s6 true ;;; Ex6.stop s6 true)%prog w)
        (λ o w', o = Exn SystemError
                 ∧ finished t w' = true
                 ∧ Ex6.stop s6 false w' = Done tt w'
                 ∧ Ex6.join s6 w' = Done tt w')).
Proof.
  intros Hs Hc. split; [|split]; intros Hj.
  - by eapply (stop_text_twice_throws (Ex5.mThread s5)).
  - by eapply (stop_text_twice_throws (Ex7.mThread s7)).
  - by eapply (stop_text_twice_throws (Ex6.mThread s6)).
Qed.
End WorkerLifecycle.

(** * [stopThread] of ex4 *)

Section StopThread.
Context {T : Type}.
Implicit Types (w : world T).

(** X15. [stopThread] of ex4 asks and never waits.  On a jthread without
    stop state (never started) it does nothing.  Once a stop has been
    requested it does nothing more.  In every state, whatever callbacks the
    request fires and however the threads are scheduled, it cannot end by
    throwing, and when it returns every jthread that was joinable still
    is: it has joined nothing.  The non-blocking [stop()] of the worker
    classes behaves alike. *)
Theorem stopThread_never_joins (w : world T) (jt : nat)
    (s5 : Ex5.SimpleWorkerThrad) (s6 : Ex6.WorkerThread T) (s7 : Ex7.WorkerThread) :
  (jthreads w !! jt = Some default_jthread → Ex4.stopThread jt w = Done tt w)
  ∧ (stop_requested (get_stop_token jt w) w = true →
     Ex4.stopThread jt w = Done tt w)
  ∧ wp (Ex4.stopThread jt w) (λ o w', o = Ok tt ∧ joinable_kept w w')
  ∧ wp (Ex5.stop s5 false w) (λ o w', o = Ok tt ∧ joinable_kept w w')
  ∧ wp (Ex6.stop s6 false w) (λ o w', o = Ok tt ∧ joinable_kept w w')
  ∧ wp (Ex7.stop s7 false w) (λ o w', o = Ok tt ∧ joinable_kept w w').
Proof.
  change (Ex4.stopThread jt) with (stop_text (T:=T) jt false).
  rewrite Ex5_stop_text, Ex6_stop_text, Ex7_stop_text.
  assert (Hwp : ∀ k, wp (stop_text k false w)
                       (λ o w', o = Ok tt ∧ joinable_kept w w')).
  { intros k. eapply sure_wp; [apply joinable_kept_callbacks|apply sure_stop]. }
  split; [|split; [|split; [|split; [|split]]]]; try apply Hwp.
  - intros Hj. apply stop_text_unstarted. unfold get_stop_token. by rewrite Hj.
  - apply stop_text_again.
Qed.
End StopThread.

(** * The concrete states are what the code builds *)

Example ex5_worker_built :
  Ex5.SimpleWorkerThrad_ctor true world0 = Done ex5_worker ex_unstarted.
Proof. reflexivity. Qed.

Example ex5_started_built : Ex5.start ex5_worker ex_unstarted = Done tt ex5_started.
Proof. reflexivity. Qed.

Example ex5_stopping_built : Ex5.stop ex5_worker false ex5_started = Done tt ex5_stopping.
Proof. reflexivity. Qed.

Example ex6_started_built :
  (this <- Ex6.WorkerThread_ctor false Ex6.BoolWorkerThread_taskComplete ;;
   Ex6.start this ;;; ret this)%prog world0
  = Done ex6_worker ex6_started.
Proof. reflexivity. Qed.

Example ex6_stopping_built : Ex6.stop ex6_worker false ex6_started = Done tt ex6_stopping.
Proof. reflexivity. Qed.

Example ex7_started_built :
  (this <- Ex7.WorkerThread_ctor true ;; Ex7.start this ;;; ret this)%prog world0
  = Done ex7_worker ex7_started.
Proof. reflexivity. Qed.

Example ex7_stopping_built : Ex7.stop ex7_worker false ex7_started = Done tt ex7_stopping.
Proof. reflexivity. Qed.

Example ex7_scenario_built : ex7_scenario world0 = Done tt ex7_scenario_state.
Proof. reflexivity. Qed.

Example ex7_pool_built : ex7_pool_scenario world0 = Done tt ex7_pool_state.
Proof. reflexivity. Qed.

(** A second blocking [stop] throws: [join()] on a jthread that was
    already joined. *)
Example ex5_stop_block_twice :
  exec 10 [[0; 0]] ((Ex5.stop ex5_worker true ;;; Ex5.stop ex5_worker true)%prog ex5_started)
  = Some (Exn SystemError,
          World [StopState true []] 0 [JThread (Some 0) None]
                [Thread (B5_interruptable 0 (Some (Some 0))) (Some 0) false] [] [] [],
          []).
Proof. reflexivity. Qed.

(** [addCallback] on a worker that is not started registers nothing: the
    token has no stop state, and the action never runs. *)
Example ex5_addCallback_unstarted :
  Ex5.addCallback ex5_worker (ASimple SLog) ex_unstarted = Done None ex_unstarted.
Proof. reflexivity. Qed.

(** * Instances *)

Lemma C1_witness :
  count is_won
    (history (sys_run [CRegister tt; CRequestStop; CRequestStop; CInvokeNext;
                       CInvokeNext; CPoll] sys_init)) = 1
  ∧ count (is_invoked 0)
      (history (sys_run [CRegister tt; CRequestStop; CRequestStop; CInvokeNext;
                         CInvokeNext; CPoll] sys_init)) = 1
  ∧ ∃ w', runs (Ex6.stop ex6_worker false ex6_started) (Ok tt) w'
          ∧ stop_requested (Some 0) w' = true.
Proof.
  pose proof (proj1 (C1_request_stop_single_winner (T:=bool) (A:=unit))
                [CRegister tt; CRequestStop; CRequestStop; CInvokeNext;
                 CInvokeNext; CPoll]) as (H1 & _ & _ & _ & _ & _ & H7).
  split; [exact H1|]. split.
  - destruct (H7 eq_refl 0) as [H|H].
    + vm_compute. constructor.
    + exact H.
    + vm_compute in H. repeat destruct H as [H|H]; discriminate || contradiction.
  - assert (E : ∃ w' sch',
               exec 10 [] (Ex6.stop ex6_worker false ex6_started)
               = Some (Ok tt, w', sch')).
    { vm_compute. eexists _, _. reflexivity. }
    destruct E as (w' & sch' & E). apply exec_runs in E.
    exists w'. split; [exact E|].
    exact (proj2 (proj2 (proj2 (C1_request_stop_single_winner (T:=bool) (A:=unit))
                           ex6_started ex6_worker false 0 (Some 0) ss_fresh
                           eq_refl eq_refl)) _ _ E eq_refl).
Defined.

Lemma C2_witness :
  (∃ h1 h2 h3 h4,
     history (sys_run [CRequestStop; CInvokeNext; CInvokeNext]
                (sys_step (CRegister tt) sys_init))
     = h1 ++ OWon :: h2 ++ OInvoked 0 tt :: h3 ++ OReturnedTrue :: h4
     ∧ count (is_invoked 0)
         (history (sys_run [CRequestStop; CInvokeNext; CInvokeNext]
                     (sys_step (CRegister tt) sys_init))) = 1)
  ∧ (∃ w1 k, Ex5.addCallback ex5_worker (ASimple SLog) ex5_stopping
             = Call (ASimple SLog) w1 k
             ∧ trace w1 = [EInvoke 0])
  ∧ Ex5.addCallback ex5_worker (ASimple SLog) ex5_started
    = Done (Some (0, 0))
        (World [StopState false [(0, ASimple SLog)]] 1 (jthreads ex5_started)
               (threads ex5_started) [] [] []).
Proof.
  split; [|split].
  - pose proof (proj1 (C2_callback_invoked_once (T:=unit) (A:=unit)) []
                  [CRequestStop; CInvokeNext; CInvokeNext] tt) as (_ & H & _).
    destruct (H eq_refl) as (_ & _ & H').
    apply H'.
    + simpl. intros [H0|[H0|[H0|[]]]]; discriminate.
    + reflexivity.
  - destruct (proj2 (C2_callback_invoked_once (T:=unit) (A:=unit))
                ex5_stopping ex5_worker (ASimple SLog)) as (E1 & _ & E3).
    rewrite E1. eexists _, _. split.
    + exact (E3 0 (StopState true []) eq_refl).
    + reflexivity.
  - destruct (proj2 (C2_callback_invoked_once (T:=unit) (A:=unit))
                ex5_started ex5_worker (ASimple SLog)) as (E1 & _ & E3).
    rewrite E1. exact (E3 0 ss_fresh eq_refl).
Defined.

Lemma C8_witness :
  0 < next_id (sys_run [CRegister tt] sys_init)
  ∧ count (is_invoked 0)
      (history (sys_run [CRequestStop; CInvokeNext; CInvokeNext]
                  (sys_step (CDestroy 0) (sys_run [CRegister tt] sys_init)))) = 0
  ∧ sstates (stop_callback_dtor (Some (0, 0))
               (World [StopState false [(0, ASimple SLog)]] 1 (jthreads ex5_started)
                      (threads ex5_started) [] [] [])) !! 0
    = Some (@ss_fresh (action unit)).
Proof.
  assert (H : 0 < next_id (sys_run [CRegister tt] (@sys_init unit))).
  { simpl. apply Nat.lt_0_succ. }
  split; [exact H|]. split.
  - exact (proj1 (proj2 (proj1 (C8_destroyed_callback_never_runs (T:=unit) (A:=unit))
                           [CRegister tt] [CRequestStop; CInvokeNext; CInvokeNext]
                           0 H)) eq_refl).
  - exact (proj1 (proj2 (C8_destroyed_callback_never_runs (T:=unit) (A:=unit))
                    (World [StopState false [(0, ASimple SLog)]] 1
                           (jthreads ex5_started) (threads ex5_started) [] [] [])
                    0 0 (StopState false [(0, ASimple SLog)]) eq_refl)).
Defined.

Lemma C3_witness :
  threads ex7_scenario_state !! 0 = Some (Thread (B7_worker false) (Some 0) true)
  ∧ stop_requested (Some 0) ex7_scenario_state = true
  ∧ ∃ w', steps 6 0 ex7_scenario_state = Some w'
          ∧ finished 0 w' = true
          ∧ taskQueue w' = []
          ∧ dequeued_by 0 w' = [5; 4; 3; 2; 1]%Z.
Proof.
  split; [reflexivity|]. split; [reflexivity|].
  exact (proj1 (C3_drains_queue_in_order ex7_scenario_state 0 0 [5; 4; 3; 2; 1]%Z
                  eq_refl eq_refl eq_refl)).
Defined.

Lemma C4_witness :
  ∃ wj, steps 2 0 ex7_early_state = Some wj
        ∧ taskQueue wj = [3; 2; 1]%Z
        ∧ dequeued_by 0 wj = [5; 4]%Z
        ∧ thread_step 0 (set_sstates <[0 := StopState true []]> wj)
          = Some (exit_thread 0 (set_sstates <[0 := StopState true []]> wj))
        ∧ dequeued_by 0 (exit_thread 0 (set_sstates <[0 := StopState true []]> wj))
          = [5; 4]%Z.
Proof.
  destruct (C4_finishes_early ex7_early_state 0 0 [5; 4; 3; 2; 1]%Z 2
              eq_refl eq_refl eq_refl (le_S _ _ (le_S _ _ (le_S _ _ (le_n 2)))))
    as (wj & Hs & Hq & Hd & Hstop).
  exists wj. split; [exact Hs|]. split; [exact Hq|]. split; [exact Hd|].
  destruct (Hstop (set_sstates <[0 := StopState true []]> wj)
              eq_refl eq_refl eq_refl) as (H1 & _ & _ & H4 & _).
  - vm_compute in Hs. injection Hs as <-. reflexivity.
  - split; [exact H1|exact H4].
Defined.




Lemma C7_witness :
  jthreads ex5_started !! Ex5.mThread ex5_worker = Some (JThread (Some 0) (Some 0))
  ∧ ∃ w', runs (Ex5.start ex5_worker ex5_started) (Ok tt) w'
          ∧ finished 0 w' = true
          ∧ jthreads w' !! 0 = Some (JThread (Some 1) (Some 1)).
Proof.
  split; [reflexivity|].
  assert (E : ∃ w' sch',
             exec 20 [[0; 0]] (Ex5.start ex5_worker ex5_started)
             = Some (Ok tt, w', sch')).
  { vm_compute. eexists _, _. reflexivity. }
  destruct E as (w' & sch' & E). apply exec_runs in E.
  exists w'. split; [exact E|].
  exact (proj2 (proj1 (C7_restart_spawns_then_joins ex5_started ex5_worker
                         {| Ex6.mThread := 0; Ex6.mData := 0; Ex6.mCv := 0;
                            Ex6.taskComplete := λ _, false |} ex7_worker)
                  (Some 0) 0 eq_refl) _ _ E eq_refl).
Defined.

(** C7 as stated fails: the second [start] of a started worker is not a
    no-op and throws nothing; it blocks in [join()] with two bodies of the
    same worker alive. *)
Lemma C7_counterexample :
  joinable (Ex5.mThread ex5_worker) ex5_started = true
  ∧ Ex5.start ex5_worker ex5_started ≠ Done tt ex5_started
  ∧ (∀ e w', Ex5.start ex5_worker ex5_started ≠ Throw e w')
  ∧ ∃ w1 k, Ex5.start ex5_worker ex5_started = Wait (CJoin 0) w1 k
            ∧ is_alive 0 w1 = true
            ∧ is_alive 1 w1 = true
            ∧ (tbody <$> threads w1 !! 1) = Some (B5_interruptable 0 None).
Proof.
  split; [reflexivity|]. split; [discriminate|]. split; [discriminate|].
  eexists _, _. split; [reflexivity|]. by repeat split.
Qed.

Lemma C9_witness :
  (∃ w', runs ((Ex5.stop ex5_worker true ;;; Ex5.stop ex5_worker true)%prog
                 ex5_started) (Exn SystemError) w'
         ∧ finished 0 w' = true)
  ∧ (∃ w', runs ((Ex7.stop ex7_worker true ;;; Ex7.stop ex7_worker true)%prog
                   ex7_started) (Exn SystemError) w'
           ∧ finished 0 w' = true).
Proof.
  pose (u6 := {| Ex6.mThread := 0; Ex6.mData := 0; Ex6.mCv := 0;
                 Ex6.taskComplete := λ _ : unit, false |}).
  split.
  - assert (E : ∃ w' sch',
               exec 20 [[0; 0]]
                 ((Ex5.stop ex5_worker true ;;; Ex5.stop ex5_worker true)%prog
                    ex5_started)
               = Some (Exn SystemError, w', sch')).
    { vm_compute. eexists _, _. reflexivity. }
    destruct E as (w' & sch' & E). apply exec_runs in E.
    exists w'. split; [exact E|].
    exact (proj1 (proj2 (proj1 (C9_second_blocking_stop_throws ex5_started
                                  ex5_worker u6 ex7_worker 0 0 ss_fresh
                                  eq_refl eq_refl) eq_refl _ _ E))).
  - assert (E : ∃ w' sch',
               exec 20 [[0]]
                 ((Ex7.stop ex7_worker true ;;; Ex7.stop ex7_worker true)%prog
                    ex7_started)
               = Some (Exn SystemError, w', sch')).
    { vm_compute. eexists _, _. reflexivity. }
    destruct E as (w' & sch' & E). apply exec_runs in E.
    exists w'. split; [exact E|].
    exact (proj1 (proj2 (proj1 (proj2 (C9_second_blocking_stop_throws ex7_started
                                         ex5_worker u6 ex7_worker 0 0 ss_fresh
                                         eq_refl eq_refl)) eq_refl _ _ E))).
Defined.

Lemma C10_witness :
  Ex6.setData ex6_worker true ex6_stopping = Done tt ex6_stopping
  ∧ Ex6.setData ex6_worker true ex_unstarted_bool = Done tt ex_unstarted_bool
  ∧ Ex6.setData ex6_worker true ex6_started
    = Done tt (World [ss_fresh] 0 [JThread (Some 0) (Some 0)]
                 [Thread (B6_worker 0 0 Ex6.BoolWorkerThread_taskComplete None)
                    (Some 0) true]
                 [true] [] [ENotifyAll 0]).
Proof.
  split; [|split].
  - exact (proj1 (C10_setData_frame ex6_worker true ex6_stopping)
             (or_intror eq_refl)).
  - exact (proj1 (C10_setData_frame ex6_worker true ex_unstarted_bool)
             (or_introl eq_refl)).
  - exact (proj1 (proj2 (C10_setData_frame ex6_worker true ex6_started))
             eq_refl eq_refl).
Defined.

(** * Instances of the further properties *)

Lemma join_waits_once_witness :
  ∃ w', runs (Ex5.join ex5_worker ex5_stopping) (Ok tt) w'
        ∧ finished 0 w' = true
        ∧ Ex5.join ex5_worker w' = Done tt w'.
Proof.
  assert (E : ∃ w' sch',
             exec 20 [[0; 0]] (Ex5.join ex5_worker ex5_stopping)
             = Some (Ok tt, w', sch')).
  { vm_compute. eexists _, _. reflexivity. }
  destruct E as (w' & sch' & E). apply exec_runs in E.
  exists w'. split; [exact E|].
  destruct (proj1 (proj2 (proj2 (proj2 (join_waits_once ex5_stopping ex5_worker
              {| Ex6.mThread := 0; Ex6.mData := 0; Ex6.mCv := 0;
                 Ex6.taskComplete := λ _ : unit, false |} ex7_worker))))
              (Some 0) 0 eq_refl _ _ E) as (_ & H1 & _ & H2).
  split; [exact H1|exact H2].
Defined.

Lemma stop_block_twice_throws_witness :
  ∃ w', runs (Ex7.stop ex7_worker true ex7_started) (Ok tt) w'
        ∧ Ex7.stop ex7_worker true w' = Throw SystemError w'
        ∧ Ex7.join ex7_worker w' = Done tt w'.
Proof.
  assert (E : ∃ w' sch',
             exec 20 [[0]] (Ex7.stop ex7_worker true ex7_started)
             = Some (Ok tt, w', sch')).
  { vm_compute. eexists _, _. reflexivity. }
  destruct E as (w' & sch' & E). apply exec_runs in E.
  exists w'. split; [exact E|].
  destruct (proj2 (proj2 (stop_block_twice_throws ex7_started ex5_worker
              {| Ex6.mThread := 0; Ex6.mData := 0; Ex6.mCv := 0;
                 Ex6.taskComplete := λ _ : unit, false |} ex7_worker))
              0 0 ss_fresh eq_refl eq_refl eq_refl _ _ E) as (_ & _ & H1 & _ & H2).
  split; [exact H1|exact H2].
Defined.

Lemma uninterruptable_runs_all_rounds_witness :
  steps 21 0 (World [ss_fresh] 0 [JThread (Some 0) (Some 0)]
                [Thread (B5_uninterruptable 0) (Some 0) true] [] [] [])
  = Some (World [ss_fresh] 0 [JThread (Some 0) (Some 0)]
            [Thread (@B5_uninterruptable unit 20) (Some 0) false] [] [] []).
Proof.
  exact (proj1 (proj2 (uninterruptable_runs_all_rounds
           (World [ss_fresh] 0 [JThread (Some 0) (Some 0)]
              [Thread (@B5_uninterruptable unit 0) (Some 0) true] [] [] [])
           {| Ex5.mInterruptable := false; Ex5.mThread := 0 |}
           0 0 (Some 0) 0 eq_refl (Nat.le_0_l 20) eq_refl))).
Defined.

Lemma queue_conserved_witness :
  conserved ex7_scenario_state
  ∧ ∃ w', Ex7.push 7 ex7_scenario_state = Done tt w'
          ∧ conserved w'
          ∧ pushed w' = [5; 4; 3; 2; 1; 7]%Z.
Proof.
  assert (H : conserved ex7_scenario_state) by reflexivity.
  split; [exact H|].
  exact (proj1 (proj2 (proj2 (queue_conserved ex7_scenario_state ex7_worker
                                false 7%Z) H))).
Defined.

Lemma worker_blocked_iff_witness :
  thread_step 0 ex7_started = None
  ∧ thread_step 0 ex7_stopping = Some (exit_thread 0 ex7_stopping).
Proof.
  split.
  - exact (proj2 (proj1 (worker_blocked_iff ex7_started 0 true (Some 0) eq_refl))
             (conj eq_refl eq_refl)).
  - destruct (proj2 (worker_blocked_iff ex7_stopping 0 true (Some 0) eq_refl)
                (exit_thread 0 ex7_stopping) eq_refl) as [(H & _)|(v & q & H & _)].
    + reflexivity.
    + discriminate H.
Defined.

Lemma stop_callback_starts_other_witness :
  ∃ w', runs ((Ex5.addCallback ex5_worker
                 (Ex5.lambda {| Ex5.mInterruptable := true; Ex5.mThread := 1 |}) ;;;
               Ex5.stop ex5_worker false)%prog
                (World [ss_fresh] 0 [JThread (Some 0) (Some 0); default_jthread]
                   [Thread (@B5_interruptable unit 0 None) (Some 0) true] [] [] []))
             (Ok tt) w'
        ∧ joinable 1 w' = true.
Proof.
  assert (E : ∃ w' sch',
             exec 20 []
               ((Ex5.addCallback ex5_worker
                   (Ex5.lambda {| Ex5.mInterruptable := true; Ex5.mThread := 1 |}) ;;;
                 Ex5.stop ex5_worker false)%prog
                  (World [ss_fresh] 0 [JThread (Some 0) (Some 0); default_jthread]
                     [Thread (@B5_interruptable unit 0 None) (Some 0) true] [] [] []))
             = Some (Ok tt, w', sch')).
  { vm_compute. eexists _, _. reflexivity. }
  destruct E as (w' & sch' & E). apply exec_runs in E.
  exists w'. split; [exact E|].
  exact (proj1 (stop_callback_starts_other
                  (World [ss_fresh] 0 [JThread (Some 0) (Some 0); default_jthread]
                     [Thread (@B5_interruptable unit 0 None) (Some 0) true] [] [] [])
                  ex5_worker {| Ex5.mInterruptable := true; Ex5.mThread := 1 |}
                  {| Ex6.mThread := 0; Ex6.mData := 0; Ex6.mCv := 0;
                     Ex6.taskComplete := λ _ : unit, false |}
                  {| Ex6.mThread := 0; Ex6.mData := 0; Ex6.mCv := 0;
                     Ex6.taskComplete := λ _ : unit, false |}
                  ex7_worker ex7_worker)
           0 (Some 0) ss_fresh eq_refl eq_refl (le_n 2) _ _ E eq_refl).
Defined.

Lemma setData_wakes_worker_witness :
  ∃ w1, Ex6.setData ex6_worker true
          (World [StopState false [(0, ASimple (SNotifyAll 0))]] 1
             [JThread (Some 0) (Some 0)]
             [Thread (B6_worker 0 0 Ex6.BoolWorkerThread_taskComplete
                        (Some (Some (0, 0)))) (Some 0) true]
             [false] [] [])
        = Done tt w1
        ∧ finished 0 (exit_thread 0 (stop_callback_dtor (Some (0, 0)) w1)) = true
        ∧ sstates (exit_thread 0 (stop_callback_dtor (Some (0, 0)) w1)) = [ss_fresh].
Proof.
  destruct (setData_wakes_worker
              (World [StopState false [(0, ASimple (SNotifyAll 0))]] 1
                 [JThread (Some 0) (Some 0)]
                 [Thread (B6_worker 0 0 Ex6.BoolWorkerThread_taskComplete
                            (Some (Some (0, 0)))) (Some 0) true]
                 [false] [] [])
              ex6_worker true 0 0 (Some (0, 0)) eq_refl eq_refl eq_refl (le_n 1))
    as (w1 & H1 & _ & _ & _ & _ & _ & _ & H2 & _).
  exists w1. split; [exact H1|].
  split; [exact (proj2 (H2 eq_refl))|].
  unfold Ex6.setData in H1. simpl in H1. injection H1 as <-. reflexivity.
Defined.

Lemma main_without_threads_witness :
  runs (Ex7.main (-1) (@world0 unit)) (Ok tt)
       (World [] 0 [default_jthread] [] [] [] [])
  ∧ runs (Ex7.main 0 (@world0 unit)) (Exn DivideByZero)
         (World [] 0 [default_jthread] [] [] [] []).
Proof.
  split.
  - exact (proj2 (proj1 (main_without_threads (T:=unit) (-1)) ltac:(lia))).
  - exact (proj2 (proj2 (main_without_threads (T:=unit) 0) eq_refl)).
Defined.

Lemma main_joins_every_thread_witness :
  ∃ w', runs (Ex7.main 1 (@world0 unit)) (Ok tt) w'
        ∧ length (threads w') = 2
        ∧ taskQueue w' = []
        ∧ dequeued w' = [10; 9; 8; 7; 6; 5; 4; 3; 2; 1]%Z.
Proof.
  assert (E : ∃ w' sch',
             exec 200 (replicate 15 [] ++ [replicate 11 1; [0]])
               (Ex7.main 1 (@world0 unit))
             = Some (Ok tt, w', sch')).
  { vm_compute. eexists _, _. reflexivity. }
  destruct E as (w' & sch' & E). apply exec_runs in E.
  exists w'. split; [exact E|].
  destruct (proj1 (main_joins_every_thread (T:=unit) 1 eq_refl) _ _ E)
    as (_ & H1 & _ & _ & H2 & H3).
  split; [exact H1|]. split; [exact H2|exact H3].
Defined.

Lemma workers_never_throw_witness :
  returns (Ex5.stop ex5_worker true ex5_started)
  ∧ returns (Ex5.SimpleWorkerThrad_dtor ex5_worker ex5_started).
Proof.
  pose proof (proj1 (workers_never_throw ex5_started (ASimple SLog) ex5_worker
                       {| Ex6.mThread := 0; Ex6.mData := 0; Ex6.mCv := 0;
                          Ex6.taskComplete := λ _ : unit, false |} ex7_worker))
    as (_ & _ & _ & _ & H5 & H6).
  split; [exact (H6 eq_refl)|exact H5].
Defined.

Lemma stop_block_can_return_witness :
  (∃ w', runs (Ex5.stop ex5_worker true ex5_started) (Ok tt) w')
  ∧ (∃ w', runs (Ex7.stop ex7_drainer true
                   (World [ss_fresh] 0 [JThread (Some 0) (Some 0)]
                      [Thread (@B7_worker unit false) (Some 0) true] []
                      [3; 2; 1]%Z []))
                (Ok tt) w').
Proof.
  split.
  - exact (proj1 (stop_block_can_return ex5_started ex5_worker ex7_worker 0 0
                    ss_fresh eq_refl eq_refl)
             None true eq_refl eq_refl (or_introl eq_refl)).
  - exact (proj2 (proj2 (stop_block_can_return
                    (World [ss_fresh] 0 [JThread (Some 0) (Some 0)]
                       [Thread (@B7_worker unit false) (Some 0) true] []
                       [3; 2; 1]%Z [])
                    ex5_worker ex7_drainer 0 0 ss_fresh eq_refl eq_refl))
             false true eq_refl eq_refl).
Defined.

Lemma stop_notifies_worker_witness :
  runs (Ex6.stop ex6_worker false
          (World [StopState false [(0, ASimple (SNotifyAll 0))]] 1
             [JThread (Some 0) (Some 0)]
             [Thread (B6_worker 0 0 Ex6.BoolWorkerThread_taskComplete
                        (Some (Some (0, 0)))) (Some 0) true]
             [false] [] []))
       (Ok tt)
       (World [StopState true []] 1 [JThread (Some 0) (Some 0)]
          [Thread (B6_worker 0 0 Ex6.BoolWorkerThread_taskComplete
                     (Some (Some (0, 0)))) (Some 0) true]
          [false] [] [EInvoke 0; ENotifyAll 0]).
Proof.
  exact (proj1 (proj2 (stop_notifies_worker
           (World [StopState false [(0, ASimple (SNotifyAll 0))]] 1
              [JThread (Some 0) (Some 0)]
              [Thread (B6_worker 0 0 Ex6.BoolWorkerThread_taskComplete
                         (Some (Some (0, 0)))) (Some 0) true]
              [false] [] [])
           ex6_worker 0 0 0 eq_refl eq_refl eq_refl))).
Defined.

Lemma stopThread_never_joins_witness :
  Ex4.stopThread 0 ex_unstarted = Done tt ex_unstarted
  ∧ Ex4.stopThread 0 ex5_stopping = Done tt ex5_stopping.
Proof.
  split.
  - exact (proj1 (stopThread_never_joins ex_unstarted 0 ex5_worker
                    {| Ex6.mThread := 0; Ex6.mData := 0; Ex6.mCv := 0;
                       Ex6.taskComplete := λ _ : unit, false |} ex7_worker)
             eq_refl).
  - exact (proj1 (proj2 (stopThread_never_joins ex5_stopping 0 ex5_worker
                    {| Ex6.mThread := 0; Ex6.mData := 0; Ex6.mCv := 0;
                       Ex6.taskComplete := λ _ : unit, false |} ex7_worker))
             eq_refl).
Defined.
